(** * Audio pipeline of the voice-call front end

    A shallow embedding of [src/app/utils/audioUtils.ts] (the streaming
    microphone: resampler, energy VAD, PCM16 encoder, 20 ms framing) and of
    the playback scheduler and session coordinator of [src/app/page.tsx].

    Numbers.  JavaScript numbers are embedded as exact rationals [Q].  Audio
    samples are finite binary32 values, hence dyadic rationals, and the
    encoder's products with [0x8000] and [0x7fff] as well as the decoder's
    division by [32768] are exact in binary64, so the encoder and decoder are
    embedded without loss.  The resampler turns numbers into array indices,
    where a rounding error moves the sample that is read: its quotient
    [sampleRate / 16000], the quotient [input.length / ratio] and the
    products [i * ratio] are rounded to binary64 by [Js.round64].  Sums,
    quotients and clock differences of the VAD are embedded as their exact
    values, and [Math.sqrt] is a parameter of the development.  NaN and the
    infinities are outside the embedding: a ScriptProcessor buffer holds
    1024 finite samples. *)

From Stdlib Require Import ZArith QArith Qround Qminmax Qabs Qpower.
From Stdlib Require Import List Bool Lia Lqa.
From Stdlib.Strings Require Import Byte.
From Stdlib.Strings Require String.
From Equations Require Import Equations.
Import ListNotations.

Set Implicit Arguments.
Local Open Scope Q_scope.

(* ===================================================================== *)
(** * JavaScript primitives used by the sources *)
(* ===================================================================== *)

Module Js.

(** [a < b] and [a >= b] on numbers. *)
Definition ltb (a b : Q) : bool := negb (Qle_bool b a).
Definition geb (a b : Q) : bool := Qle_bool b a.

(** [Math.max(a, b)] and [Math.min(a, b)] on finite numbers. *)
Definition Math_max (a b : Q) : Q := if Qle_bool a b then b else a.
Definition Math_min (a b : Q) : Q := if Qle_bool a b then a else b.

(** [Math.floor]. *)
Definition Math_floor (x : Q) : Z := Qfloor x.

(** ** Rounding to binary64

    [a / b] and [a * b] deliver the binary64 value nearest to the exact
    quotient or product, ties to the even significand.  [round64] is that
    rounding for results in the normal range (magnitudes from 2^-1022 up to
    2^1024), where 53 bits of significand are kept. *)

(** The binade of a positive number: the [e] with [2^e <= x < 2^(e+1)]. *)
Definition binade (x : Q) : Z :=
  let e := (Z.log2 (Qnum x) - Z.log2 (Zpos (Qden x)))%Z in
  if Qle_bool (2 ^ e) x then e else (e - 1)%Z.

(** The nearest integer, ties to even. *)
Definition nearest_even (x : Q) : Z :=
  let f := Qfloor x in
  let r := x - inject_Z f in
  if ltb r (1 # 2) then f
  else if ltb (1 # 2) r then (f + 1)%Z
  else if Z.even f then f else (f + 1)%Z.

(** A positive number, rounded to a multiple of its unit in the last
    place [2^(e - 52)]. *)
Definition round64_pos (x : Q) : Q :=
  let ulp := 2 ^ (binade x - 52) in
  inject_Z (nearest_even (x / ulp)) * ulp.

Definition round64 (x : Q) : Q :=
  let y := Qred x in
  if ltb 0 y then round64_pos y
  else if ltb y 0 then - round64_pos (- y)
  else 0.

(** Truncation toward zero, the first step of every integer conversion. *)
Definition trunc (x : Q) : Z := Z.quot (Qnum x) (Zpos (Qden x)).

(** [ToInt16]: what a store into an [Int16Array] does to a finite number:
    truncate, reduce modulo 2^16, reinterpret as signed. *)
Definition ToInt16 (x : Q) : Z :=
  let m := ((trunc x) mod 65536)%Z in
  if (32768 <=? m)%Z then (m - 65536)%Z else m.

(** [TypedArray.prototype.slice(i, j)] for [0 <= i <= j]. *)
Definition slice {A : Type} (l : list A) (i j : nat) : list A :=
  firstn (j - i) (skipn i l).

(** A [Math.sqrt] that is exact on squares of rationals; it instantiates
    the parameter of the development on concrete runs. *)
Definition sqrt_exact (x : Q) : Q :=
  let r := Qred x in Z.sqrt (Qnum r) # Pos.sqrt (Qden r).

End Js.

(* ===================================================================== *)
(** * audioUtils.ts: the streaming microphone *)
(* ===================================================================== *)

Module AudioUtils.
Import Js.

(** [WebSocket.readyState]. *)
Inductive ReadyState := CONNECTING | OPEN | CLOSING | CLOSED.

Definition is_open (r : ReadyState) : bool :=
  match r with OPEN => true | _ => false end.

(** The two JSON control messages the microphone sends. *)
Inductive Edge := speech_start | speech_end.

(** What goes out on the socket: a text message
    [JSON.stringify({ type: ... })] or a binary message [frame.buffer]. *)
Inductive WsMessage :=
| Text (e : Edge)
| BinaryFrame (frame : list Z).

(** Everything a tick or [stop()] does to the outside, in program order. *)
Inductive Effect :=
| WsSend (m : WsMessage)
| CallOnSpeechStart
| CallOnSpeechEnd
| CallOnAudioLevel (level : Q)
| ReleaseDevice.

(** [StreamingMicOptions]; a callback is represented by its presence. *)
Record StreamingMicOptions := {
  energyThreshold : option Q;
  silenceMs : option Q;
  onSpeechStart : bool;
  onSpeechEnd : bool
}.

(** The destructuring defaults [energyThreshold = 0.01, silenceMs = 600]. *)
Definition energyThreshold_of (o : StreamingMicOptions) : Q :=
  match energyThreshold o with Some e => e | None => 1 # 100 end.
Definition silenceMs_of (o : StreamingMicOptions) : Q :=
  match silenceMs o with Some m => m | None => 600 end.

(** What the closure of [startStreamingMic] captures and never changes. *)
Record Session := {
  options : StreamingMicOptions;
  onAudioLevel : bool;
  sampleRate : Q;          (* audioContext.sampleRate *)
  streamStartTime : Q      (* performance.now() at start *)
}.

(** The [let] variables under the comment "VAD state". *)
Record MicState := {
  framesSent : nat;
  isSpeaking : bool;
  lastSpeechTs : Q;
  noiseSum : Q;
  noiseCount : nat
}.

Definition initial : MicState :=
  {| framesSent := 0; isSpeaking := false; lastSpeechTs := 0;
     noiseSum := 0; noiseCount := 0 |}.

Definition calibrationMs : Q := 500.
Definition targetSampleRate : Q := 16000.
Definition FRAME_SIZE : nat := 320.

(** One [AudioProcessingEvent]: the socket state seen by the guard, the
    channel data, and the two readings of [performance.now()]. *)
Record Tick := {
  readyState : ReadyState;
  input : list Q;
  clock_elapsed : Q;
  clock_now : Q
}.

(** ** Downsample to 16 kHz (lines 356-364) *)

(** [const ratio = audioContext.sampleRate / targetSampleRate]: a
    binary64 quotient. *)
Definition ratio_of (rate : Q) : Q := round64 (rate / targetSampleRate).

(** [Math.floor(input.length / ratio)]. *)
Definition newLength_of (rate : Q) (input : list Q) : Z :=
  Math_floor (round64 (inject_Z (Z.of_nat (length input)) / ratio_of rate)).

(** [Math.floor(i * ratio)], the index read for output sample [i]. *)
Definition index_of (rate : Q) (i : nat) : Z :=
  Math_floor (round64 (inject_Z (Z.of_nat i) * ratio_of rate)).

(** [input[Math.floor(i * ratio)]]. *)
Definition pick (rate : Q) (input : list Q) (i : nat) : Q :=
  nth (Z.to_nat (index_of rate i)) input 0.

Definition downsample (rate : Q) (input : list Q) : list Q :=
  map (pick rate input) (seq 0 (Z.to_nat (newLength_of rate input))).

(** ** Float32 -> PCM16 (lines 406-411) *)

Definition encode_sample (x : Q) : Z :=
  let s := Math_max (-1) (Math_min 1 x) in
  ToInt16 (if ltb s 0 then s * 32768 else s * 32767).

Definition encode (downsampled : list Q) : list Z :=
  map encode_sample downsampled.

(** ** 20 ms frame chunking (lines 413-422)

    The [for] loop over [i], stepping by [FRAME_SIZE]; the result lists
    the frames handed to [ws.send], in order. *)

Equations? frame_loop (pcm16 : list Z) (i : nat) : list (list Z)
  by wf (length pcm16 - i)%nat lt :=
  frame_loop pcm16 i with lt_dec i (length pcm16) => {
    | left _ =>
        let frame := slice pcm16 i (i + FRAME_SIZE) in
        if (length frame =? FRAME_SIZE)%nat
        then frame :: frame_loop pcm16 (i + FRAME_SIZE)
        else frame_loop pcm16 (i + FRAME_SIZE);
    | right _ => [] }.
Proof. all: unfold FRAME_SIZE; lia. Qed.

Definition frames (pcm16 : list Z) : list (list Z) := frame_loop pcm16 0.

Section WithSqrt.

(** [Math.sqrt]. *)
Variable Math_sqrt : Q -> Q.

(** ** RMS energy of the downsampled buffer (lines 366-371) *)

Definition energySum_of (downsampled : list Q) : Q :=
  fold_left (fun acc x => acc + x * x) downsampled 0.

Definition rms_of (downsampled : list Q) : Q :=
  Math_sqrt (energySum_of downsampled
             / inject_Z (Z.of_nat (length downsampled))).

(** ** Noise-floor calibration and threshold (lines 373-384) *)

Definition calibrate (c : Session) (s : MicState) (t : Tick) (rms : Q)
  : Q * nat :=
  let elapsed := clock_elapsed t - streamStartTime c in
  if ltb elapsed calibrationMs
  then (noiseSum s + rms, S (noiseCount s))
  else (noiseSum s, noiseCount s).

Definition threshold_of (c : Session) (nSum : Q) (nCount : nat) : Q :=
  if (0 <? nCount)%nat
  then
    let estNoise := nSum / inject_Z (Z.of_nat nCount) in
    Math_max (energyThreshold_of (options c)) (estNoise * 3)
  else energyThreshold_of (options c).

(** ** VAD decision (lines 386-404): new [isSpeaking], new
    [lastSpeechTs], and the effects, in order. *)

Definition vad (c : Session) (s : MicState) (rms threshold now : Q)
  : bool * Q * list Effect :=
  if geb rms threshold then
    if negb (isSpeaking s)
    then (true, now,
          WsSend (Text speech_start)
          :: (if onSpeechStart (options c) then [CallOnSpeechStart] else []))
    else (isSpeaking s, now, [])
  else if isSpeaking s then
    let silenceElapsed := now - lastSpeechTs s in
    if geb silenceElapsed (silenceMs_of (options c))
    then (false, lastSpeechTs s,
          WsSend (Text speech_end)
          :: (if onSpeechEnd (options c) then [CallOnSpeechEnd] else []))
    else (isSpeaking s, lastSpeechTs s, [])
  else (isSpeaking s, lastSpeechTs s, []).

(** ** [processor.onaudioprocess] (lines 351-428) *)

Definition onaudioprocess (c : Session) (s : MicState) (t : Tick)
  : MicState * list Effect :=
  if negb (is_open (readyState t)) then (s, [])
  else
    let downsampled := downsample (sampleRate c) (input t) in
    let rms := rms_of downsampled in
    let '(nSum, nCount) := calibrate c s t rms in
    let threshold := threshold_of c nSum nCount in
    let '(speaking, lastTs, edges) := vad c s rms threshold (clock_now t) in
    let sent := frames (encode downsampled) in
    ({| framesSent := framesSent s + length sent;
        isSpeaking := speaking;
        lastSpeechTs := lastTs;
        noiseSum := nSum;
        noiseCount := nCount |},
     edges
     ++ map (fun f => WsSend (BinaryFrame f)) sent
     ++ (if onAudioLevel c
         then [CallOnAudioLevel (Math_min (rms * 8) 1)] else [])).

(** ** [StreamingMicHandle.stop] (lines 430-441)

    [stop] reads [isSpeaking] and the socket state; it assigns nothing. *)

Definition stop (c : Session) (s : MicState) (r : ReadyState)
  : MicState * list Effect :=
  (s,
   (if isSpeaking s && is_open r
    then WsSend (Text speech_end)
         :: (if onSpeechEnd (options c) then [CallOnSpeechEnd] else [])
    else [])
   ++ [ReleaseDevice]).

(** ** A session as the browser drives it: ticks, and calls of [stop] *)

Inductive Call :=
| Process (t : Tick)
| Stop (r : ReadyState).

Definition call (c : Session) (s : MicState) (e : Call)
  : MicState * list Effect :=
  match e with
  | Process t => onaudioprocess c s t
  | Stop r => stop c s r
  end.

Fixpoint run (c : Session) (s : MicState) (es : list Call)
  : MicState * list Effect :=
  match es with
  | [] => (s, [])
  | e :: es' =>
      let '(s1, out1) := call c s e in
      let '(s2, out2) := run c s1 es' in
      (s2, out1 ++ out2)
  end.

End WithSqrt.

(** The edge messages among the effects, in order. *)
Definition edge_of (e : Effect) : option Edge :=
  match e with WsSend (Text k) => Some k | _ => None end.

Fixpoint edges_of (out : list Effect) : list Edge :=
  match out with
  | [] => []
  | e :: out' =>
      match edge_of e with
      | Some k => k :: edges_of out'
      | None => edges_of out'
      end
  end.

(** The binary messages among the effects, in order. *)
Fixpoint binaries_of (out : list Effect) : list (list Z) :=
  match out with
  | [] => []
  | WsSend (BinaryFrame f) :: out' => f :: binaries_of out'
  | _ :: out' => binaries_of out'
  end.

(** Strict alternation of an edge sequence; [last] is the edge seen last. *)
Fixpoint alternates_from (last : Edge) (es : list Edge) : bool :=
  match es with
  | [] => true
  | e :: es' =>
      match last, e with
      | speech_start, speech_end => alternates_from speech_end es'
      | speech_end, speech_start => alternates_from speech_start es'
      | _, _ => false
      end
  end.

End AudioUtils.

(* ===================================================================== *)
(** * page.tsx: playback scheduler and session coordinator *)
(* ===================================================================== *)

Module Page.
Import Js.

Inductive CallPhase := connecting | listening | speaking.

(** [msg.type] of a parsed control message; [other_type] stands for any
    other value. *)
Inductive ControlType := tts_start | tts_end | other_type.

(** An [AudioBuffer] with one channel. *)
Record AudioBuffer := {
  channelData : list Q;
  bufferSampleRate : positive
}.

(** [buffer.duration], in seconds. *)
Definition duration (b : AudioBuffer) : Q :=
  Z.of_nat (length (channelData b)) # bufferSampleRate b.

(** What the scheduler and the coordinator do that can be observed, in
    the order it happens.  A source node is named by its creation index;
    [Idle awaited] is a run of the three assignments that end the
    speaking phase, [awaited] being the promises it waited for. *)
Inductive Obs :=
| Started (node : nat) (start : Q) (b : AudioBuffer)
| Halted (node : nat)
| Completed (node : nat)
| Idle (awaited : list nat).

(** The [useRef] cells. *)
Record Refs := {
  audioContextRef : bool;              (* current is not null *)
  playHeadRef : Q;
  sourceNodesRef : list nat;
  sourceEndPromisesRef : list nat;     (* promise of node k is named k *)
  ttsActiveRef : bool
}.

(** The [useState] cells the handlers write. *)
Record Ui := {
  isSpeaking : bool;
  isWsConnected : bool;
  callPhase : CallPhase
}.

(** The JavaScript runtime underneath: how many source nodes exist, which
    end promises are resolved, the pending [Promise.all(...).then]
    reactions, and the observations so far. *)
Record Runtime := {
  created : nat;
  settled : list nat;
  reactions : list (list nat);
  trace : list Obs
}.

Record State := { refs : Refs; ui : Ui; rt : Runtime }.

Definition initial : State :=
  {| refs := {| audioContextRef := false; playHeadRef := 0;
                sourceNodesRef := []; sourceEndPromisesRef := [];
                ttsActiveRef := false |};
     ui := {| isSpeaking := false; isWsConnected := false;
              callPhase := connecting |};
     rt := {| created := 0; settled := []; reactions := []; trace := [] |} |}.

Definition with_refs (s : State) (r : Refs) : State :=
  {| refs := r; ui := ui s; rt := rt s |}.
Definition with_ui (s : State) (u : Ui) : State :=
  {| refs := refs s; ui := u; rt := rt s |}.
Definition with_rt (s : State) (r : Runtime) : State :=
  {| refs := refs s; ui := ui s; rt := r |}.

Definition observe (o : Obs) (s : State) : State :=
  with_rt s {| created := created (rt s); settled := settled (rt s);
               reactions := reactions (rt s);
               trace := trace (rt s) ++ [o] |}.

Definition set_ttsActive (b : bool) (s : State) : State :=
  with_refs s {| audioContextRef := audioContextRef (refs s);
                 playHeadRef := playHeadRef (refs s);
                 sourceNodesRef := sourceNodesRef (refs s);
                 sourceEndPromisesRef := sourceEndPromisesRef (refs s);
                 ttsActiveRef := b |}.

Definition setIsSpeaking (b : bool) (s : State) : State :=
  with_ui s {| isSpeaking := b; isWsConnected := isWsConnected (ui s);
               callPhase := callPhase (ui s) |}.
Definition setIsWsConnected (b : bool) (s : State) : State :=
  with_ui s {| isSpeaking := isSpeaking (ui s); isWsConnected := b;
               callPhase := callPhase (ui s) |}.
Definition setCallPhase (p : CallPhase) (s : State) : State :=
  with_ui s {| isSpeaking := isSpeaking (ui s);
               isWsConnected := isWsConnected (ui s);
               callPhase := p |}.

(** ** [getAudioContext] (lines 87-95); [now] is [currentTime] *)

Definition getAudioContext (now : Q) (s : State) : State :=
  if audioContextRef (refs s) then s
  else with_refs s {| audioContextRef := true;
                      playHeadRef := now;
                      sourceNodesRef := sourceNodesRef (refs s);
                      sourceEndPromisesRef := [];
                      ttsActiveRef := ttsActiveRef (refs s) |}.

(** ** [scheduleBuffer] (lines 97-121) *)

Definition scheduleBuffer (now : Q) (b : AudioBuffer) (s : State) : State :=
  let s1 := getAudioContext now s in
  let src := created (rt s1) in
  let s2 := with_rt s1 {| created := S src; settled := settled (rt s1);
                          reactions := reactions (rt s1);
                          trace := trace (rt s1) |} in
  let r := refs s2 in
  let head := if ltb (playHeadRef r) now then now else playHeadRef r in
  let s3 := with_refs s2
              {| audioContextRef := audioContextRef r;
                 playHeadRef := head + duration b;
                 sourceNodesRef := sourceNodesRef r ++ [src];
                 sourceEndPromisesRef := sourceEndPromisesRef r ++ [src];
                 ttsActiveRef := ttsActiveRef r |} in
  observe (Started src head b) s3.

(** ** [stopPlaybackImmediately] (lines 123-140) *)

Definition stopPlaybackImmediately (s : State) : State :=
  let r := refs s in
  let s1 := fold_left (fun acc node => observe (Halted node) acc)
                      (sourceNodesRef r) s in
  with_refs s1 {| audioContextRef := false;
                  playHeadRef := 0;
                  sourceNodesRef := [];
                  sourceEndPromisesRef := [];
                  ttsActiveRef := ttsActiveRef r |}.

(** ** [processBinaryChunk] (lines 142-161)

    [createBuffer] throws on a length of zero; the handler is then left
    before anything is scheduled. *)

Definition decode_sample (y : Z) : Q := inject_Z y / 32768.

Definition processBinaryChunk (int16 : list Z) (now0 now1 : Q) (s : State)
  : State :=
  let float32 := map decode_sample int16 in
  let s1 := getAudioContext now0 s in
  match float32 with
  | [] => s1
  | _ :: _ =>
      scheduleBuffer now1
        {| channelData := float32; bufferSampleRate := 16000 |} s1
  end.

(** ** The end of the speaking phase (lines 226-228 and 231-233) *)

Definition go_idle (awaited : list nat) (s : State) : State :=
  observe (Idle awaited)
    (setCallPhase listening (setIsSpeaking false (set_ttsActive false s))).

(** ** Promise reactions

    A reaction of [Promise.all(pending).then(...)] runs in a microtask
    once every promise of [pending] is resolved. *)

Definition is_settled (s : State) (k : nat) : bool :=
  existsb (Nat.eqb k) (settled (rt s)).

Definition ready (s : State) (awaited : list nat) : bool :=
  forallb (is_settled s) awaited.

Definition run_microtasks (s : State) : State :=
  let due := filter (ready s) (reactions (rt s)) in
  let rest := filter (fun a => negb (ready s a)) (reactions (rt s)) in
  let s1 := with_rt s {| created := created (rt s);
                         settled := settled (rt s);
                         reactions := rest;
                         trace := trace (rt s) |} in
  fold_left (fun acc awaited => go_idle awaited acc) due s1.

Definition then_all (pending : list nat) (s : State) : State :=
  with_rt s {| created := created (rt s); settled := settled (rt s);
               reactions := reactions (rt s) ++ [pending];
               trace := trace (rt s) |}.

(** ** Events and their handlers *)

Inductive Event :=
| Activate                                   (* effect body, lines 167-169 *)
| WsOpen                                     (* ws.onopen *)
| WsBinary (int16 : list Z) (now0 now1 : Q)  (* ws.onmessage, ArrayBuffer *)
| WsControl (m : option ControlType)         (* ws.onmessage, text; None: not JSON *)
| WsError
| WsClose
| MicSpeechStart                             (* onSpeechStart callback *)
| MicSpeechEnd                               (* onSpeechEnd callback *)
| SourceEnded (node : nat)                   (* src.onended *)
| EndCall.                                   (* handleEndCall and cleanup *)

Definition on_control (m : ControlType) (s : State) : State :=
  let s1 :=
    match m with
    | tts_start =>
        setCallPhase speaking (setIsSpeaking true (set_ttsActive true s))
    | _ => s
    end in
  match m with
  | tts_end =>
      let pendingPromises := sourceEndPromisesRef (refs s1) in
      if (0 <? length pendingPromises)%nat
      then then_all pendingPromises s1
      else go_idle pendingPromises s1
  | _ => s1
  end.

Definition on_vad_edge (s : State) : State :=
  if negb (ttsActiveRef (refs s)) then setCallPhase listening s else s.

(** [src.onended] fires once per created node. *)
Definition on_ended (node : nat) (s : State) : State :=
  if (node <? created (rt s))%nat && negb (is_settled s node) then
    let r := refs s in
    let s1 := with_refs s
                {| audioContextRef := audioContextRef r;
                   playHeadRef := playHeadRef r;
                   sourceNodesRef :=
                     filter (fun n => negb (n =? node)%nat) (sourceNodesRef r);
                   sourceEndPromisesRef := sourceEndPromisesRef r;
                   ttsActiveRef := ttsActiveRef r |} in
    let s2 := with_rt s1 {| created := created (rt s1);
                            settled := node :: settled (rt s1);
                            reactions := reactions (rt s1);
                            trace := trace (rt s1) |} in
    observe (Completed node) s2
  else s.

Definition handler (e : Event) (s : State) : State :=
  match e with
  | Activate =>
      setCallPhase connecting (setIsSpeaking false (setIsWsConnected false s))
  | WsOpen =>
      set_ttsActive false (setCallPhase listening (setIsWsConnected true s))
  | WsBinary int16 now0 now1 =>
      processBinaryChunk int16 now0 now1
        (setCallPhase speaking (setIsSpeaking true (set_ttsActive true s)))
  | WsControl (Some m) => on_control m s
  | WsControl None => s
  | WsError => setCallPhase connecting (setIsWsConnected false s)
  | WsClose =>
      setCallPhase connecting (setIsSpeaking false (setIsWsConnected false s))
  | MicSpeechStart => on_vad_edge s
  | MicSpeechEnd => on_vad_edge s
  | SourceEnded node => on_ended node s
  | EndCall =>
      setCallPhase connecting
        (setIsSpeaking false
           (setIsWsConnected false
              (set_ttsActive false (stopPlaybackImmediately s))))
  end.

(** One task of the event loop: the handler, then the microtasks. *)
Definition step (s : State) (e : Event) : State :=
  run_microtasks (handler e s).

Definition run (s : State) (es : list Event) : State :=
  fold_left step es s.

(** ** Reading a trace *)

(** The scheduled intervals [(start, end)], in scheduling order. *)
Fixpoint intervals (tr : list Obs) : list (Q * Q) :=
  match tr with
  | [] => []
  | Started _ t b :: tr' => (t, t + duration b) :: intervals tr'
  | _ :: tr' => intervals tr'
  end.

(** Each interval ends no later than the next one starts. *)
Fixpoint disjoint_from (e : Q) (l : list (Q * Q)) : Prop :=
  match l with
  | [] => True
  | (a, b) :: l' => e <= a /\ disjoint_from b l'
  end.

Definition non_overlapping (l : list (Q * Q)) : Prop :=
  match l with
  | [] => True
  | (_, b) :: l' => disjoint_from b l'
  end.

(** From the first start to the last end. *)
Definition span (l : list (Q * Q)) : Q :=
  match l with
  | [] => 0
  | (a, b) :: l' => snd (last l' (a, b)) - a
  end.

Fixpoint total (l : list (Q * Q)) : Q :=
  match l with
  | [] => 0
  | (a, b) :: l' => (b - a) + total l'
  end.

(** What the timeline is made of: the context, the play head, and the
    intervals scheduled so far. *)
Definition view (s : State) : bool * Q * list (Q * Q) :=
  (audioContextRef (refs s), playHeadRef (refs s), intervals (trace (rt s))).

(** The intervals are in order and disjoint, they end at or before the
    play head, and their durations add up to no more than their span. *)
Definition timeline (v : bool * Q * list (Q * Q)) : Prop :=
  let '(ctx, head, l) := v in
  (ctx = false -> l = [])
  /\ non_overlapping l
  /\ (forall x, In x l -> snd x <= head)
  /\ total l <= span l.

(** Every [Idle] comes after the completion of all it awaited. *)
Definition idle_after_completions (tr : list Obs) : Prop :=
  forall before awaited after,
    tr = before ++ Idle awaited :: after ->
    forall k, In k awaited -> In (Completed k) before.

(** Properties of the states a session can reach. *)

(** A resolved end promise was resolved by an observed completion. *)
Definition settled_are_completed (s : State) : Prop :=
  forall k, In k (settled (rt s)) -> In (Completed k) (trace (rt s)).

(** The trace is in order and accounts for every resolved promise. *)
Definition traced (s : State) : Prop :=
  idle_after_completions (trace (rt s)) /\ settled_are_completed s.

(** Between two tasks no reaction is waiting that could already run. *)
Definition no_reaction_ready (s : State) : Prop :=
  forall a, In a (reactions (rt s)) -> ready s a = false.

(** The phase shown is [speaking] only while the TTS flag is set. *)
Definition speaking_means_tts (s : State) : Prop :=
  callPhase (ui s) = speaking -> ttsActiveRef (refs s) = true.

(** Every node still in flight has its end promise in the list that
    [tts_end] copies. *)
Definition in_flight_are_awaited (s : State) : Prop :=
  incl (sourceNodesRef (refs s)) (sourceEndPromisesRef (refs s))
  /\ (audioContextRef (refs s) = false -> sourceNodesRef (refs s) = []).

(** The three assignments of [go_idle] have taken effect. *)
Definition is_idle (s : State) : Prop :=
  ttsActiveRef (refs s) = false
  /\ isSpeaking (ui s) = false
  /\ callPhase (ui s) = listening.

(** Source nodes are named below [created]; a node in flight has not
    ended, and a completion seen in the trace has resolved its promise. *)
Definition nodes_accounted (s : State) : Prop :=
  (forall k, In k (sourceEndPromisesRef (refs s)) -> (k < created (rt s))%nat)
  /\ (forall k, In k (sourceNodesRef (refs s)) ->
        (k < created (rt s))%nat /\ ~ In k (settled (rt s)))
  /\ (forall k, In k (settled (rt s)) -> (k < created (rt s))%nat)
  /\ (forall k, In (Completed k) (trace (rt s)) -> In k (settled (rt s))).

(** No node is halted after it has completed. *)
Definition halts_only_unfinished (tr : list Obs) : Prop :=
  forall before k after,
    tr = before ++ Halted k :: after -> ~ In (Completed k) before.

(** Classes of events. *)
Definition ends_call (e : Event) : bool :=
  match e with EndCall => true | _ => false end.

Definition is_vad_edge (e : Event) : bool :=
  match e with MicSpeechStart | MicSpeechEnd => true | _ => false end.


End Page.

(* ===================================================================== *)
(** * The specification's own wording, for comparison with the code *)
(* ===================================================================== *)

Module Spec.

(** Bytes of an [Int16Array] of that many samples. *)
Definition byteLength (frame : list Z) : nat := 2 * length frame.

(** [clamp(x, lo, hi)]. *)
Definition clamp (x lo hi : Q) : Q :=
  if Qlt_le_dec x lo then lo else if Qlt_le_dec hi x then hi else x.

(** "negative values scaled by 32768, non-negative by 32767, clamped to
    [-1,1] before scaling", truncated to an integer. *)
Definition encoder (x : Q) : Z :=
  let s := clamp x (-1) 1 in
  if Qlt_le_dec s 0 then Js.trunc (s * 32768) else Js.trunc (s * 32767).

(** "floor(N * R_t / R_s)" and "input[floor(i * R_s / R_t)]". *)
Definition resampled_length (n : nat) (r_s r_t : Q) : Z :=
  Qfloor (inject_Z (Z.of_nat n) * r_t / r_s).
Definition resampled_index (i : nat) (r_s r_t : Q) : Z :=
  Qfloor (inject_Z (Z.of_nat i) * r_s / r_t).

(** "max(static floor, noise_floor_estimate * 3.0)". *)
Definition effective_threshold (floor estimate : Q) : Q :=
  Qmax floor (estimate * 3).

End Spec.

(* ===================================================================== *)
(** * Reading a microphone session *)
(* ===================================================================== *)

Module Vad.
Import Js AudioUtils.

Section WithSqrt.

Variable Math_sqrt : Q -> Q.
Variable c : Session.

(** The RMS a tick computes, and the threshold it compares it with. *)
Definition rms_at (t : Tick) : Q :=
  rms_of Math_sqrt (downsample (sampleRate c) (input t)).

Definition threshold_at (s : MicState) (t : Tick) : Q :=
  let cal := calibrate c s t (rms_at t) in
  threshold_of c (fst cal) (snd cal).

(** [rms >= threshold] at this tick. *)
Definition meets (s : MicState) (t : Tick) : bool :=
  geb (rms_at t) (threshold_at s t).

(** The time of the last tick at or above the threshold, this one
    included. *)
Definition last_above (s : MicState) (t : Tick) : Q :=
  if meets s t then clock_now t else lastSpeechTs s.

(** [now - last_above >= silenceMs] at this tick. *)
Definition silence_due (s : MicState) (t : Tick) : bool :=
  geb (clock_now t - last_above s t) (silenceMs_of (options c)).

(** [P] holds at every tick of [ts], each taken in the state the previous
    ticks left. *)
Fixpoint holds_along (P : MicState -> Tick -> bool) (s : MicState)
  (ts : list Tick) : bool :=
  match ts with
  | [] => true
  | t :: ts' =>
      P s t && holds_along P (fst (onaudioprocess Math_sqrt c s t)) ts'
  end.

(** A tick that feeds the noise estimate: it passes the guard, within the
    first 500 ms of the stream. *)
Definition calibrates (t : Tick) : bool :=
  is_open (readyState t)
  && ltb (clock_elapsed t - streamStartTime c) calibrationMs.

(** The RMS values a run of ticks adds to the noise estimate. *)
Definition noise_samples (ts : list Tick) : list Q :=
  map rms_at (filter calibrates ts).

(** The time of the last tick of [ts] at or above the threshold, [base]
    when there is none; each tick is taken in the state the previous ticks
    left. *)
Fixpoint last_above_threshold (base : Q) (s : MicState) (ts : list Tick)
  : Q :=
  match ts with
  | [] => base
  | t :: ts' =>
      last_above_threshold (if meets s t then clock_now t else base)
        (fst (onaudioprocess Math_sqrt c s t)) ts'
  end.

(** At no tick of [ts] has the time since the last tick at or above the
    threshold reached [silenceMs]. *)
Fixpoint never_due (base : Q) (s : MicState) (ts : list Tick) : bool :=
  match ts with
  | [] => true
  | t :: ts' =>
      let base' := if meets s t then clock_now t else base in
      ltb (clock_now t - base') (silenceMs_of (options c))
      && never_due base' (fst (onaudioprocess Math_sqrt c s t)) ts'
  end.

End WithSqrt.

(** The sum of a list of numbers. *)
Definition sum_of (l : list Q) : Q := fold_right Qplus 0 l.

(** The running mean of the calibration window; zero before any sample. *)
Definition noise_floor_estimate (nSum : Q) (nCount : nat) : Q :=
  if (nCount =? 0)%nat then 0 else nSum / inject_Z (Z.of_nat nCount).

(** The edge that leaves the detector in state [speaking]. *)
Definition edge_into (speaking : bool) : Edge :=
  if speaking then speech_start else speech_end.

End Vad.

(* ===================================================================== *)
(** * Concrete sessions *)
(* ===================================================================== *)

Module Scenario.
Import Js AudioUtils.

(** [startStreamingMic(ws, onAudioLevel, {})] with both callbacks of
    page.tsx, on a 48 kHz context started at time 0. *)
Definition defaults : StreamingMicOptions :=
  {| energyThreshold := None; silenceMs := None;
     onSpeechStart := true; onSpeechEnd := true |}.

Definition session : Session :=
  {| options := defaults; onAudioLevel := true;
     sampleRate := 48000; streamStartTime := 0 |}.

(** A tick at clock [ms] whose buffer holds [n] samples of value [x]. *)
Definition tick_of (r : ReadyState) (n : nat) (x : Q) (ms : Q) : Tick :=
  {| readyState := r; input := repeat x n;
     clock_elapsed := ms; clock_now := ms |}.

(** Ambient noise of RMS 0.002 inside the calibration window, then speech
    of RMS 0.015 after it, then silence. *)
Definition noise_10 : Tick := tick_of OPEN 12 (1 # 500) 10.
Definition speech_600 : Tick := tick_of OPEN 12 (3 # 200) 600.
Definition silence_900 : Tick := tick_of OPEN 12 0 900.
Definition silence_1200 : Tick := tick_of OPEN 12 0 1200.

(** A session on samples that are binary32 values.  Noise of RMS 1/256
    inside the calibration window puts the threshold at 3/256, above the
    floor 0.01; a tick of RMS 11/1024 lies between the two, a tick of RMS
    3/256 meets the threshold exactly; loud speech at 900 ms, then
    silence. *)
Definition hum_10 : Tick := tick_of OPEN 12 (1 # 256) 10.
Definition murmur_600 : Tick := tick_of OPEN 12 (11 # 1024) 600.
Definition onset_700 : Tick := tick_of OPEN 12 (3 # 256) 700.
Definition loud_900 : Tick := tick_of OPEN 12 (1 # 8) 900.
Definition silence_1400 : Tick := tick_of OPEN 12 0 1400.
Definition silence_1500 : Tick := tick_of OPEN 12 0 1500.

(** The detector after the hum, the murmur and the onset. *)
Definition voiced : MicState :=
  fst (run sqrt_exact session initial
         [Process hum_10; Process murmur_600; Process onset_700]).

(** A buffer of [n] distinct samples [0, 1/128, 2/128, ...]. *)
Definition ramp (n : nat) : list Q :=
  map (fun i => Z.of_nat i # 128) (seq 0 n).

(** The detector after the noise and the speech tick. *)
Definition talking : MicState :=
  fst (run sqrt_exact session initial [Process noise_10; Process speech_600]).

End Scenario.

Module CallScenario.
Import Page.

(** One utterance of two chunks, the second arriving before the first has
    played out; then [tts_end], microphone edges while the audio drains,
    and the two completions. *)
Definition chunk : list Z := [16384; -16384; 0; 8192]%Z.

Definition utterance : list Event :=
  [WsOpen; WsControl (Some tts_start);
   WsBinary chunk 0 0; WsBinary chunk (1 # 10000) (1 # 10000)].

Definition draining : list Event :=
  utterance ++ [WsControl (Some tts_end); MicSpeechStart; SourceEnded 0].

Definition drained : list Event :=
  draining ++ [MicSpeechEnd; SourceEnded 1].

(** Two utterances in a row, the second arriving while the buffer of the
    first is still playing: each ends with its own [tts_end]. *)
Definition overlapping : list Event :=
  [WsOpen;
   WsControl (Some tts_start); WsBinary chunk 0 0; WsControl (Some tts_end);
   WsControl (Some tts_start); WsBinary chunk (1 # 10000) (1 # 10000);
   WsControl (Some tts_end)].

End CallScenario.

(* ===================================================================== *)
(** * Reading the effects of the microphone *)
(* ===================================================================== *)

Module Effects.
Import AudioUtils.

Definition is_start_call (e : Effect) : bool :=
  match e with CallOnSpeechStart => true | _ => false end.

Definition is_end_call (e : Effect) : bool :=
  match e with CallOnSpeechEnd => true | _ => false end.

Definition is_release (e : Effect) : bool :=
  match e with ReleaseDevice => true | _ => false end.

(** The levels handed to [onAudioLevel], in order. *)
Fixpoint levels_of (out : list Effect) : list Q :=
  match out with
  | [] => []
  | CallOnAudioLevel l :: out' => l :: levels_of out'
  | _ :: out' => levels_of out'
  end.

(** How often an edge was sent and how often a callback ran. *)
Definition sent (k : Edge) (out : list Effect) : nat :=
  length (filter (fun e => match e, k with
                           | speech_start, speech_start => true
                           | speech_end, speech_end => true
                           | _, _ => false
                           end) (edges_of out)).

Definition called (p : Effect -> bool) (out : list Effect) : nat :=
  length (filter p out).

(** How often [stop] was called. *)
Definition stops (es : list Call) : nat :=
  length (filter (fun e => match e with Stop _ => true | _ => false end) es).

End Effects.

(* ===================================================================== *)
(** * audioUtils.ts: level metering and single-utterance recording *)
(* ===================================================================== *)

Module Analyser.
Import Js.

(** An element of a [Uint8Array] as a number. *)
Definition u8 (b : byte) : Q := inject_Z (Z.of_N (Byte.to_N b)).

(** ** [getAudioLevel] (lines 111-119)

    [None] is the null analyser; the list is [dataArray] after
    [getByteFrequencyData] has filled it.  [frequencyBinCount] is at least
    16, so the array is never empty. *)
Definition getAudioLevel (analyser : option (list byte)) : Q :=
  match analyser with
  | None => 0
  | Some dataArray =>
      let average :=
        fold_left (fun a b => a + u8 b) dataArray 0
        / inject_Z (Z.of_nat (length dataArray)) in
      Math_min (average / 128) 1
  end.

(** The bytes of the array added up as integers, and their mean. *)
Definition byte_total (data : list byte) : Z :=
  fold_right (fun b acc => (Z.of_N (Byte.to_N b) + acc)%Z) 0%Z data.

Definition byte_mean (data : list byte) : Q :=
  inject_Z (byte_total data) / inject_Z (Z.of_nat (length data)).

End Analyser.

Module Utterance.
Import Js Analyser.

(** [VADOptions]; the callback is represented by its presence. *)
Record VADOptions := {
  maxDurationMs : option Q;
  energyThreshold : option Q;
  silenceAfterSpeechMs : option Q;
  noInputTimeoutMs : option Q;
  onAudioLevel : bool
}.

(** The destructuring defaults of [recordUtteranceWithVAD]. *)
Definition maxDurationMs_of (o : VADOptions) : Q :=
  match maxDurationMs o with Some x => x | None => 30000 end.
Definition energyThreshold_of (o : VADOptions) : Q :=
  match energyThreshold o with Some x => x | None => 1 # 100 end.
Definition silenceAfterSpeechMs_of (o : VADOptions) : Q :=
  match silenceAfterSpeechMs o with Some x => x | None => 600 end.
Definition noInputTimeoutMs_of (o : VADOptions) : Q :=
  match noInputTimeoutMs o with Some x => x | None => 5000 end.

(** What the closure captures and never changes. *)
Record Recording := {
  options : VADOptions;
  startTime : Q            (* performance.now() before the first tick *)
}.

(** The [let] variables of lines 175-179. *)
Record VadState := {
  speechStarted : bool;
  lastSpeechTime : option Q;     (* None is null *)
  noiseSum : Q;
  noiseCount : nat
}.

Definition initial : VadState :=
  {| speechStarted := false; lastSpeechTime := None;
     noiseSum := 0; noiseCount := 0 |}.

(** One animation frame: the clock and the analyser's time-domain data. *)
Record Frame := {
  now : Q;
  timeDomain : list byte
}.

(** How a tick ends: [requestAnimationFrame(tick)], [finishNoSpeech()]
    (the promise resolves with null), or [finishWithBlob()]. *)
Inductive Outcome := Continue | ResolveNull | ResolveBlob.

Section WithSqrt.

Variable Math_sqrt : Q -> Q.

(** RMS of the frame (lines 221-227). *)
Definition sumSquares_of (dataArray : list byte) : Q :=
  fold_left (fun acc b => let v := (u8 b - 128) / 128 in acc + v * v)
            dataArray 0.

Definition rms_of (dataArray : list byte) : Q :=
  Math_sqrt (sumSquares_of dataArray
             / inject_Z (Z.of_nat (length dataArray))).

(** The threshold of lines 240-244, from the accumulators after this
    frame's calibration step. *)
Definition threshold_of (r : Recording) (started : bool)
  (nSum : Q) (nCount : nat) : Q :=
  if negb started && (0 <? nCount)%nat
  then
    let estNoise := nSum / inject_Z (Z.of_nat nCount) in
    Math_max (energyThreshold_of (options r)) (estNoise * 3)
  else energyThreshold_of (options r).

(** ** [tick] (lines 217-274): the new state, how the tick ends, and the
    levels handed to [onAudioLevel]. *)
Definition tick (r : Recording) (s : VadState) (f : Frame)
  : VadState * Outcome * list Q :=
  let elapsed := now f - startTime r in
  let rms := rms_of (timeDomain f) in
  let levels :=
    if onAudioLevel (options r) then [Math_min (rms * 8) 1] else [] in
  let '(nSum, nCount) :=
    if negb (speechStarted s) && ltb elapsed 500
    then (noiseSum s + rms, S (noiseCount s))
    else (noiseSum s, noiseCount s) in
  let threshold := threshold_of r (speechStarted s) nSum nCount in
  let '(started, last) :=
    if geb rms threshold then (true, Some (now f))
    else (speechStarted s, lastSpeechTime s) in
  let state l :=
    {| speechStarted := started; lastSpeechTime := l;
       noiseSum := nSum; noiseCount := nCount |} in
  if negb started && geb elapsed (noInputTimeoutMs_of (options r))
  then (state last, ResolveNull, levels)
  else if started then
    let last' := if geb rms threshold then Some (now f) else last in
    let silenceElapsed :=
      now f - (match last' with Some l => l | None => now f end) in
    if geb silenceElapsed (silenceAfterSpeechMs_of (options r))
    then (state last', ResolveBlob, levels)
    else if geb elapsed (maxDurationMs_of (options r))
    then (state last', ResolveBlob, levels)
    else (state last', Continue, levels)
  else (state last, Continue, levels).

(** The frames of one recording, up to the tick that resolves it. *)
Fixpoint record (r : Recording) (s : VadState) (fs : list Frame)
  : VadState * Outcome :=
  match fs with
  | [] => (s, Continue)
  | f :: fs' =>
      let '(s', o, _) := tick r s f in
      match o with
      | Continue => record r s' fs'
      | _ => (s', o)
      end
  end.

(** The quantities a tick compares. *)
Definition rms_at (f : Frame) : Q := rms_of (timeDomain f).

Definition threshold_at (r : Recording) (s : VadState) (f : Frame) : Q :=
  let elapsed := now f - startTime r in
  if negb (speechStarted s) && ltb elapsed 500
  then threshold_of r (speechStarted s)
         (noiseSum s + rms_at f) (S (noiseCount s))
  else threshold_of r (speechStarted s) (noiseSum s) (noiseCount s).

End WithSqrt.

(** [speechStarted] and a non-null [lastSpeechTime] go together. *)
Definition consistent (s : VadState) : Prop :=
  speechStarted s = true <-> lastSpeechTime s <> None.

End Utterance.

Module UtteranceScenario.
Import Js Utterance.

(** Default options with a level callback, started at time 0. *)
Definition recording : Recording :=
  {| options := {| maxDurationMs := None; energyThreshold := None;
                   silenceAfterSpeechMs := None; noInputTimeoutMs := None;
                   onAudioLevel := true |};
     startTime := 0 |}.

(** A frame of digital silence (every byte 128) and a frame of a loud
    signal (every byte 192, that is 0.5). *)
Definition quiet_frame (ms : Q) : Frame :=
  {| now := ms; timeDomain := repeat x80 8 |}.
Definition loud_frame (ms : Q) : Frame :=
  {| now := ms; timeDomain := repeat xc0 8 |}.

(** The state once speech has been heard at 1000 ms. *)
Definition heard : VadState :=
  fst (record sqrt_exact recording initial
         [quiet_frame 0; quiet_frame 600; loud_frame 1000]).

End UtteranceScenario.

(* ===================================================================== *)
(** * page.tsx: purchase flow and countdown *)
(* ===================================================================== *)

Module Flow.
Import String.
Import Js.

Inductive FlowState := idle | auth | payment | active.

(** [TIME_OPTIONS]: minutes, price, label. *)
Definition TIME_OPTIONS : list (Q * Z * string) :=
  [ (1 # 2, 49%Z, "30 sec"%string);
    (15, 299%Z, "15 min"%string);
    (20, 399%Z, "20 min"%string);
    (30, 599%Z, "30 min"%string);
    (60, 999%Z, "60 min"%string) ].

(** The second entry, by its parts. *)
Definition quarter_hour : Q * Z * string := (15, 299%Z, "15 min"%string).

(** The [useState] cells of the flow, and the call they drive. *)
Record App := {
  flowState : FlowState;
  selectedMinutes : option Q;      (* None is null *)
  timeLeft : Q;
  call : Page.State
}.

Definition initial : App :=
  {| flowState := idle; selectedMinutes := None; timeLeft := 0;
     call := Page.initial |}.

Definition is_active (a : App) : bool :=
  match flowState a with active => true | _ => false end.

Definition setFlowState (f : FlowState) (a : App) : App :=
  {| flowState := f; selectedMinutes := selectedMinutes a;
     timeLeft := timeLeft a; call := call a |}.
Definition setSelectedMinutes (m : option Q) (a : App) : App :=
  {| flowState := flowState a; selectedMinutes := m;
     timeLeft := timeLeft a; call := call a |}.
Definition setTimeLeft (t : Q) (a : App) : App :=
  {| flowState := flowState a; selectedMinutes := selectedMinutes a;
     timeLeft := t; call := call a |}.
Definition with_call (c : Page.State) (a : App) : App :=
  {| flowState := flowState a; selectedMinutes := selectedMinutes a;
     timeLeft := timeLeft a; call := c |}.

(** Lines 268-269. *)
Definition handleStartTalking (a : App) : App := setFlowState auth a.
Definition handleSelectTime (minutes : Q) (a : App) : App :=
  setSelectedMinutes (Some minutes) a.

(** Lines 271-275; [!selectedMinutes] holds for null and for 0. *)
Definition handlePayAndStart (a : App) : App :=
  match selectedMinutes a with
  | None => a
  | Some m =>
      if Qeq_bool m 0 then a
      else setFlowState active (setTimeLeft (m * 60) a)
  end.

(** The audio effect (lines 164-169) runs when [flowState] has become
    [active]. *)
Definition payAndStart (a : App) : App :=
  let a' := handlePayAndStart a in
  if is_active a' && negb (is_active a)
  then with_call (Page.step (call a') Page.Activate) a'
  else a'.

(** [handleEndCall] (lines 277-301). *)
Definition handleEndCall (a : App) : App :=
  setSelectedMinutes None
    (setTimeLeft 0
       (setFlowState idle
          (with_call (Page.step (call a) Page.EndCall) a))).

(** The interval callback of the countdown (lines 304-321); the interval
    exists only while the flow is active and time is left. *)
Definition timer_tick (a : App) : App :=
  if is_active a && ltb 0 (timeLeft a) then
    if Qle_bool (timeLeft a) 1
    then setTimeLeft 0 (handleEndCall a)
    else setTimeLeft (timeLeft a - 1) a
  else a.

(** [a % b] on numbers. *)
Definition Math_rem (a b : Q) : Q := a - b * inject_Z (trunc (a / b)).

(** Lines 330-331. *)
Definition timerMinutes (a : App) : Z := Math_floor (timeLeft a / 60).
Definition timerSeconds (a : App) : Q := Math_rem (timeLeft a) 60.

(** A call whose playback has been torn down. *)
Definition torn_down (c : Page.State) : Prop :=
  Page.audioContextRef (Page.refs c) = false
  /\ Page.playHeadRef (Page.refs c) = 0
  /\ Page.ttsActiveRef (Page.refs c) = false.

(** A purchase of [minutes]: the option is selected, then paid. *)
Definition purchase (minutes : Q) (a : App) : App :=
  payAndStart (handleSelectTime minutes a).

End Flow.

(* ===================================================================== *)
(** * Framing: every binary message is one full frame *)
(* ===================================================================== *)

Import Js AudioUtils Spec Vad Scenario.

Unset Implicit Arguments.

Lemma firstn_plus {A : Type} (a b : nat) (l : list A) :
  firstn (a + b) l = firstn a l ++ firstn b (skipn a l).
Proof.
  revert l; induction a as [|a IH]; intros l; simpl; [reflexivity|].
  destruct l as [|x l]; simpl.
  - now rewrite firstn_nil.
  - now rewrite IH.
Qed.

Lemma slice_length {A : Type} (l : list A) (i j : nat) :
  length (slice l i j) = Nat.min (j - i) (length l - i).
Proof. unfold slice. now rewrite length_firstn, length_skipn. Qed.

(** The loop started at [i] sends the full frames of the rest of the
    buffer, and nothing else. *)
Lemma frame_loop_spec (pcm16 : list Z) (i : nat) :
  Forall (fun f => length f = FRAME_SIZE) (frame_loop pcm16 i)
  /\ length (frame_loop pcm16 i) = ((length pcm16 - i) / FRAME_SIZE)%nat
  /\ concat (frame_loop pcm16 i)
     = firstn (FRAME_SIZE * ((length pcm16 - i) / FRAME_SIZE)) (skipn i pcm16).
Proof.
  funelim (frame_loop pcm16 i); cbn zeta.
  - destruct H as (Hall & Hlen & Hcat).
    pose proof (slice_length pcm16 i (i + FRAME_SIZE)) as Hs.
    replace (i + FRAME_SIZE - i)%nat with FRAME_SIZE in Hs by lia.
    destruct (Nat.eqb_spec (length (slice pcm16 i (i + FRAME_SIZE))) FRAME_SIZE)
      as [Hfull | Hshort].
    + assert (Hge : (FRAME_SIZE <= length pcm16 - i)%nat) by lia.
      assert (Hq : ((length pcm16 - i) / FRAME_SIZE
                    = (length pcm16 - (i + FRAME_SIZE)) / FRAME_SIZE + 1)%nat).
      { replace (length pcm16 - i)%nat
          with ((length pcm16 - (i + FRAME_SIZE)) + 1 * FRAME_SIZE)%nat by lia.
        rewrite Nat.div_add by (unfold FRAME_SIZE; lia).
        reflexivity. }
      split; [constructor; assumption|].
      split; [cbn [length]; rewrite Hlen, Hq; lia|].
      cbn [concat]. rewrite Hcat, Hq.
      replace (FRAME_SIZE * ((length pcm16 - (i + FRAME_SIZE)) / FRAME_SIZE + 1))%nat
        with (FRAME_SIZE
              + FRAME_SIZE * ((length pcm16 - (i + FRAME_SIZE)) / FRAME_SIZE))%nat
        by lia.
      rewrite firstn_plus, skipn_skipn.
      unfold slice.
      replace (i + FRAME_SIZE - i)%nat with FRAME_SIZE by lia.
      replace (FRAME_SIZE + i)%nat with (i + FRAME_SIZE)%nat by lia.
      reflexivity.
    + assert (Hlt : (length pcm16 - i < FRAME_SIZE)%nat) by lia.
      rewrite (Nat.div_small _ _ Hlt).
      assert (Hlt' : (length pcm16 - (i + FRAME_SIZE) < FRAME_SIZE)%nat) by lia.
      rewrite (Nat.div_small _ _ Hlt') in Hlen, Hcat.
      split; [assumption|]. split; [assumption|].
      rewrite Hcat. now rewrite Nat.mul_0_r.
  - assert (Hz : (length pcm16 - i = 0)%nat) by lia.
    rewrite Hz. rewrite Nat.Div0.div_0_l.
    rewrite Nat.mul_0_r. repeat split; constructor.
Qed.

Lemma binaries_of_app (a b : list Effect) :
  binaries_of (a ++ b) = binaries_of a ++ binaries_of b.
Proof.
  induction a as [|e a IH]; simpl; [reflexivity|].
  destruct e as [[k|f]| | | |]; simpl; now rewrite ?IH.
Qed.

Lemma binaries_of_frames (l : list (list Z)) :
  binaries_of (map (fun f => WsSend (BinaryFrame f)) l) = l.
Proof. induction l as [|f l IH]; simpl; now rewrite ?IH. Qed.

Lemma edges_of_app (a b : list Effect) :
  edges_of (a ++ b) = edges_of a ++ edges_of b.
Proof.
  induction a as [|e a IH]; simpl; [reflexivity|].
  destruct (edge_of e); simpl; now rewrite IH.
Qed.

Lemma edges_of_frames (l : list (list Z)) :
  edges_of (map (fun f => WsSend (BinaryFrame f)) l) = [].
Proof. induction l as [|f l IH]; simpl; now rewrite ?IH. Qed.

Section MicFacts.

Variable Math_sqrt : Q -> Q.
Variable c : Session.

Local Abbreviation tick := (onaudioprocess Math_sqrt c).

(** The VAD sends no binary message. *)
Lemma vad_no_binary s rms th now :
  binaries_of (snd (vad c s rms th now)) = [].
Proof.
  unfold vad.
  destruct (geb rms th), (isSpeaking s); simpl;
    try destruct (geb _ _); simpl;
    try destruct (onSpeechStart _); try destruct (onSpeechEnd _);
    reflexivity.
Qed.

(** A tick behind the guard, spelled out. *)
Lemma tick_open s t :
  is_open (readyState t) = true ->
  let d := downsample (sampleRate c) (input t) in
  let rms := rms_of Math_sqrt d in
  let cal := calibrate c s t rms in
  let th := threshold_of c (fst cal) (snd cal) in
  let v := vad c s rms th (clock_now t) in
  tick s t =
    ({| framesSent := framesSent s + length (frames (encode d));
        isSpeaking := fst (fst v);
        lastSpeechTs := snd (fst v);
        noiseSum := fst cal;
        noiseCount := snd cal |},
     snd v
     ++ map (fun f => WsSend (BinaryFrame f)) (frames (encode d))
     ++ (if onAudioLevel c
         then [CallOnAudioLevel (Math_min (rms * 8) 1)] else [])).
Proof.
  intros Hopen; cbv zeta. unfold onaudioprocess. rewrite Hopen; simpl negb; cbv iota.
  destruct (calibrate _ _ _ _) as [nSum nCount]; simpl fst; simpl snd.
  destruct (vad _ _ _ _ _) as [[sp ts] ed]. reflexivity.
Qed.

Lemma tick_not_open s t :
  is_open (readyState t) = false -> tick s t = (s, []).
Proof. intros H; unfold onaudioprocess; now rewrite H. Qed.

(** The binary messages of a tick are the frames of its encoded buffer. *)
Lemma tick_binaries s t :
  binaries_of (snd (tick s t))
  = if is_open (readyState t)
    then frames (encode (downsample (sampleRate c) (input t)))
    else [].
Proof.
  destruct (is_open (readyState t)) eqn:Hopen.
  - rewrite (tick_open s t Hopen); cbv zeta; cbn [snd].
    rewrite !binaries_of_app, vad_no_binary, binaries_of_frames.
    destruct (onAudioLevel c); simpl; now rewrite app_nil_r.
  - now rewrite (tick_not_open s t Hopen).
Qed.

Lemma stop_binaries s r : binaries_of (snd (stop c s r)) = [].
Proof.
  unfold stop; cbn [snd]. rewrite binaries_of_app.
  destruct (isSpeaking s && is_open r); simpl;
    try destruct (onSpeechEnd _); reflexivity.
Qed.

Lemma run_cons s e es :
  run Math_sqrt c s (e :: es)
  = (fst (run Math_sqrt c (fst (call Math_sqrt c s e)) es),
     snd (call Math_sqrt c s e)
     ++ snd (run Math_sqrt c (fst (call Math_sqrt c s e)) es)).
Proof.
  cbn [run]. destruct (call _ _ _ _) as [s1 o1]; cbn [fst snd].
  destruct (run _ _ _ _) as [s2 o2]; reflexivity.
Qed.

Lemma run_app s es1 es2 :
  run Math_sqrt c s (es1 ++ es2)
  = (fst (run Math_sqrt c (fst (run Math_sqrt c s es1)) es2),
     snd (run Math_sqrt c s es1)
     ++ snd (run Math_sqrt c (fst (run Math_sqrt c s es1)) es2)).
Proof.
  revert s; induction es1 as [|e es1 IH]; intros s.
  - cbn [app run fst snd]. now destruct (run _ _ _ _).
  - rewrite <- app_comm_cons, !run_cons, IH; cbn [fst snd].
    now rewrite app_assoc.
Qed.

Lemma run_binaries_full s es :
  Forall (fun f => length f = FRAME_SIZE) (binaries_of (snd (run Math_sqrt c s es))).
Proof.
  revert s; induction es as [|e es IH]; intros s.
  - constructor.
  - rewrite run_cons; cbn [snd]. rewrite binaries_of_app.
    apply Forall_app; split; [|apply IH].
    destruct e as [t|r]; cbn [call].
    + rewrite tick_binaries. destruct (is_open _); [|constructor].
      apply frame_loop_spec.
    + rewrite stop_binaries; constructor.
Qed.

(** C1.  Every binary message a tick dispatches is one frame of exactly
    320 samples, 640 bytes; together the messages of a tick are the
    encoded buffer cut back to a multiple of 320 samples, in order and
    unchanged, so that a shorter remainder is neither sent nor padded; a
    tick's messages do not depend on the state left by earlier ticks, so
    nothing is carried over; and the same length holds for every message
    of a whole session. *)
Theorem frames_are_full_and_remainder_dropped (s : MicState) (t : Tick) :
  let pcm16 := encode (downsample (sampleRate c) (input t)) in
  let sent := binaries_of (snd (tick s t)) in
  Forall (fun f => length f = 320%nat /\ byteLength f = 640%nat) sent
  /\ concat sent
     = (if is_open (readyState t)
        then firstn (320 * (length pcm16 / 320)) pcm16 else [])
  /\ length sent
     = (if is_open (readyState t) then length pcm16 / 320 else 0)%nat
  /\ (forall s' : MicState, binaries_of (snd (tick s' t)) = sent)
  /\ (forall (s0 : MicState) (es : list Call),
        Forall (fun f => length f = 320%nat)
               (binaries_of (snd (run Math_sqrt c s0 es)))).
Proof.
  cbv zeta.
  pose proof (frame_loop_spec
                (encode (downsample (sampleRate c) (input t))) 0)
    as (Hall & Hlen & Hcat).
  rewrite Nat.sub_0_r in Hlen, Hcat. cbn [skipn] in Hcat.
  change FRAME_SIZE with 320%nat in *.
  rewrite tick_binaries.
  split; [|split; [|split; [|split]]].
  - destruct (is_open _); [|constructor].
    unfold frames. eapply Forall_impl; [|exact Hall].
    intros f Hf; unfold byteLength; cbv beta in Hf; rewrite Hf.
    split; reflexivity.
  - destruct (is_open _); [exact Hcat | reflexivity].
  - destruct (is_open _); [exact Hlen | reflexivity].
  - intros s'. now rewrite tick_binaries.
  - intros s0 es. apply run_binaries_full.
Qed.

End MicFacts.


(* ===================================================================== *)
(** * Encoder: clamping, asymmetric scaling, truncation *)
(* ===================================================================== *)

Lemma ltb_true (a b : Q) : ltb a b = true <-> a < b.
Proof.
  unfold ltb. rewrite negb_true_iff. split.
  - intros H. apply Qnot_le_lt. intros Hle.
    apply Qle_bool_iff in Hle. congruence.
  - intros H. destruct (Qle_bool b a) eqn:E; [|reflexivity].
    apply Qle_bool_iff in E. exfalso. exact (Qlt_not_le _ _ H E).
Qed.

Lemma ltb_false (a b : Q) : ltb a b = false <-> b <= a.
Proof.
  unfold ltb. rewrite negb_false_iff. apply Qle_bool_iff.
Qed.

Lemma geb_true (a b : Q) : geb a b = true <-> b <= a.
Proof. apply Qle_bool_iff. Qed.

Lemma geb_false (a b : Q) : geb a b = false <-> a < b.
Proof.
  unfold geb. split.
  - intros H. apply Qnot_le_lt. intros Hle.
    apply Qle_bool_iff in Hle. congruence.
  - intros H. destruct (Qle_bool b a) eqn:E; [|reflexivity].
    apply Qle_bool_iff in E. exfalso. exact (Qlt_not_le _ _ H E).
Qed.

(** Truncation is the floor of a non-negative number and the ceiling of a
    non-positive one. *)
Lemma trunc_nonneg (x : Q) : 0 <= x -> trunc x = Qfloor x.
Proof.
  destruct x as [n d]; unfold trunc, Qfloor, Qle; simpl.
  intros H. apply Z.quot_div_nonneg; lia.
Qed.

Lemma trunc_nonpos (x : Q) : x <= 0 -> trunc x = Qceiling x.
Proof.
  destruct x as [n d]; unfold trunc, Qceiling, Qfloor, Qle; simpl.
  intros H.
  replace n with (- - n)%Z at 1 by lia.
  rewrite Z.quot_opp_l by lia.
  f_equal. apply Z.quot_div_nonneg; lia.
Qed.

Lemma trunc_comp (x y : Q) : x == y -> trunc x = trunc y.
Proof.
  intros E. destruct (Qlt_le_dec x 0) as [Hneg | Hpos].
  - rewrite !trunc_nonpos by (rewrite <- ?E; apply Qlt_le_weak; assumption).
    unfold Qceiling. now rewrite E.
  - rewrite !trunc_nonneg by (rewrite <- ?E; assumption).
    now rewrite E.
Qed.

Lemma trunc_range (x : Q) (a b : Z) :
  (a <= 0 <= b)%Z -> inject_Z a <= x <= inject_Z b ->
  (a <= trunc x <= b)%Z.
Proof.
  intros [Ha Hb] [Hax Hxb]. destruct (Qlt_le_dec x 0) as [Hneg | Hpos].
  - rewrite trunc_nonpos by (apply Qlt_le_weak; assumption).
    split.
    + rewrite <- (Qceiling_Z a). now apply Qceiling_resp_le.
    + apply Z.le_trans with 0%Z; [|assumption].
      rewrite <- (Qceiling_Z 0). apply Qceiling_resp_le.
      now apply Qlt_le_weak.
  - rewrite trunc_nonneg by assumption.
    split.
    + apply Z.le_trans with 0%Z; [assumption|].
      rewrite <- (Qfloor_Z 0). now apply Qfloor_resp_le.
    + rewrite <- (Qfloor_Z b). now apply Qfloor_resp_le.
Qed.

(** In the 16-bit range [ToInt16] only truncates. *)
Lemma ToInt16_in_range (x : Q) :
  (-32768 <= trunc x <= 32767)%Z -> ToInt16 x = trunc x.
Proof.
  intros H. unfold ToInt16. cbv zeta.
  destruct (Z_lt_le_dec (trunc x) 0) as [Hn | Hp].
  - assert (E : (trunc x mod 65536 = trunc x + 65536)%Z).
    { symmetry. apply (Z.mod_unique _ _ (-1)); lia. }
    rewrite E. destruct (Z.leb_spec 32768 (trunc x + 65536)); lia.
  - rewrite Z.mod_small by lia.
    destruct (Z.leb_spec 32768 (trunc x)); lia.
Qed.

Lemma Math_clamp_range (x : Q) :
  -1 <= Math_max (-1) (Math_min 1 x) <= 1.
Proof.
  unfold Math_max, Math_min.
  destruct (Qle_bool 1 x) eqn:E1.
  - simpl. split; discriminate.
  - destruct (Qle_bool (-1) x) eqn:E2.
    + apply Qle_bool_iff in E2. split; [assumption|].
      apply Qlt_le_weak. apply Qnot_le_lt. intros H.
      apply Qle_bool_iff in H. congruence.
    + split; [apply Qle_refl | discriminate].
Qed.

Lemma Math_clamp_spec (x : Q) :
  Math_max (-1) (Math_min 1 x) == clamp x (-1) 1.
Proof.
  unfold Math_max, Math_min, clamp.
  destruct (Qlt_le_dec x (-1)) as [H1 | H1].
  - assert (E1 : Qle_bool 1 x = false).
    { destruct (Qle_bool 1 x) eqn:E; [|reflexivity].
      apply Qle_bool_iff in E. lra. }
    rewrite E1.
    assert (E2 : Qle_bool (-1) x = false).
    { destruct (Qle_bool (-1) x) eqn:E; [|reflexivity].
      apply Qle_bool_iff in E. lra. }
    rewrite E2. reflexivity.
  - destruct (Qlt_le_dec 1 x) as [H2 | H2].
    + assert (E1 : Qle_bool 1 x = true) by (apply Qle_bool_iff; lra).
      rewrite E1. reflexivity.
    + destruct (Qle_bool 1 x) eqn:E1.
      * apply Qle_bool_iff in E1. simpl. lra.
      * assert (E2 : Qle_bool (-1) x = true) by (apply Qle_bool_iff; lra).
        rewrite E2. reflexivity.
Qed.

(** The encoder is the clamp-then-scale function of the specification and
    stays inside the signed 16-bit range. *)
Lemma encode_sample_spec (x : Q) :
  encode_sample x = encoder x /\ (-32768 <= encode_sample x <= 32767)%Z.
Proof.
  unfold encode_sample, encoder. cbv zeta.
  pose proof (Math_clamp_range x) as [Hlo Hhi].
  pose proof (Math_clamp_spec x) as Hc.
  set (s := Math_max (-1) (Math_min 1 x)) in *.
  set (s' := clamp x (-1) 1) in *.
  destruct (ltb s 0) eqn:Hs.
  - apply ltb_true in Hs.
    assert (R : (-32768 <= trunc (s * 32768) <= 32767)%Z).
    { assert (R0 : (-32768 <= trunc (s * 32768) <= 0)%Z).
      { apply trunc_range; [lia|]. split; unfold inject_Z; lra. }
      lia. }
    rewrite (ToInt16_in_range _ R). split; [|exact R].
    destruct (Qlt_le_dec s' 0) as [Hs' | Hs']; [|lra].
    apply trunc_comp. now rewrite Hc.
  - apply ltb_false in Hs.
    assert (R : (-32768 <= trunc (s * 32767) <= 32767)%Z).
    { assert (R0 : (0 <= trunc (s * 32767) <= 32767)%Z).
      { apply trunc_range; [lia|]. split; unfold inject_Z; lra. }
      lia. }
    rewrite (ToInt16_in_range _ R). split; [|exact R].
    destruct (Qlt_le_dec s' 0) as [Hs' | Hs']; [lra|].
    apply trunc_comp. now rewrite Hc.
Qed.

(** C2.  The encoder clamps to [-1, 1] first, then multiplies a negative
    value by 32768 and a non-negative one by 32767 and truncates: it is the
    specification's function on every sample and on every buffer, the
    16-bit store never wraps, and no output is +32768. *)
Theorem encoder_clamps_then_scales (x : Q) :
  encode_sample x = Spec.encoder x
  /\ (-32768 <= encode_sample x <= 32767)%Z
  /\ encode_sample x <> 32768%Z
  /\ (forall buffer : list Q, encode buffer = map Spec.encoder buffer).
Proof.
  destruct (encode_sample_spec x) as [E R].
  split; [exact E|]. split; [exact R|]. split; [lia|].
  intros buffer. unfold encode. apply map_ext.
  intros y. apply encode_sample_spec.
Qed.

(* ===================================================================== *)
(** * Encode, then decode *)
(* ===================================================================== *)

Lemma trunc_error_nonneg (y : Q) :
  0 <= y -> y - 1 < inject_Z (trunc y) /\ inject_Z (trunc y) <= y.
Proof.
  intros H. rewrite (trunc_nonneg _ H).
  pose proof (Qfloor_le y) as Hle. pose proof (Qlt_floor y) as Hlt.
  rewrite inject_Z_plus in Hlt. change (inject_Z 1) with 1 in Hlt.
  split; lra.
Qed.

Lemma trunc_error_nonpos (y : Q) :
  y <= 0 -> y <= inject_Z (trunc y) /\ inject_Z (trunc y) < y + 1.
Proof.
  intros H. rewrite (trunc_nonpos _ H).
  pose proof (Qle_ceiling y) as Hle. pose proof (Qceiling_lt y) as Hlt.
  replace (Qceiling y - 1)%Z with (Qceiling y + -1)%Z in Hlt by lia.
  rewrite inject_Z_plus in Hlt.
  change (inject_Z (-1)) with (-1) in Hlt.
  split; lra.
Qed.

Lemma clamp_id (x : Q) : -1 <= x <= 1 -> clamp x (-1) 1 == x.
Proof.
  intros [Hlo Hhi]. unfold clamp.
  destruct (Qlt_le_dec x (-1)); [lra|].
  destruct (Qlt_le_dec 1 x); [lra|]. reflexivity.
Qed.

(** Where the round trip lands: a negative sample comes back at most one
    step too high, a non-negative one between [x/32768] and
    [(1+x)/32768] too low. *)
Lemma roundtrip_error (x : Q) :
  -1 <= x <= 1 ->
  (x < 0 ->
     0 <= Page.decode_sample (encode_sample x) - x
     /\ Page.decode_sample (encode_sample x) - x < 1 # 32768)
  /\ (0 <= x ->
        x * (1 # 32768) <= x - Page.decode_sample (encode_sample x)
        /\ x - Page.decode_sample (encode_sample x) < (1 + x) * (1 # 32768)).
Proof.
  intros Hx. destruct (encode_sample_spec x) as [E _]. rewrite E.
  unfold encoder, Page.decode_sample. cbv zeta.
  pose proof (clamp_id _ Hx) as Hc.
  destruct (Qlt_le_dec (clamp x (-1) 1) 0) as [Hs | Hs].
  - assert (Hn : x < 0) by lra.
    rewrite (trunc_comp (clamp x (-1) 1 * 32768) (x * 32768))
      by (now rewrite Hc).
    destruct (trunc_error_nonpos (x * 32768)) as [A B]; [lra|].
    split; [intros _ | intros; lra].
    set (t := inject_Z (trunc (x * 32768))) in *.
    split.
    + setoid_replace (t / 32768) with (t * (1 # 32768)) by (field). lra.
    + setoid_replace (t / 32768) with (t * (1 # 32768)) by (field). lra.
  - assert (Hn : 0 <= x) by lra.
    rewrite (trunc_comp (clamp x (-1) 1 * 32767) (x * 32767))
      by (now rewrite Hc).
    destruct (trunc_error_nonneg (x * 32767)) as [A B]; [lra|].
    split; [intros; lra | intros _].
    set (t := inject_Z (trunc (x * 32767))) in *.
    split.
    + setoid_replace (t / 32768) with (t * (1 # 32768)) by (field). lra.
    + setoid_replace (t / 32768) with (t * (1 # 32768)) by (field). lra.
Qed.

(** C9, as the code has it.  For every [x] in [-1, 1] the decoded value is
    within [2/32768] of [x], strictly, and within [1/32768] when [x <= 0];
    positive samples are scaled by 32767 and decoded by 32768, which costs
    up to one more step. *)
Theorem roundtrip_within_two_steps (x : Q) :
  -1 <= x <= 1 ->
  Qabs (Page.decode_sample (encode_sample x) - x) < 2 # 32768
  /\ (x <= 0 -> Qabs (Page.decode_sample (encode_sample x) - x) < 1 # 32768).
Proof.
  intros Hx. destruct (roundtrip_error _ Hx) as [Hneg Hpos].
  destruct (Qlt_le_dec x 0) as [Hn | Hp].
  - destruct (Hneg Hn) as [A B].
    rewrite Qabs_pos by exact A. split; [lra | intros _; exact B].
  - destruct (Hpos Hp) as [A B].
    assert (Hle : Page.decode_sample (encode_sample x) - x <= 0) by lra.
    rewrite (Qabs_neg _ Hle). split; [lra | intros H0; lra].
Qed.

Lemma roundtrip_within_two_steps_witness :
  (-1 <= 9 # 10 <= 1
   /\ Qabs (Page.decode_sample (encode_sample (9 # 10)) - (9 # 10))
      < 2 # 32768)
  /\ (-1 <= - (1 # 3) <= 1 /\ - (1 # 3) <= 0
      /\ Qabs (Page.decode_sample (encode_sample (- (1 # 3))) - - (1 # 3))
         < 1 # 32768).
Proof.
  assert (H : -1 <= 9 # 10 <= 1) by (split; discriminate).
  assert (H' : -1 <= - (1 # 3) <= 1) by (split; discriminate).
  assert (Hneg : - (1 # 3) <= 0) by discriminate.
  split.
  - split; [exact H|]. exact (proj1 (roundtrip_within_two_steps _ H)).
  - split; [exact H'|]. split; [exact Hneg|].
    exact (proj2 (roundtrip_within_two_steps _ H') Hneg).
Defined.

(** The claimed bound of one step fails at [x = 65535/65536], a binary32
    value: it encodes to 32766 and decodes to 32766/32768, which is
    1.5 steps below [x]. *)
Lemma roundtrip_one_step_fails :
  -1 <= 65535 # 65536 <= 1
  /\ encode_sample (65535 # 65536) = 32766%Z
  /\ ~ (Qabs (Page.decode_sample (encode_sample (65535 # 65536))
              - (65535 # 65536)) <= 1 # 32768).
Proof.
  split; [split; discriminate|]. split; [reflexivity|].
  apply Qlt_not_le. reflexivity.
Qed.

(* ===================================================================== *)
(** * Resampler: nearest-neighbour selection *)
(* ===================================================================== *)

(** ** Rounding to binary64 *)

Lemma round64_comp (x y : Q) : x == y -> round64 x = round64 y.
Proof. intros H. unfold round64. now rewrite (Qred_complete _ _ H). Qed.

Lemma two_neq_0 : ~ 2 == 0.
Proof. discriminate. Qed.

Lemma pow2_pos (e : Z) : 0 < 2 ^ e.
Proof. apply Qpower_0_lt. reflexivity. Qed.

Lemma Qfloor_unique (y : Q) (q : Z) :
  inject_Z q <= y -> y < inject_Z q + 1 -> Qfloor y = q.
Proof.
  intros H1 H2.
  pose proof (Qfloor_resp_le _ _ H1) as H3. rewrite Qfloor_Z in H3.
  pose proof (Qfloor_le y) as H4.
  assert (H5 : (Qfloor y < q + 1)%Z).
  { rewrite Zlt_Qlt, inject_Z_plus. change (inject_Z 1) with 1. lra. }
  lia.
Qed.

(** The binade never lies above the number. *)
Lemma binade_le (x : Q) : 0 < x -> 2 ^ binade x <= x.
Proof.
  intros Hx. unfold binade.
  set (a := Z.log2 (Qnum x)). set (b := Z.log2 (Zpos (Qden x))).
  destruct (Qle_bool (2 ^ (a - b)) x) eqn:E.
  - now apply Qle_bool_iff.
  - assert (Hn : (0 < Qnum x)%Z).
    { destruct x as [n d]. unfold Qlt in Hx. cbn in *. lia. }
    assert (Ha : (0 <= a)%Z) by apply Z.log2_nonneg.
    assert (Hb : (0 <= b)%Z) by apply Z.log2_nonneg.
    destruct (Z.log2_spec (Qnum x) Hn) as [Hlo _]. fold a in Hlo.
    destruct (Z.log2_spec (Zpos (Qden x)) eq_refl) as [_ Hhi]. fold b in Hhi.
    replace (a - b - 1)%Z with (a - (b + 1))%Z by lia.
    rewrite Qpower_minus by exact two_neq_0.
    change 2 with (inject_Z 2).
    rewrite <- !Zpower_Qpower by lia.
    apply Qle_shift_div_r.
    + change 0 with (inject_Z 0). rewrite <- Zlt_Qlt. lia.
    + destruct x as [n d]. cbn [Qnum Qden] in *.
      unfold Qle, Qmult, inject_Z. cbn [Qnum Qden].
      rewrite Z.mul_1_r, Pos.mul_1_r.
      replace (Z.succ b) with (b + 1)%Z in Hhi by lia.
      nia.
Qed.

(** The binade is the one the number lies in. *)
Lemma binade_spec (x : Q) :
  0 < x -> 2 ^ binade x <= x /\ x < 2 ^ (binade x + 1).
Proof.
  intros Hx. split; [now apply binade_le|]. unfold binade.
  set (a := Z.log2 (Qnum x)). set (b := Z.log2 (Zpos (Qden x))).
  destruct (Qle_bool (2 ^ (a - b)) x) eqn:E.
  - assert (Hn : (0 < Qnum x)%Z).
    { destruct x as [n d]. unfold Qlt in Hx. cbn in *. lia. }
    assert (Ha : (0 <= a)%Z) by apply Z.log2_nonneg.
    assert (Hb : (0 <= b)%Z) by apply Z.log2_nonneg.
    destruct (Z.log2_spec (Qnum x) Hn) as [_ Hhi]. fold a in Hhi.
    destruct (Z.log2_spec (Zpos (Qden x)) eq_refl) as [Hlo _]. fold b in Hlo.
    replace (a - b + 1)%Z with (a + 1 - b)%Z by lia.
    rewrite Qpower_minus by exact two_neq_0.
    change 2 with (inject_Z 2).
    rewrite <- !Zpower_Qpower by lia.
    apply Qlt_shift_div_l.
    + change 0 with (inject_Z 0). rewrite <- Zlt_Qlt. lia.
    + destruct x as [n d]. cbn [Qnum Qden] in *.
      unfold Qlt, Qmult, inject_Z. cbn [Qnum Qden].
      rewrite Z.mul_1_r, Pos.mul_1_r.
      replace (Z.succ a) with (a + 1)%Z in Hhi by lia.
      nia.
  - replace (a - b - 1 + 1)%Z with (a - b)%Z by lia.
    apply Qnot_le_lt. intros H. apply Qle_bool_iff in H. congruence.
Qed.

(** The rounding on numbers whose binary64 value is known: 0.1, the ratio
    18080 / 16000 = 1.13, and a hundred times the rounded ratio. *)
Example round64_known_values :
  round64 (1 # 10) == 3602879701896397 # 36028797018963968
  /\ round64 (18080 / 16000) == 1272266894732165 # 1125899906842624
  /\ round64 (100 * round64 (18080 / 16000))
     == 7951668092076031 # 70368744177664
  /\ round64 (1 # 2) == 1 # 2
  /\ round64 (- (1 # 10)) == - (3602879701896397 # 36028797018963968).
Proof. repeat split; vm_compute; reflexivity. Qed.

Lemma nearest_even_error (x : Q) :
  Qabs (inject_Z (nearest_even x) - x) <= 1 # 2.
Proof.
  unfold nearest_even.
  pose proof (Qfloor_le x) as Hlo. pose proof (Qlt_floor x) as Hhi.
  set (f := Qfloor x) in *.
  rewrite inject_Z_plus in Hhi. change (inject_Z 1) with 1 in Hhi.
  apply Qabs_Qle_condition.
  destruct (ltb (x - inject_Z f) (1 # 2)) eqn:E1.
  - apply ltb_true in E1. split; lra.
  - apply ltb_false in E1.
    destruct (ltb (1 # 2) (x - inject_Z f)) eqn:E2.
    + rewrite inject_Z_plus. change (inject_Z 1) with 1. split; lra.
    + apply ltb_false in E2.
      destruct (Z.even f).
      * split; lra.
      * rewrite inject_Z_plus. change (inject_Z 1) with 1. split; lra.
Qed.

Lemma nearest_even_Z (x : Q) (z : Z) : x == inject_Z z -> nearest_even x = z.
Proof.
  intros H. unfold nearest_even.
  assert (Hf : Qfloor x = z) by (rewrite (Qfloor_comp _ _ H); apply Qfloor_Z).
  rewrite Hf.
  assert (E : ltb (x - inject_Z z) (1 # 2) = true) by (apply ltb_true; lra).
  now rewrite E.
Qed.

(** The error of rounding a positive number is at most half a unit in the
    last place, hence at most [x * 2^-53]. *)
Lemma round64_pos_error (x : Q) :
  0 < x -> Qabs (round64_pos x - x) <= x / 2 ^ 53.
Proof.
  intros Hx. unfold round64_pos.
  pose proof (binade_le x Hx) as Hb.
  set (e := binade x) in *.
  assert (Hu : 2 ^ (e - 52) == 2 ^ e / 4503599627370496).
  { rewrite Qpower_minus by exact two_neq_0. reflexivity. }
  pose proof (pow2_pos (e - 52)) as Hup.
  set (ulp := 2 ^ (e - 52)) in *. set (p := 2 ^ e) in *.
  pose proof (nearest_even_error (x / ulp)) as Hn.
  set (n := inject_Z (nearest_even (x / ulp))) in *.
  assert (Hx' : x / ulp * ulp == x) by (field; lra).
  apply Qabs_Qle_condition in Hn. destruct Hn as [Hn1 Hn2].
  assert (H1 : (n - x / ulp) * ulp <= (1 # 2) * ulp).
  { apply Qmult_le_compat_r; lra. }
  assert (H2 : (- (1 # 2)) * ulp <= (n - x / ulp) * ulp).
  { apply Qmult_le_compat_r; lra. }
  assert (H4 : (n - x / ulp) * ulp == n * ulp - x).
  { rewrite <- Hx' at 2. ring. }
  assert (H5 : p / 4503599627370496 == p * (1 # 4503599627370496))
    by (field; discriminate).
  change (2 ^ 53) with 9007199254740992.
  assert (H6 : x / 9007199254740992 == x * (1 # 9007199254740992))
    by (field; discriminate).
  apply Qabs_Qle_condition. lra.
Qed.

Lemma round64_error (x : Q) :
  0 < x -> Qabs (round64 x - x) <= x / 2 ^ 53.
Proof.
  intros Hx. unfold round64.
  assert (Hy : 0 < Qred x) by now rewrite Qred_correct.
  rewrite (proj2 (ltb_true 0 (Qred x)) Hy).
  pose proof (round64_pos_error (Qred x) Hy) as H.
  rewrite Qred_correct in H at 2 3. exact H.
Qed.

(** A dyadic number [z / 2^j] with [z] below 2^53 is a binary64 value. *)
Lemma round64_pos_exact (x : Q) (z : Z) (j : Z) :
  x == inject_Z z / 2 ^ j -> (0 < z < 2 ^ 53)%Z ->
  round64_pos x == x.
Proof.
  intros Hx Hz.
  pose proof (pow2_pos j) as Hj.
  assert (Hpos : 0 < x).
  { rewrite Hx. apply Qlt_shift_div_l; [exact Hj|].
    rewrite Qmult_0_l. change 0 with (inject_Z 0). rewrite <- Zlt_Qlt. lia. }
  pose proof (binade_le x Hpos) as Hb.
  unfold round64_pos. set (e := binade x) in *.
  (* 2^e <= z / 2^j < 2^53 / 2^j, so e + j < 53 *)
  assert (He : (e + j <= 52)%Z).
  { assert (H : 2 ^ (e + j) < 2 ^ 53).
    { rewrite Qpower_plus by exact two_neq_0.
      apply Qle_lt_trans with (x * 2 ^ j).
      - apply Qmult_le_compat_r; lra.
      - rewrite Hx.
        setoid_replace (inject_Z z / 2 ^ j * 2 ^ j) with (inject_Z z)
          by (field; lra).
        change (2 ^ 53) with (inject_Z (2 ^ 53)).
        rewrite <- Zlt_Qlt. lia. }
    apply Qpower_lt_compat_l_inv in H; [lia | reflexivity]. }
  pose proof (pow2_pos (e - 52)) as Hup.
  assert (Hm : x / 2 ^ (e - 52) == inject_Z (z * 2 ^ (52 - e - j))).
  { rewrite inject_Z_mult, Zpower_Qpower by lia.
    change (inject_Z 2) with 2.
    replace (52 - e - j)%Z with (- (e - 52) + - j)%Z by lia.
    rewrite Qpower_plus, !Qpower_opp by exact two_neq_0.
    rewrite Hx. field. split; lra. }
  rewrite (nearest_even_Z _ _ Hm), <- Hm. field. lra.
Qed.

Lemma round64_exact (x : Q) (z : Z) (j : Z) :
  x == inject_Z z / 2 ^ j -> (0 <= z < 2 ^ 53)%Z ->
  round64 x == x.
Proof.
  intros Hx Hz. unfold round64.
  pose proof (pow2_pos j) as Hj.
  destruct (Z.eq_dec z 0) as [-> | Hnz].
  - assert (H0 : Qred x == 0).
    { rewrite Qred_correct, Hx. unfold Qdiv. apply Qmult_0_l. }
    assert (E1 : ltb 0 (Qred x) = false) by (apply ltb_false; lra).
    assert (E2 : ltb (Qred x) 0 = false) by (apply ltb_false; lra).
    rewrite E1, E2. rewrite Qred_correct in H0. now rewrite H0.
  - assert (Hy : Qred x == inject_Z z / 2 ^ j) by now rewrite Qred_correct.
    assert (Hpos : 0 < Qred x).
    { rewrite Hy. apply Qlt_shift_div_l; [exact Hj|].
      rewrite Qmult_0_l. change 0 with (inject_Z 0). rewrite <- Zlt_Qlt. lia. }
    rewrite (proj2 (ltb_true 0 (Qred x)) Hpos).
    rewrite (round64_pos_exact _ z j Hy) by lia. apply Qred_correct.
Qed.

(** Dividing two integers below 2^53 and rounding never crosses an
    integer: [Math.floor] of the rounded quotient is the integer quotient. *)
Lemma floor_round64_div (a : Z) (k : positive) :
  (0 <= a < 2 ^ 53)%Z ->
  Math_floor (round64 (inject_Z a / inject_Z (Zpos k))) = (a / Zpos k)%Z.
Proof.
  intros Ha. unfold Math_floor.
  set (x := inject_Z a / inject_Z (Zpos k)).
  assert (Hk : 0 < inject_Z (Zpos k)) by reflexivity.
  pose proof (Z.div_mod a (Zpos k) ltac:(discriminate)) as Hdm.
  pose proof (Z.mod_pos_bound a (Zpos k) eq_refl) as Hr.
  set (q := (a / Zpos k)%Z) in *. set (r := (a mod Zpos k)%Z) in *.
  assert (Hq : (0 <= q)%Z) by (apply Z.div_pos; lia).
  assert (Hxq : x == inject_Z q + inject_Z r / inject_Z (Zpos k)).
  { unfold x. rewrite Hdm, inject_Z_plus, inject_Z_mult. field. lra. }
  destruct (Z.eq_dec r 0) as [Hr0 | Hr0].
  - assert (Hx : x == inject_Z q / 2 ^ 0).
    { rewrite Hxq, Hr0. change (2 ^ 0) with 1. field. lra. }
    assert (Hqb : (0 <= q < 2 ^ 53)%Z) by nia.
    rewrite (Qfloor_comp _ _ (round64_exact x q 0 Hx Hqb)).
    rewrite (Qfloor_comp _ _ Hx). change (2 ^ 0) with 1.
    rewrite <- (Qfloor_Z q) at 2. apply Qfloor_comp. field.
  - assert (Hapos : (0 < a)%Z) by nia.
    assert (Hxpos : 0 < x).
    { unfold x. apply Qlt_shift_div_l; [exact Hk|].
      rewrite Qmult_0_l. change 0 with (inject_Z 0). rewrite <- Zlt_Qlt. lia. }
    pose proof (round64_error x Hxpos) as Herr.
    apply Qabs_Qle_condition in Herr. destruct Herr as [He1 He2].
    (* x / 2^53 < 1 / k, and  q + 1/k <= x <= q + 1 - 1/k *)
    assert (Hsmall : x / 2 ^ 53 < 1 / inject_Z (Zpos k)).
    { unfold x. change (2 ^ 53) with (inject_Z (2 ^ 53)).
      setoid_replace (inject_Z a / inject_Z (Z.pos k) / inject_Z (2 ^ 53))
        with (inject_Z a / inject_Z (2 ^ 53) / inject_Z (Zpos k))
        by (field; split; [discriminate | lra]).
      apply Qmult_lt_compat_r; [now apply Qinv_lt_0_compat|].
      apply Qlt_shift_div_r; [reflexivity|].
      rewrite Qmult_1_l, <- Zlt_Qlt. lia. }
    assert (Hr1 : 1 / inject_Z (Zpos k) <= inject_Z r / inject_Z (Zpos k)).
    { apply Qmult_le_compat_r; [|apply Qlt_le_weak; now apply Qinv_lt_0_compat].
      change 1 with (inject_Z 1). rewrite <- Zle_Qle. lia. }
    assert (Hr2 : inject_Z r / inject_Z (Zpos k) <= 1 - 1 / inject_Z (Zpos k)).
    { setoid_replace (1 - 1 / inject_Z (Zpos k))
        with ((inject_Z (Zpos k) - 1) / inject_Z (Zpos k)) by (field; lra).
      apply Qmult_le_compat_r; [|apply Qlt_le_weak; now apply Qinv_lt_0_compat].
      change 1 with (inject_Z 1).
      unfold Qminus. rewrite <- inject_Z_opp, <- inject_Z_plus, <- Zle_Qle. lia. }
    apply Qfloor_unique; lra.
Qed.

(** ** Rates in exact ratio to 16 kHz

    When [sampleRate / 16000] is a dyadic number [m / 2^j] nothing is
    rounded: the ratio, the products [i * ratio] and the floor of
    [input.length / ratio] are the exact ones. *)

Section ExactRatio.

Variable r_s : Q.
Variable m : positive.
Variable j : nat.
Variable input : list Q.

Hypothesis rate_dyadic : r_s == 16000 * (inject_Z (Zpos m) / 2 ^ Z.of_nat j).
Hypothesis m_small : (Zpos m < 2 ^ 53)%Z.
Hypothesis length_small : (Z.of_nat (length input) * 2 ^ Z.of_nat j < 2 ^ 53)%Z.

Lemma ratio_exact : ratio_of r_s == inject_Z (Zpos m) / 2 ^ Z.of_nat j.
Proof.
  unfold ratio_of, targetSampleRate.
  assert (H : r_s / 16000 == inject_Z (Zpos m) / 2 ^ Z.of_nat j).
  { rewrite rate_dyadic. field. pose proof (pow2_pos (Z.of_nat j)). lra. }
  rewrite (round64_exact _ (Zpos m) (Z.of_nat j) H) by lia. exact H.
Qed.

Lemma newLength_exact :
  newLength_of r_s input
  = (Z.of_nat (length input) * 2 ^ Z.of_nat j / Zpos m)%Z.
Proof.
  unfold newLength_of.
  pose proof (pow2_pos (Z.of_nat j)) as Hj.
  assert (H : inject_Z (Z.of_nat (length input)) / ratio_of r_s
              == inject_Z (Z.of_nat (length input) * 2 ^ Z.of_nat j)
                 / inject_Z (Zpos m)).
  { rewrite ratio_exact, inject_Z_mult, Zpower_Qpower by lia.
    change (inject_Z 2) with 2. field.
    split; [discriminate | lra]. }
  rewrite (round64_comp _ _ H). apply floor_round64_div.
  split; [|exact length_small].
  apply Z.mul_nonneg_nonneg; [lia | apply Z.pow_nonneg; lia].
Qed.

Lemma newLength_spec :
  newLength_of r_s input = resampled_length (length input) r_s 16000.
Proof.
  rewrite newLength_exact. unfold resampled_length.
  pose proof (pow2_pos (Z.of_nat j)) as Hj.
  assert (Hinj : inject_Z (Z.of_nat (length input) * 2 ^ Z.of_nat j)
                 == inject_Z (Z.of_nat (length input)) * 2 ^ Z.of_nat j).
  { rewrite inject_Z_mult, Zpower_Qpower by lia. reflexivity. }
  rewrite Zdiv_Qdiv. apply Qfloor_comp.
  rewrite Hinj, rate_dyadic. field.
  repeat split; first [discriminate | lra].
Qed.

Lemma index_exact (i : nat) :
  (Z.of_nat i < newLength_of r_s input)%Z ->
  index_of r_s i = resampled_index i r_s 16000
  /\ (0 <= index_of r_s i < Z.of_nat (length input))%Z.
Proof.
  intros Hi. rewrite newLength_exact in Hi.
  pose proof (pow2_pos (Z.of_nat j)) as Hj.
  assert (Hp : (0 < 2 ^ Z.of_nat j)%Z) by (apply Z.pow_pos_nonneg; lia).
  set (n := Z.of_nat (length input)) in *.
  (* (i + 1) * m <= n * 2^j *)
  assert (Him : ((Z.of_nat i + 1) * Zpos m <= n * 2 ^ Z.of_nat j)%Z).
  { pose proof (Z.mul_div_le (n * 2 ^ Z.of_nat j) (Zpos m) eq_refl). nia. }
  assert (Hx : inject_Z (Z.of_nat i) * ratio_of r_s
               == inject_Z (Z.of_nat i * Zpos m) / 2 ^ Z.of_nat j).
  { rewrite ratio_exact, inject_Z_mult. field. lra. }
  assert (Hy : inject_Z (Z.of_nat i) * r_s / 16000
               == inject_Z (Z.of_nat i * Zpos m) / 2 ^ Z.of_nat j).
  { rewrite rate_dyadic, inject_Z_mult. field. lra. }
  assert (E : index_of r_s i = resampled_index i r_s 16000).
  { unfold index_of, resampled_index, Math_floor. apply Qfloor_comp.
    rewrite (round64_exact _ (Z.of_nat i * Zpos m) (Z.of_nat j) Hx) by nia.
    now rewrite Hx, Hy. }
  split; [exact E|]. rewrite E. unfold resampled_index.
  split.
  - rewrite <- (Qfloor_Z 0). apply Qfloor_resp_le. rewrite Hy.
    apply Qle_shift_div_l; [exact Hj|]. rewrite Qmult_0_l.
    change 0 with (inject_Z 0). rewrite <- Zle_Qle. nia.
  - rewrite Zlt_Qlt.
    apply Qle_lt_trans with (inject_Z (Z.of_nat i) * r_s / 16000);
      [apply Qfloor_le|].
    rewrite Hy. apply Qlt_shift_div_r; [exact Hj|].
    change 2 with (inject_Z 2). rewrite <- Zpower_Qpower by lia.
    rewrite <- inject_Z_mult, <- Zlt_Qlt. nia.
Qed.

End ExactRatio.

(** The output has [newLength] samples, or none when [newLength] is
    negative. *)
Lemma downsample_length (r : Q) (input : list Q) :
  length (downsample r input) = Z.to_nat (newLength_of r input).
Proof. unfold downsample. now rewrite length_map, length_seq. Qed.

Lemma downsample_nth (r : Q) (input : list Q) (i : nat) :
  (i < length (downsample r input))%nat ->
  nth_error (downsample r input) i = Some (pick r input i).
Proof.
  intros Hi. rewrite downsample_length in Hi. unfold downsample.
  rewrite nth_error_map, nth_error_seq.
  destruct (Nat.ltb_spec i (Z.to_nat (newLength_of r input))); [|lia].
  reflexivity.
Qed.

(** C8.  At a source rate in exact ratio to the 16 kHz target (every whole
    multiple of 16 kHz, such as the 48 kHz the code asks for, and more
    generally [R_s / 16000 = m / 2^j] within 53 bits) the resampler
    returns exactly floor(N * 16000 / R_s) samples, and output sample [i]
    is the input sample at index floor(i * R_s / 16000), which always
    exists: plain selection, no interpolation. *)
Theorem resampler_selects_nearest
  (r_s : Q) (m : positive) (j : nat) (input : list Q) :
  r_s == 16000 * (inject_Z (Zpos m) / 2 ^ Z.of_nat j) ->
  (Zpos m < 2 ^ 53)%Z ->
  (Z.of_nat (length input) * 2 ^ Z.of_nat j < 2 ^ 53)%Z ->
  let output := downsample r_s input in
  Z.of_nat (length output) = resampled_length (length input) r_s 16000
  /\ (forall i : nat, (i < length output)%nat ->
        (0 <= resampled_index i r_s 16000 < Z.of_nat (length input))%Z
        /\ nth_error output i
           = nth_error input (Z.to_nat (resampled_index i r_s 16000))).
Proof.
  intros Hr Hm Hn. cbv zeta.
  pose proof (newLength_exact r_s m j input Hr Hm Hn) as Hlen.
  assert (Hnn : (0 <= newLength_of r_s input)%Z).
  { rewrite Hlen. apply Z.div_pos; [|reflexivity].
    apply Z.mul_nonneg_nonneg; [lia | apply Z.pow_nonneg; lia]. }
  split.
  - rewrite downsample_length, Z2Nat.id by assumption.
    exact (newLength_spec r_s m j input Hr Hm Hn).
  - intros i Hi. rewrite (downsample_nth r_s input i Hi).
    rewrite downsample_length in Hi.
    assert (Hi' : (Z.of_nat i < newLength_of r_s input)%Z) by lia.
    destruct (index_exact r_s m j input Hr Hm Hn i Hi') as [E Hrange].
    rewrite E in Hrange. split; [exact Hrange|].
    unfold pick. rewrite E. symmetry. apply nth_error_nth'. lia.
Qed.

Lemma resampler_selects_nearest_witness :
  (* 48 kHz, ratio 3 *)
  (48000 == 16000 * (inject_Z 3 / 2 ^ Z.of_nat 0)
   /\ downsample 48000 (ramp 10) = [0 # 128; 3 # 128; 6 # 128]
   /\ Z.of_nat (length (downsample 48000 (ramp 10)))
      = resampled_length 10 48000 16000
   /\ nth_error (downsample 48000 (ramp 10)) 2
      = nth_error (ramp 10) (Z.to_nat (resampled_index 2 48000 16000)))
  (* 24 kHz, ratio 3/2 *)
  /\ (24000 == 16000 * (inject_Z 3 / 2 ^ Z.of_nat 1)
      /\ downsample 24000 (ramp 10)
         = [0 # 128; 1 # 128; 3 # 128; 4 # 128; 6 # 128; 7 # 128]
      /\ Z.of_nat (length (downsample 24000 (ramp 10)))
         = resampled_length 10 24000 16000
      /\ nth_error (downsample 24000 (ramp 10)) 5
         = nth_error (ramp 10) (Z.to_nat (resampled_index 5 24000 16000))).
Proof.
  assert (H : 48000 == 16000 * (inject_Z 3 / 2 ^ Z.of_nat 0)) by reflexivity.
  assert (H' : 24000 == 16000 * (inject_Z 3 / 2 ^ Z.of_nat 1)) by reflexivity.
  assert (Hm : (Zpos 3 < 2 ^ 53)%Z) by reflexivity.
  assert (Hn : (Z.of_nat (length (ramp 10)) * 2 ^ Z.of_nat 0 < 2 ^ 53)%Z)
    by reflexivity.
  assert (Hn' : (Z.of_nat (length (ramp 10)) * 2 ^ Z.of_nat 1 < 2 ^ 53)%Z)
    by reflexivity.
  destruct (resampler_selects_nearest 48000 3 0 (ramp 10) H Hm Hn)
    as [Hlen Hidx].
  destruct (resampler_selects_nearest 24000 3 1 (ramp 10) H' Hm Hn')
    as [Hlen' Hidx'].
  split.
  - split; [exact H|]. split; [reflexivity|]. split; [exact Hlen|].
    apply (Hidx 2%nat). vm_compute. lia.
  - split; [exact H'|]. split; [reflexivity|]. split; [exact Hlen'|].
    apply (Hidx' 5%nat). vm_compute. lia.
Defined.

(** C8, the claim without the restriction.  At 18080 Hz the quotient
    18080 / 16000 = 1.13 is no binary64 value; the nearest one lies below
    it, [100 * ratio] rounds to the binary64 value just below 113, and
    output sample 100 is input sample 112, where floor(100 * 18080 /
    16000) = 113. *)
Lemma resampler_rounds_the_ratio :
  let input := ramp 128 in
  let output := downsample 18080 input in
  (100 < length output)%nat
  /\ index_of 18080 100 = 112%Z
  /\ resampled_index 100 18080 16000 = 113%Z
  /\ nth_error output 100 = Some (112 # 128)
  /\ nth_error input (Z.to_nat (resampled_index 100 18080 16000))
     = Some (113 # 128)
  /\ ~ (forall i : nat, (i < length output)%nat ->
          nth_error output i
          = nth_error input (Z.to_nat (resampled_index i 18080 16000))).
Proof.
  cbv zeta.
  assert (Hlen : (100 < length (downsample 18080 (ramp 128)))%nat).
  { vm_compute. lia. }
  assert (Hout : nth_error (downsample 18080 (ramp 128)) 100
                 = Some (112 # 128)) by (vm_compute; reflexivity).
  assert (Hin : nth_error (ramp 128)
                  (Z.to_nat (resampled_index 100 18080 16000))
                = Some (113 # 128)) by (vm_compute; reflexivity).
  split; [exact Hlen|].
  split; [vm_compute; reflexivity|].
  split; [vm_compute; reflexivity|].
  split; [exact Hout|]. split; [exact Hin|].
  intros H. specialize (H 100%nat Hlen).
  rewrite Hout, Hin in H. discriminate H.
Qed.

(** At 44.1 kHz the ratio 2.75625 is rounded as well, but on a
    ScriptProcessor buffer of 1024 samples no index moves: the 371 indices
    read are the exact ones. *)
Example at_44100_the_indices_agree :
  newLength_of 44100 (repeat 0 1024) = 371%Z
  /\ resampled_length 1024 44100 16000 = 371%Z
  /\ forallb (fun i => (index_of 44100 i =? resampled_index i 44100 16000)%Z)
       (seq 0 371) = true.
Proof. repeat split; vm_compute; reflexivity. Qed.

(* ===================================================================== *)
(** * Voice activity detection *)
(* ===================================================================== *)

Lemma Math_max_Qmax (a b : Q) : Math_max a b == Qmax a b.
Proof.
  unfold Math_max. destruct (Qle_bool a b) eqn:E.
  - apply Qle_bool_iff in E. symmetry. now apply Q.max_r.
  - symmetry. apply Q.max_l. apply Qlt_le_weak, Qnot_le_lt.
    intros H. apply Qle_bool_iff in H. congruence.
Qed.

Section VadFacts.

Variable Math_sqrt : Q -> Q.
Variable c : Session.

Local Abbreviation tick := (onaudioprocess Math_sqrt c).
Local Abbreviation floor := (energyThreshold_of (options c)).
Local Abbreviation silence := (silenceMs_of (options c)).

(** The threshold of a tick, in the specification's terms. *)
Lemma threshold_at_spec (s : MicState) (t : Tick) :
  let cal := calibrate c s t (rms_at Math_sqrt c t) in
  (snd cal = 0%nat -> threshold_at Math_sqrt c s t = floor)
  /\ (snd cal <> 0%nat ->
        threshold_at Math_sqrt c s t
        == effective_threshold floor
             (fst cal / inject_Z (Z.of_nat (snd cal))))
  /\ (0 <= floor ->
        threshold_at Math_sqrt c s t
        == effective_threshold floor
             (noise_floor_estimate (fst cal) (snd cal))).
Proof.
  cbv zeta. unfold threshold_at, threshold_of, effective_threshold,
    noise_floor_estimate. cbv zeta.
  destruct (snd (calibrate c s t (rms_at Math_sqrt c t))) as [|n] eqn:En.
  - cbn [Nat.ltb Nat.leb Nat.eqb].
    split; [reflexivity|]. split; [intros H; now elim H|].
    intros Hf. symmetry. apply Q.max_l. lra.
  - cbn [Nat.ltb Nat.leb Nat.eqb].
    split; [discriminate|]. split; intros _; apply Math_max_Qmax.
Qed.

(** What an open tick does to the detector, case by case. *)
Lemma tick_vad (s : MicState) (t : Tick) :
  is_open (readyState t) = true ->
  let s' := fst (tick s t) in
  let out := edges_of (snd (tick s t)) in
  lastSpeechTs s' = last_above Math_sqrt c s t
  /\ (if isSpeaking s
      then
        if negb (meets Math_sqrt c s t)
           && geb (clock_now t - lastSpeechTs s) silence
        then out = [speech_end] /\ isSpeaking s' = false
        else out = [] /\ isSpeaking s' = true
      else
        if meets Math_sqrt c s t
        then out = [speech_start] /\ isSpeaking s' = true
        else out = [] /\ isSpeaking s' = false).
Proof.
  intros Hopen. cbv zeta. rewrite (tick_open Math_sqrt c s t Hopen).
  cbv zeta. cbn [fst snd lastSpeechTs isSpeaking].
  rewrite !edges_of_app, edges_of_frames.
  replace (edges_of (if onAudioLevel c
                     then [CallOnAudioLevel
                             (Math_min (rms_of Math_sqrt
                                          (downsample (sampleRate c) (input t)) * 8) 1)]
                     else [])) with (@nil Edge)
    by (destruct (onAudioLevel c); reflexivity).
  rewrite !app_nil_r.
  unfold last_above, meets, threshold_at, rms_at. cbv zeta.
  set (rms := rms_of Math_sqrt (downsample (sampleRate c) (input t))).
  set (cal := calibrate c s t rms).
  set (th := threshold_of c (fst cal) (snd cal)).
  unfold vad.
  destruct (geb rms th) eqn:Hm; destruct (isSpeaking s) eqn:Hsp;
    cbn [negb andb fst snd].
  - split; [reflexivity|]. split; reflexivity.
  - split; [reflexivity|].
    destruct (onSpeechStart (options c)); split; reflexivity.
  - destruct (geb (clock_now t - lastSpeechTs s) silence) eqn:Hs;
      cbn [fst snd]; (split; [reflexivity|]).
    + destruct (onSpeechEnd (options c)); split; reflexivity.
    + split; reflexivity.
  - split; [reflexivity|]. split; reflexivity.
Qed.

(** With a positive trailing-silence duration, "silence is due" already
    says that the tick is below the threshold. *)
Lemma silence_due_spec (s : MicState) (t : Tick) :
  0 < silence ->
  silence_due Math_sqrt c s t
  = negb (meets Math_sqrt c s t) && geb (clock_now t - lastSpeechTs s) silence.
Proof.
  intros Hpos. unfold silence_due, last_above.
  destruct (meets Math_sqrt c s t); cbn [negb andb]; [|reflexivity].
  apply geb_false. lra.
Qed.

(** No edge while no tick meets the threshold. *)
Lemma quiet_prefix (ts : list Tick) (s : MicState) :
  forallb (fun t => is_open (readyState t)) ts = true ->
  isSpeaking s = false ->
  holds_along Math_sqrt c (fun s t => negb (meets Math_sqrt c s t)) s ts = true ->
  edges_of (snd (run Math_sqrt c s (map Process ts))) = []
  /\ isSpeaking (fst (run Math_sqrt c s (map Process ts))) = false.
Proof.
  revert s; induction ts as [|t ts IH]; intros s Hopen Hsp Hq.
  - split; [reflexivity | exact Hsp].
  - cbn [forallb] in Hopen. apply andb_true_iff in Hopen as [Ho Hopen].
    cbn [holds_along] in Hq. apply andb_true_iff in Hq as [Hq0 Hq].
    apply negb_true_iff in Hq0.
    pose proof (tick_vad s t Ho) as [_ Hv]. cbv zeta in Hv.
    rewrite Hsp, Hq0 in Hv. destruct Hv as [He Hs'].
    cbn [map]. rewrite run_cons. cbn [fst snd call].
    rewrite edges_of_app, He. cbn [app].
    apply IH; assumption.
Qed.

(** No edge while speaking and silence is not yet due. *)
Lemma speaking_prefix (ts : list Tick) (s : MicState) :
  0 < silence ->
  forallb (fun t => is_open (readyState t)) ts = true ->
  isSpeaking s = true ->
  holds_along Math_sqrt c (fun s t => negb (silence_due Math_sqrt c s t)) s ts
  = true ->
  edges_of (snd (run Math_sqrt c s (map Process ts))) = []
  /\ isSpeaking (fst (run Math_sqrt c s (map Process ts))) = true.
Proof.
  intros Hpos. revert s; induction ts as [|t ts IH]; intros s Hopen Hsp Hq.
  - split; [reflexivity | exact Hsp].
  - cbn [forallb] in Hopen. apply andb_true_iff in Hopen as [Ho Hopen].
    cbn [holds_along] in Hq. apply andb_true_iff in Hq as [Hq0 Hq].
    apply negb_true_iff in Hq0. rewrite (silence_due_spec s t Hpos) in Hq0.
    pose proof (tick_vad s t Ho) as [_ Hv]. cbv zeta in Hv.
    rewrite Hsp, Hq0 in Hv. destruct Hv as [He Hs'].
    cbn [map]. rewrite run_cons. cbn [fst snd call].
    rewrite edges_of_app, He. cbn [app].
    apply IH; assumption.
Qed.

(** The noise accumulators after a run of ticks: the ticks that pass the
    guard inside the calibration window have each added their RMS. *)
Lemma run_noise (ts : list Tick) (s : MicState) :
  let s1 := fst (run Math_sqrt c s (map Process ts)) in
  noiseCount s1
  = (noiseCount s + length (noise_samples Math_sqrt c ts))%nat
  /\ noiseSum s1 == noiseSum s + sum_of (noise_samples Math_sqrt c ts).
Proof.
  cbv zeta. revert s; induction ts as [|t ts IH]; intros s.
  - cbn [map run fst noise_samples filter length sum_of fold_right].
    split; [lia | lra].
  - cbn [map]. rewrite run_cons. cbn [fst call].
    destruct (IH (fst (tick s t))) as [IHn IHs]. rewrite IHn, IHs.
    unfold noise_samples. cbn [filter].
    assert (Hc : calibrates c t
                 = is_open (readyState t)
                   && ltb (clock_elapsed t - streamStartTime c) calibrationMs)
      by reflexivity.
    rewrite Hc.
    destruct (is_open (readyState t)) eqn:Ho.
    + rewrite (tick_open Math_sqrt c s t Ho). cbv zeta.
      cbn [fst noiseCount noiseSum andb]. unfold calibrate.
      destruct (ltb (clock_elapsed t - streamStartTime c) calibrationMs);
        cbn [fst snd map length sum_of fold_right].
      * fold (sum_of (map (rms_at Math_sqrt c)
                       (filter (calibrates c) ts))).
        split; [lia|]. unfold rms_at. ring.
      * split; reflexivity.
    + rewrite (tick_not_open Math_sqrt c s t Ho). cbn [fst andb].
      split; reflexivity.
Qed.

(** [lastSpeechTs] is the time of the last tick at or above the
    threshold, whether or not the detector was speaking. *)
Lemma run_lastSpeechTs (ts : list Tick) (s : MicState) :
  forallb (fun t => is_open (readyState t)) ts = true ->
  lastSpeechTs (fst (run Math_sqrt c s (map Process ts)))
  = last_above_threshold Math_sqrt c (lastSpeechTs s) s ts.
Proof.
  revert s; induction ts as [|t ts IH]; intros s Hopen; [reflexivity|].
  cbn [forallb] in Hopen. apply andb_true_iff in Hopen as [Ho Hopen].
  cbn [map last_above_threshold]. rewrite run_cons. cbn [fst call].
  rewrite (IH _ Hopen).
  pose proof (tick_vad s t Ho) as [Hl _]. cbv zeta in Hl.
  rewrite Hl. reflexivity.
Qed.

Lemma last_above_threshold_snoc (ts : list Tick) (t : Tick) (base : Q)
  (s : MicState) :
  let s1 := fst (run Math_sqrt c s (map Process ts)) in
  last_above_threshold Math_sqrt c base s (ts ++ [t])
  = if meets Math_sqrt c s1 t then clock_now t
    else last_above_threshold Math_sqrt c base s ts.
Proof.
  cbv zeta. revert base s; induction ts as [|u ts IH]; intros base s.
  - reflexivity.
  - cbn [app map last_above_threshold]. rewrite run_cons. cbn [fst call].
    apply IH.
Qed.

(** Read on the state, "never due" is [holds_along] of "not due". *)
Lemma never_due_spec (ts : list Tick) (s : MicState) :
  forallb (fun t => is_open (readyState t)) ts = true ->
  never_due Math_sqrt c (lastSpeechTs s) s ts
  = holds_along Math_sqrt c
      (fun s t => negb (silence_due Math_sqrt c s t)) s ts.
Proof.
  revert s; induction ts as [|t ts IH]; intros s Hopen; [reflexivity|].
  cbn [forallb] in Hopen. apply andb_true_iff in Hopen as [Ho Hopen].
  cbn [never_due holds_along]. cbv zeta.
  pose proof (tick_vad s t Ho) as [Hl _]. cbv zeta in Hl.
  unfold last_above in Hl. rewrite <- Hl, (IH _ Hopen). f_equal.
  unfold silence_due, last_above, ltb, geb. now rewrite <- Hl.
Qed.

(** C6.  On every processing tick the threshold is max(floor, estimate *
    3), where the estimate is the mean RMS of the ticks inside the first
    500 ms, the current one included; before any such tick the threshold
    is the floor, which for a non-negative floor is max(floor, 0 * 3).
    The defaults are 0.01 and 600 ms.  The comparison is inclusive: a
    silent detector sends [speech_start] at a tick exactly when
    [threshold <= rms], so after any run of ticks below the threshold the
    first tick that meets it carries the edge.  [lastSpeechTs] is the time
    of the last tick at or above the threshold, and a speaking detector
    sends [speech_end] at the first tick at which
    [now - last_above_threshold >= silenceMs]. *)
Theorem vad_threshold_and_edges (s : MicState) (ts : list Tick) (t : Tick) :
  let s1 := fst (run Math_sqrt c s (map Process ts)) in
  let rms := rms_at Math_sqrt c t in
  let elapsed := clock_elapsed t - streamStartTime c in
  let samples := noise_samples Math_sqrt c (ts ++ [t]) in
  let open := fun t => is_open (readyState t) in
  (* effective threshold, from the accumulators the tick finds *)
  ((elapsed < calibrationMs ->
      threshold_at Math_sqrt c s1 t
      == effective_threshold floor
           ((noiseSum s1 + rms) / inject_Z (Z.of_nat (S (noiseCount s1)))))
   /\ (calibrationMs <= elapsed -> noiseCount s1 <> 0%nat ->
         threshold_at Math_sqrt c s1 t
         == effective_threshold floor
              (noiseSum s1 / inject_Z (Z.of_nat (noiseCount s1))))
   /\ (calibrationMs <= elapsed -> noiseCount s1 = 0%nat ->
         threshold_at Math_sqrt c s1 t = floor))
  (* the estimate is the mean RMS of the ticks inside the window *)
  /\ (open t = true ->
      noiseCount (fst (tick s1 t)) = (noiseCount s + length samples)%nat
      /\ noiseSum (fst (tick s1 t)) == noiseSum s + sum_of samples
      /\ (0 <= floor ->
          threshold_at Math_sqrt c s1 t
          == effective_threshold floor
               (noise_floor_estimate (noiseSum s + sum_of samples)
                  (noiseCount s + length samples))))
  (* defaults *)
  /\ (energyThreshold (options c) = None -> floor = 1 # 100)
  /\ (silenceMs (options c) = None -> silence = 600)
  (* inclusive comparison *)
  /\ (open t = true -> isSpeaking s1 = false ->
        (threshold_at Math_sqrt c s1 t <= rms
           -> edges_of (snd (tick s1 t)) = [speech_start])
        /\ (rms < threshold_at Math_sqrt c s1 t
              -> edges_of (snd (tick s1 t)) = []))
  (* speech_start at the first tick that meets the threshold *)
  /\ (forallb open (ts ++ [t]) = true ->
      isSpeaking s = false ->
      holds_along Math_sqrt c (fun s t => negb (meets Math_sqrt c s t)) s ts
      = true ->
      threshold_at Math_sqrt c s1 t <= rms ->
      edges_of (snd (run Math_sqrt c s (map Process ts))) = []
      /\ edges_of (snd (tick s1 t)) = [speech_start])
  (* the time of the last tick at or above the threshold *)
  /\ (forallb open (ts ++ [t]) = true ->
      lastSpeechTs (fst (tick s1 t))
      = last_above_threshold Math_sqrt c (lastSpeechTs s) s (ts ++ [t])
      /\ (threshold_at Math_sqrt c s1 t <= rms ->
          lastSpeechTs (fst (tick s1 t)) = clock_now t)
      /\ (rms < threshold_at Math_sqrt c s1 t ->
          lastSpeechTs (fst (tick s1 t)) = lastSpeechTs s1))
  (* speech_end at the first tick where the silence is due *)
  /\ (forallb open (ts ++ [t]) = true ->
      isSpeaking s = true -> 0 < silence ->
      never_due Math_sqrt c (lastSpeechTs s) s ts = true ->
      silence
      <= clock_now t
         - last_above_threshold Math_sqrt c (lastSpeechTs s) s (ts ++ [t]) ->
      edges_of (snd (run Math_sqrt c s (map Process ts))) = []
      /\ edges_of (snd (tick s1 t)) = [speech_end]).
Proof.
  cbv zeta.
  set (s1 := fst (run Math_sqrt c s (map Process ts))).
  set (rms := rms_at Math_sqrt c t).
  assert (Hrun : fst (tick s1 t)
                 = fst (run Math_sqrt c s (map Process (ts ++ [t])))).
  { rewrite map_app, run_app. cbn [map fst]. rewrite run_cons.
    cbn [fst call run]. reflexivity. }
  assert (Hsplit : forall P : Tick -> bool,
             forallb P (ts ++ [t]) = true ->
             forallb P ts = true /\ P t = true).
  { intros P H. rewrite forallb_app in H.
    apply andb_true_iff in H as [H1 H2]. cbn [forallb] in H2.
    rewrite andb_true_r in H2. split; assumption. }
  split; [|split; [|split; [|split; [|split; [|split; [|split]]]]]].
  - (* threshold from the accumulators *)
    unfold threshold_at, calibrate. cbv zeta. fold rms.
    split; [|split].
    + intros Hin. apply ltb_true in Hin. rewrite Hin. cbn [fst snd].
      unfold threshold_of, effective_threshold.
      change (0 <? S (noiseCount s1))%nat with true. cbv zeta.
      apply Math_max_Qmax.
    + intros Hout Hn. apply ltb_false in Hout. rewrite Hout. cbn [fst snd].
      unfold threshold_of, effective_threshold.
      destruct (noiseCount s1) as [|n]; [now elim Hn|].
      change (0 <? S n)%nat with true. cbv zeta. apply Math_max_Qmax.
    + intros Hout Hn. apply ltb_false in Hout. rewrite Hout. cbn [fst snd].
      unfold threshold_of. now rewrite Hn.
  - (* the estimate over the run *)
    intros Ho.
    destruct (run_noise (ts ++ [t]) s) as [Hn Hs]. rewrite <- Hrun in Hn, Hs.
    split; [exact Hn|]. split; [exact Hs|].
    intros Hf.
    pose proof (threshold_at_spec s1 t) as Hth. cbv zeta in Hth.
    destruct Hth as (_ & _ & Hth). rewrite (Hth Hf).
    rewrite (tick_open Math_sqrt c s1 t Ho) in Hn, Hs. cbv zeta in Hn, Hs.
    cbn [fst noiseCount noiseSum] in Hn, Hs.
    change (rms_of Math_sqrt (downsample (sampleRate c) (input t)))
      with (rms_at Math_sqrt c t) in Hn, Hs.
    rewrite Hn.
    unfold effective_threshold, noise_floor_estimate.
    destruct (_ =? 0)%nat; [reflexivity|]. now rewrite Hs.
  - unfold energyThreshold_of; intros ->; reflexivity.
  - unfold silenceMs_of; intros ->; reflexivity.
  - (* inclusive comparison *)
    intros Ho Hsp. pose proof (tick_vad s1 t Ho) as [_ Hv]. cbv zeta in Hv.
    rewrite Hsp in Hv. split; intros Hcmp.
    + assert (Hm : meets Math_sqrt c s1 t = true) by (apply geb_true; exact Hcmp).
      rewrite Hm in Hv. apply Hv.
    + assert (Hm : meets Math_sqrt c s1 t = false) by (apply geb_false; exact Hcmp).
      rewrite Hm in Hv. apply Hv.
  - (* first tick that meets the threshold *)
    intros Hopen Hsp Hq Hcmp.
    destruct (Hsplit _ Hopen) as [Hopen' Ho].
    assert (Hm : meets Math_sqrt c s1 t = true) by (apply geb_true; exact Hcmp).
    destruct (quiet_prefix ts s Hopen' Hsp Hq) as [He Hs1]. fold s1 in Hs1.
    split; [exact He|].
    pose proof (tick_vad s1 t Ho) as [_ Hv]. cbv zeta in Hv.
    rewrite Hs1, Hm in Hv. apply Hv.
  - (* lastSpeechTs *)
    intros Hopen. destruct (Hsplit _ Hopen) as [Hopen' Ho].
    split; [rewrite Hrun; now apply run_lastSpeechTs|].
    pose proof (tick_vad s1 t Ho) as [Hl _]. cbv zeta in Hl.
    unfold last_above in Hl. split; intros Hcmp.
    + assert (Hm : meets Math_sqrt c s1 t = true) by (apply geb_true; exact Hcmp).
      now rewrite Hm in Hl.
    + assert (Hm : meets Math_sqrt c s1 t = false) by (apply geb_false; exact Hcmp).
      now rewrite Hm in Hl.
  - (* first tick at which the silence is due *)
    intros Hopen Hsp Hpos Hq Hd.
    destruct (Hsplit _ Hopen) as [Hopen' Ho].
    rewrite (never_due_spec ts s Hopen') in Hq.
    destruct (speaking_prefix ts s Hpos Hopen' Hsp Hq) as [He Hs1].
    fold s1 in Hs1. split; [exact He|].
    assert (Hdue : silence_due Math_sqrt c s1 t = true).
    { unfold silence_due, last_above. apply geb_true.
      rewrite (last_above_threshold_snoc ts t (lastSpeechTs s) s) in Hd.
      cbv zeta in Hd. fold s1 in Hd.
      unfold s1 at 2. rewrite (run_lastSpeechTs ts s Hopen'). exact Hd. }
    rewrite (silence_due_spec s1 t Hpos) in Hdue.
    pose proof (tick_vad s1 t Ho) as [_ Hv]. cbv zeta in Hv.
    rewrite Hs1, Hdue in Hv. apply Hv.
Qed.

End VadFacts.

(* ===================================================================== *)
(** * Edge alternation and the final [stop] *)
(* ===================================================================== *)

Lemma last_cons {A : Type} (a : list A) (e d : A) :
  last (e :: a) d = last a e.
Proof.
  revert e d; induction a as [|x a IH]; intros e d; [reflexivity|].
  change (last (e :: x :: a) d) with (last (x :: a) d).
  now rewrite !IH.
Qed.

Lemma alternates_from_app (l : Edge) (a b : list Edge) :
  alternates_from l (a ++ b)
  = alternates_from l a && alternates_from (last a l) b.
Proof.
  revert l; induction a as [|e a IH]; intros l; [reflexivity|].
  cbn [app alternates_from]. rewrite last_cons.
  destruct l, e; try reflexivity; apply IH.
Qed.

Section EdgeFacts.

Variable Math_sqrt : Q -> Q.
Variable c : Session.

Local Abbreviation tick := (onaudioprocess Math_sqrt c).

(** A tick sends an edge exactly when it flips [isSpeaking], and the edge
    is the one into the new state. *)
Lemma tick_edge_flips (s : MicState) (t : Tick) :
  edges_of (snd (tick s t))
  = if Bool.eqb (isSpeaking s) (isSpeaking (fst (tick s t)))
    then [] else [edge_into (isSpeaking (fst (tick s t)))].
Proof.
  destruct (is_open (readyState t)) eqn:Ho.
  - pose proof (tick_vad Math_sqrt c s t Ho) as [_ Hv]. cbv zeta in Hv.
    destruct (isSpeaking s);
      [destruct (negb _ && geb _ _) | destruct (meets _ _ _ _)];
      destruct Hv as [-> ->]; reflexivity.
  - rewrite (tick_not_open Math_sqrt c s t Ho). cbn [fst snd edges_of].
    now rewrite eqb_reflx.
Qed.

(** Over any run of ticks the edges alternate, continuing from the state
    the run started in, and the last edge tells the final state. *)
Lemma ticks_alternate (ts : list Tick) (s : MicState) :
  let r := run Math_sqrt c s (map Process ts) in
  alternates_from (edge_into (isSpeaking s)) (edges_of (snd r)) = true
  /\ last (edges_of (snd r)) (edge_into (isSpeaking s))
     = edge_into (isSpeaking (fst r)).
Proof.
  cbv zeta. revert s; induction ts as [|t ts IH]; intros s.
  - split; reflexivity.
  - cbn [map]. rewrite run_cons. cbn [fst snd call].
    rewrite edges_of_app, tick_edge_flips.
    specialize (IH (fst (tick s t))). destruct IH as [IHa IHl].
    set (s' := fst (tick s t)) in *.
    set (rest := edges_of (snd (run Math_sqrt c s' (map Process ts)))) in *.
    destruct (isSpeaking s) eqn:Hs, (isSpeaking s') eqn:Hs';
      cbn [Bool.eqb app edge_into alternates_from] in *.
    + split; assumption.
    + split; [assumption|]. rewrite last_cons. exact IHl.
    + split; [assumption|]. rewrite last_cons. exact IHl.
    + split; assumption.
Qed.

Lemma stop_edges (s : MicState) (r : ReadyState) :
  edges_of (snd (stop c s r))
  = if isSpeaking s && is_open r then [speech_end] else [].
Proof.
  unfold stop. cbn [snd]. rewrite edges_of_app.
  destruct (isSpeaking s && is_open r); [|reflexivity].
  destruct (onSpeechEnd (options c)); reflexivity.
Qed.

(** C7, as the code has it.  From the start of a session through its call
    of [stop], the edges alternate, beginning with [speech_start].  [stop]
    called while [isSpeaking] holds and the socket is OPEN sends exactly
    one [speech_end], before the device is released, and it closes the
    sequence; when the socket is not OPEN, [stop] sends nothing. *)
Theorem edges_alternate_through_stop (ts : list Tick) (r : ReadyState) :
  let before := run Math_sqrt c initial (map Process ts) in
  let whole := run Math_sqrt c initial (map Process ts ++ [Stop r]) in
  let final := stop c (fst before) r in
  alternates_from speech_end (edges_of (snd whole)) = true
  /\ (isSpeaking (fst before) = true -> is_open r = true ->
        edges_of (snd final) = [speech_end]
        /\ (exists pre, snd final = pre ++ [ReleaseDevice]
                        /\ edges_of pre = [speech_end])
        /\ last (edges_of (snd whole)) speech_end = speech_end)
  /\ (is_open r = false -> edges_of (snd final) = [])
  /\ (isSpeaking (fst before) = false ->
        edges_of (snd final) = []
        /\ last (edges_of (snd whole)) speech_end = speech_end).
Proof.
  cbv zeta. rewrite run_app. cbn [fst snd run call].
  set (before := run Math_sqrt c initial (map Process ts)).
  destruct (ticks_alternate ts initial) as [Halt Hlast].
  fold before in Halt, Hlast. cbn [initial isSpeaking edge_into] in Halt, Hlast.
  assert (Hwhole :
            edges_of (snd before
                      ++ snd (let '(s1, out1) := stop c (fst before) r in
                              (s1, out1 ++ [])))
            = edges_of (snd before) ++ edges_of (snd (stop c (fst before) r))).
  { rewrite edges_of_app. f_equal.
    destruct (stop c (fst before) r) as [s1 o1]. cbn [snd].
    now rewrite app_nil_r. }
  rewrite Hwhole, stop_edges. clear Hwhole.
  split; [|split; [|split]].
  - rewrite alternates_from_app, Halt, Hlast. cbn [andb].
    destruct (isSpeaking (fst before)), (is_open r); reflexivity.
  - intros Hsp Ho. rewrite Hsp, Ho. cbn [andb].
    split; [reflexivity|]. split.
    + unfold stop. cbn [snd]. rewrite Hsp, Ho. cbn [andb].
      eexists. split; [reflexivity|].
      destruct (onSpeechEnd (options c)); reflexivity.
    + rewrite last_last. reflexivity.
  - intros Ho. rewrite Ho, andb_false_r. reflexivity.
  - intros Hsp. rewrite Hsp. cbn [andb]. split; [reflexivity|].
    rewrite app_nil_r, Hlast, Hsp. reflexivity.
Qed.

(** C10.  A tick that finds the socket in any state but OPEN returns at
    the guard: it has no effect at all and leaves [isSpeaking],
    [lastSpeechTs], [noiseSum], [noiseCount] and [framesSent] as they
    were, whatever the clock reads; so does any run of such ticks. *)
Theorem tick_without_open_socket_is_noop (s : MicState) (t : Tick) :
  is_open (readyState t) = false ->
  tick s t = (s, [])
  /\ isSpeaking (fst (tick s t)) = isSpeaking s
  /\ lastSpeechTs (fst (tick s t)) = lastSpeechTs s
  /\ noiseSum (fst (tick s t)) = noiseSum s
  /\ noiseCount (fst (tick s t)) = noiseCount s
  /\ framesSent (fst (tick s t)) = framesSent s
  /\ (forall ts : list Tick,
        forallb (fun t => negb (is_open (readyState t))) ts = true ->
        run Math_sqrt c s (map Process ts) = (s, [])).
Proof.
  intros Ho. rewrite (tick_not_open Math_sqrt c s t Ho). cbn [fst].
  repeat (split; [reflexivity|]).
  intros ts. induction ts as [|t' ts IH]; intros Hall; [reflexivity|].
  cbn [forallb] in Hall. apply andb_true_iff in Hall as [H0 Hall].
  apply negb_true_iff in H0.
  cbn [map]. rewrite run_cons. cbn [call].
  rewrite (tick_not_open Math_sqrt c s t' H0). cbn [fst snd app].
  rewrite (IH Hall). reflexivity.
Qed.

End EdgeFacts.

(* ===================================================================== *)
(** * The detector on a concrete session *)
(* ===================================================================== *)

Lemma vad_threshold_and_edges_witness :
  (* one noise sample of RMS 1/256: the threshold is 3/256, above the floor *)
  (noise_samples sqrt_exact session ([hum_10; murmur_600] ++ [onset_700])
   = [1 # 256]
   /\ threshold_at sqrt_exact session
        (fst (run sqrt_exact session initial
                (map Process [hum_10; murmur_600]))) onset_700
      == 3 # 256)
  /\ (energyThreshold_of (options session) = 1 # 100
      /\ silenceMs_of (options session) = 600)
  (* the murmur lies above the floor and below the threshold: no edge;
     the onset meets the threshold exactly: speech_start *)
  /\ (energyThreshold_of (options session)
        < rms_at sqrt_exact session murmur_600
      /\ rms_at sqrt_exact session onset_700 == 3 # 256
      /\ edges_of (snd (run sqrt_exact session initial
                          (map Process [hum_10; murmur_600]))) = []
      /\ edges_of
           (snd (onaudioprocess sqrt_exact session
                   (fst (run sqrt_exact session initial
                           (map Process [hum_10; murmur_600]))) onset_700))
         = [speech_start])
  (* speech at 900 ms moves the last time at or above the threshold *)
  /\ (lastSpeechTs voiced = 700
      /\ lastSpeechTs
           (fst (onaudioprocess sqrt_exact session
                   (fst (run sqrt_exact session voiced (map Process [])))
                   loud_900))
         = 900)
  (* silence: nothing at 1400 ms, speech_end at 1500 ms = 900 + 600 *)
  /\ (edges_of (snd (run sqrt_exact session voiced
                       (map Process [loud_900; silence_1400]))) = []
      /\ edges_of
           (snd (onaudioprocess sqrt_exact session
                   (fst (run sqrt_exact session voiced
                           (map Process [loud_900; silence_1400])))
                   silence_1500))
         = [speech_end]).
Proof.
  pose proof (vad_threshold_and_edges sqrt_exact session initial
                [hum_10; murmur_600] onset_700) as Hstart.
  pose proof (vad_threshold_and_edges sqrt_exact session voiced
                [] loud_900) as Hloud.
  pose proof (vad_threshold_and_edges sqrt_exact session voiced
                [loud_900; silence_1400] silence_1500) as Hend.
  cbv zeta in Hstart, Hloud, Hend.
  destruct Hstart as (_ & Hest & Hfloor & Hsilence & _ & Hfirst & _).
  destruct Hloud as (_ & _ & _ & _ & _ & _ & Hlast & _).
  destruct Hend as (_ & _ & _ & _ & _ & _ & _ & Hdue).
  split; [|split; [|split; [|split]]].
  - split; [vm_compute; reflexivity|].
    destruct (Hest eq_refl) as (_ & _ & Hth).
    rewrite Hth by discriminate. vm_compute. reflexivity.
  - split; [apply Hfloor | apply Hsilence]; reflexivity.
  - split; [reflexivity|]. split; [reflexivity|].
    apply Hfirst; try (vm_compute; reflexivity).
    unfold Qle; vm_compute; discriminate.
  - split; [vm_compute; reflexivity|].
    destruct (Hlast eq_refl) as (_ & Hnow & _).
    rewrite Hnow; [reflexivity|].
    unfold Qle; vm_compute; discriminate.
  - apply Hdue; try (vm_compute; reflexivity).
    unfold Qle; vm_compute; discriminate.
Defined.

Lemma edges_alternate_through_stop_witness :
  (isSpeaking talking = true
   /\ is_open OPEN = true
   /\ edges_of (snd (stop session talking OPEN)) = [speech_end]
   /\ edges_of (snd (run sqrt_exact session initial
                       (map Process [noise_10; speech_600] ++ [Stop OPEN])))
      = [speech_start; speech_end])
  /\ (is_open CLOSING = false
      /\ edges_of (snd (stop session talking CLOSING)) = [])
  /\ (isSpeaking (fst (run sqrt_exact session initial
                         (map Process [noise_10]))) = false
      /\ edges_of (snd (stop session
                          (fst (run sqrt_exact session initial
                                  (map Process [noise_10]))) OPEN)) = []).
Proof.
  assert (Hs : isSpeaking talking = true) by (vm_compute; reflexivity).
  assert (Ho : is_open OPEN = true) by reflexivity.
  assert (Hc : is_open CLOSING = false) by reflexivity.
  assert (Hq : isSpeaking (fst (run sqrt_exact session initial
                                  (map Process [noise_10]))) = false)
    by (vm_compute; reflexivity).
  split; [|split].
  - split; [exact Hs|]. split; [exact Ho|].
    destruct (edges_alternate_through_stop sqrt_exact session
                [noise_10; speech_600] OPEN) as (_ & Hopen & _).
    split; [exact (proj1 (Hopen Hs Ho))|].
    vm_compute. reflexivity.
  - split; [exact Hc|].
    destruct (edges_alternate_through_stop sqrt_exact session
                [noise_10; speech_600] CLOSING) as (_ & _ & Hclosed & _).
    exact (Hclosed Hc).
  - split; [exact Hq|].
    destruct (edges_alternate_through_stop sqrt_exact session
                [noise_10] OPEN) as (_ & _ & _ & Hsilent).
    exact (proj1 (Hsilent Hq)).
Defined.

(** The claim that [stop] during speech always sends the closing
    [speech_end] fails when the socket is no longer OPEN: the guard of
    [stop] skips the send, and the session's only edge stays a
    [speech_start]. *)
Lemma stop_on_closed_socket_sends_no_speech_end :
  isSpeaking talking = true
  /\ edges_of (snd (stop session talking CLOSED)) = []
  /\ edges_of (snd (stop session talking CLOSED)) <> [speech_end]
  /\ edges_of (snd (run sqrt_exact session initial
                      [Process noise_10; Process speech_600; Stop CLOSED]))
     = [speech_start].
Proof.
  split; [vm_compute; reflexivity|].
  split; [vm_compute; reflexivity|].
  split; [vm_compute; discriminate|].
  vm_compute; reflexivity.
Qed.

(** [stop] leaves [isSpeaking] as it is, so a second call on an open
    socket would send [speech_end] again; page.tsx drops the handle after
    the first call. *)
Example second_stop_repeats_speech_end :
  edges_of (snd (run sqrt_exact session initial
                   [Process noise_10; Process speech_600;
                    Stop OPEN; Stop OPEN]))
  = [speech_start; speech_end; speech_end].
Proof. vm_compute. reflexivity. Qed.

Lemma tick_without_open_socket_is_noop_witness :
  is_open (readyState (tick_of CLOSED 12 (1 # 2) 10)) = false
  /\ onaudioprocess sqrt_exact session initial (tick_of CLOSED 12 (1 # 2) 10)
     = (initial, []).
Proof.
  assert (H : is_open (readyState (tick_of CLOSED 12 (1 # 2) 10)) = false)
    by reflexivity.
  split; [exact H|].
  exact (proj1 (tick_without_open_socket_is_noop sqrt_exact session
                  initial (tick_of CLOSED 12 (1 # 2) 10) H)).
Defined.

(** A ScriptProcessor buffer of 1024 samples at 48 kHz: 341 samples after
    resampling, one frame sent, 21 samples dropped. *)
Example buffer_of_1024_samples :
  length (downsample 48000 (repeat (1 # 2) 1024)) = 341%nat
  /\ frames (encode (downsample 48000 (repeat (1 # 2) 1024)))
     = [repeat 16383%Z 320].
Proof. split; vm_compute; reflexivity. Qed.

(* ===================================================================== *)
(** * Playback scheduler: one gapless timeline *)
(* ===================================================================== *)

Module PageFacts.
Import Page.

Lemma duration_nonneg (b : AudioBuffer) : 0 <= duration b.
Proof. unfold duration, Qle. simpl. lia. Qed.

Lemma intervals_app (tr1 tr2 : list Obs) :
  intervals (tr1 ++ tr2) = intervals tr1 ++ intervals tr2.
Proof.
  induction tr1 as [|o tr1 IH]; [reflexivity|].
  destruct o; cbn [app intervals]; now rewrite ?IH.
Qed.

Lemma disjoint_from_snoc (e a b : Q) (l : list (Q * Q)) :
  disjoint_from e l -> e <= a -> (forall x, In x l -> snd x <= a) ->
  disjoint_from e (l ++ [(a, b)]).
Proof.
  revert e; induction l as [|[a0 b0] l IH]; intros e Hd He Hall.
  - cbn. split; [exact He | exact I].
  - cbn [app disjoint_from] in *. destruct Hd as [H0 Hd].
    split; [exact H0|]. apply IH.
    + exact Hd.
    + apply (Hall (a0, b0)). now left.
    + intros x Hx. apply Hall. now right.
Qed.

Lemma non_overlapping_snoc (a b : Q) (l : list (Q * Q)) :
  non_overlapping l -> (forall x, In x l -> snd x <= a) ->
  non_overlapping (l ++ [(a, b)]).
Proof.
  destruct l as [|[a0 b0] l]; intros Hn Hall; [exact I|].
  cbn [app non_overlapping] in *. apply disjoint_from_snoc.
  - exact Hn.
  - apply (Hall (a0, b0)). now left.
  - intros x Hx. apply Hall. now right.
Qed.

Lemma total_snoc (a b : Q) (l : list (Q * Q)) :
  total (l ++ [(a, b)]) == total l + (b - a).
Proof.
  induction l as [|[a0 b0] l IH]; cbn [app total].
  - ring.
  - rewrite IH. ring.
Qed.

Lemma last_in_cons {A : Type} (l : list A) (d : A) : In (last l d) (d :: l).
Proof.
  revert d; induction l as [|x l IH]; intros d; [now left|].
  right. rewrite last_cons. apply IH.
Qed.

Lemma span_snoc (a0 b0 a b : Q) (l : list (Q * Q)) :
  span (((a0, b0) :: l) ++ [(a, b)]) = b - a0.
Proof. cbn [app span]. now rewrite last_last. Qed.

Lemma view_go_idle (a : list nat) (s : State) : view (go_idle a s) = view s.
Proof.
  unfold view, go_idle, observe. cbn. rewrite intervals_app. cbn.
  now rewrite app_nil_r.
Qed.

Lemma view_fold_go_idle (due : list (list nat)) (s : State) :
  view (fold_left (fun acc a => go_idle a acc) due s) = view s.
Proof.
  revert s; induction due as [|a due IH]; intros s; [reflexivity|].
  cbn [fold_left]. now rewrite IH, view_go_idle.
Qed.

Lemma view_run_microtasks (s : State) : view (run_microtasks s) = view s.
Proof. unfold run_microtasks. now rewrite view_fold_go_idle. Qed.

Lemma view_on_ended (k : nat) (s : State) : view (on_ended k s) = view s.
Proof.
  unfold on_ended. destruct (_ && _); [|reflexivity].
  unfold view, observe. cbn. rewrite intervals_app. cbn.
  now rewrite app_nil_r.
Qed.

Lemma view_on_control (m : ControlType) (s : State) :
  view (on_control m s) = view s.
Proof.
  unfold on_control. destruct m; try reflexivity.
  destruct (0 <? _)%nat; [reflexivity|]. now rewrite view_go_idle.
Qed.

(** ** One call of [scheduleBuffer] *)

Lemma scheduleBuffer_step (now : Q) (b : AudioBuffer) (s : State) :
  let head0 := playHeadRef (refs (getAudioContext now s)) in
  let start := if ltb head0 now then now else head0 in
  trace (rt (scheduleBuffer now b s))
  = trace (rt s) ++ [Started (created (rt s)) start b]
  /\ start == Qmax head0 now
  /\ playHeadRef (refs (scheduleBuffer now b s)) = start + duration b
  /\ audioContextRef (refs (scheduleBuffer now b s)) = true.
Proof.
  cbv zeta. unfold scheduleBuffer, getAudioContext.
  destruct (audioContextRef (refs s)) eqn:Hctx; cbn.
  - rewrite Hctx. repeat split; try reflexivity.
    destruct (ltb (playHeadRef (refs s)) now) eqn:E.
    + apply ltb_true in E. symmetry. apply Q.max_r. lra.
    + apply ltb_false in E. symmetry. now apply Q.max_l.
  - repeat split; try reflexivity.
    destruct (ltb now now) eqn:E.
    + apply ltb_true in E. lra.
    + symmetry. apply Q.max_l. lra.
Qed.

Lemma getAudioContext_timeline (now : Q) (s : State) :
  timeline (view s) -> timeline (view (getAudioContext now s)).
Proof.
  unfold getAudioContext, view.
  destruct (audioContextRef (refs s)) eqn:Hctx; [now rewrite Hctx|].
  cbn. intros (Hnil & _). rewrite (Hnil eq_refl).
  repeat split; try discriminate; try exact I.
  intros x [].
Qed.

Lemma scheduleBuffer_timeline (now : Q) (b : AudioBuffer) (s : State) :
  timeline (view s) -> timeline (view (scheduleBuffer now b s)).
Proof.
  intros Ht. apply (getAudioContext_timeline now) in Ht.
  destruct (scheduleBuffer_step now b s) as (Htr & Hmax & Hhead & Hctx).
  cbv zeta in *. unfold view in *. rewrite Htr, Hhead, Hctx, intervals_app.
  assert (Etr : trace (rt (getAudioContext now s)) = trace (rt s)).
  { unfold getAudioContext. now destruct (audioContextRef (refs s)). }
  rewrite Etr in Ht.
  set (head0 := playHeadRef (refs (getAudioContext now s))) in *.
  set (start := if ltb head0 now then now else head0) in *.
  set (l := intervals (trace (rt s))) in *.
  destruct Ht as (_ & Hno & Hends & Hspan).
  assert (Hge : head0 <= start).
  { rewrite Hmax. apply Q.le_max_l. }
  pose proof (duration_nonneg b) as Hd.
  cbn [intervals].
  split; [discriminate|]. split; [|split].
  - apply non_overlapping_snoc; [exact Hno|].
    intros x Hx. specialize (Hends x Hx). lra.
  - intros x Hx. apply in_app_or in Hx as [Hx | [<- | []]].
    + specialize (Hends x Hx). lra.
    + cbn [snd]. lra.
  - rewrite total_snoc. destruct l as [|[a0 b0] l'] eqn:El.
    + cbn. setoid_replace (0 + (start + duration b - start))
        with (start + duration b - start) by ring. lra.
    + rewrite span_snoc.
      assert (Hlast : snd (last l' (a0, b0)) <= head0).
      { apply Hends. apply last_in_cons. }
      cbn [span] in Hspan. lra.
Qed.

Lemma processBinaryChunk_timeline (int16 : list Z) (now0 now1 : Q) (s : State) :
  timeline (view s) -> timeline (view (processBinaryChunk int16 now0 now1 s)).
Proof.
  intros Ht. unfold processBinaryChunk.
  destruct (map decode_sample int16).
  - now apply getAudioContext_timeline.
  - apply scheduleBuffer_timeline. now apply getAudioContext_timeline.
Qed.

Lemma handler_timeline (e : Event) (s : State) :
  ends_call e = false ->
  timeline (view s) -> timeline (view (handler e s)).
Proof.
  intros He Ht. destruct e; cbn [handler]; try discriminate He;
    try exact Ht.
  - now apply processBinaryChunk_timeline.
  - destruct m as [m|]; [|exact Ht]. now rewrite view_on_control.
  - unfold on_vad_edge. now destruct (negb _).
  - unfold on_vad_edge. now destruct (negb _).
  - now rewrite view_on_ended.
Qed.

Lemma run_snoc (s : State) (es : list Event) (e : Event) :
  run s (es ++ [e]) = step (run s es) e.
Proof. unfold run. now rewrite fold_left_app. Qed.

Lemma run_timeline (es : list Event) :
  forallb (fun e => negb (ends_call e)) es = true ->
  timeline (view (run initial es)).
Proof.
  induction es as [|e es IH] using rev_ind; intros Hall.
  - cbn. repeat split; try exact I; try reflexivity.
    + intros x []. 
    + apply Qle_refl.
  - rewrite forallb_app in Hall. apply andb_true_iff in Hall as [Hes He].
    cbn [forallb] in He. rewrite andb_true_r in He.
    apply negb_true_iff in He.
    rewrite run_snoc. unfold step. rewrite view_run_microtasks.
    apply handler_timeline; [exact He | now apply IH].
Qed.

(** C3.  [scheduleBuffer] starts each buffer at max(play head, now), the
    play head being moved up to now when it has fallen behind, and then
    advances the play head by exactly the buffer's duration; a binary
    message schedules its samples as one buffer at 16 kHz.  Hence, over
    any sequence of events of one call, the scheduled intervals never
    overlap and the span from the first start to the last end is at least
    the sum of the durations. *)
Theorem playback_is_ordered_and_disjoint
  (es : list Event) (s0 : State) (now : Q) (b : AudioBuffer)
  (x : Z) (int16 : list Z) (now0 now1 : Q) :
  let head := playHeadRef (refs (getAudioContext now s0)) in
  let start := if ltb head now then now else head in
  (trace (rt (scheduleBuffer now b s0))
   = trace (rt s0) ++ [Started (created (rt s0)) start b]
   /\ start == Qmax head now
   /\ playHeadRef (refs (scheduleBuffer now b s0)) = start + duration b)
  /\ (exists t,
        intervals (trace (rt (step s0 (WsBinary (x :: int16) now0 now1))))
        = intervals (trace (rt s0))
          ++ [(t, t + (Z.of_nat (length (x :: int16)) # 16000))])
  /\ (forallb (fun e => negb (ends_call e)) es = true ->
      non_overlapping (intervals (trace (rt (run initial es))))
      /\ total (intervals (trace (rt (run initial es))))
         <= span (intervals (trace (rt (run initial es))))).
Proof.
  cbv zeta. split; [|split].
  - destruct (scheduleBuffer_step now b s0) as (Htr & Hmax & Hhead & _).
    repeat split; assumption.
  - unfold step. 
    assert (Hv : forall s, intervals (trace (rt s)) = snd (view s))
      by reflexivity.
    rewrite Hv, view_run_microtasks, <- Hv.
    cbn [handler]. unfold processBinaryChunk. cbn [map].
    set (s1 := getAudioContext now0 _).
    destruct (scheduleBuffer_step now1
                {| channelData := decode_sample x :: map decode_sample int16;
                   bufferSampleRate := 16000 |} s1) as (Htr & _).
    cbv zeta in Htr. rewrite Htr, intervals_app. cbn [intervals].
    eexists. f_equal.
    + subst s1. unfold getAudioContext. cbn.
      now destruct (audioContextRef (refs s0)).
    + unfold duration. cbn [channelData bufferSampleRate length].
      rewrite length_map. reflexivity.
  - intros Hall. pose proof (run_timeline es Hall) as Ht.
    unfold view, timeline in Ht. destruct Ht as (_ & Hno & _ & Hspan).
    split; assumption.
Qed.

End PageFacts.

(* ===================================================================== *)
(** * Session coordinator: end of utterance and echo guard *)
(* ===================================================================== *)

Module CoordinatorFacts.
Import Page PageFacts.

Lemma idle_after_snoc (tr : list Obs) (o : Obs) :
  idle_after_completions tr ->
  (forall a, o = Idle a -> forall k, In k a -> In (Completed k) tr) ->
  idle_after_completions (tr ++ [o]).
Proof.
  intros Htr Ho before awaited rest E k Hk.
  destruct rest as [|x rest'] using rev_ind.
  - apply app_inj_tail in E as [-> ->]. now apply (Ho awaited).
  - clear IHrest'. rewrite app_comm_cons, app_assoc in E.
    apply app_inj_tail in E as [E _].
    apply (Htr before awaited rest' E k Hk).
Qed.

Lemma is_settled_In (s : State) (k : nat) :
  is_settled s k = true <-> In k (settled (rt s)).
Proof.
  unfold is_settled. rewrite existsb_exists. split.
  - intros (x & Hx & E). apply Nat.eqb_eq in E. now subst.
  - intros H. exists k. split; [exact H | apply Nat.eqb_refl].
Qed.

Lemma ready_In (s : State) (a : list nat) :
  ready s a = true <-> forall k, In k a -> In k (settled (rt s)).
Proof.
  unfold ready. rewrite forallb_forall. split; intros H k Hk.
  - apply is_settled_In. now apply H.
  - apply is_settled_In. now apply H.
Qed.

(** ** The trace and the resolved promises *)

Lemma traced_observe (o : Obs) (s : State) :
  traced s ->
  (forall a, o = Idle a -> forall k, In k a -> In k (settled (rt s))) ->
  traced (observe o s).
Proof.
  intros [Hi Hs] Ho. split.
  - cbn. apply idle_after_snoc; [exact Hi|].
    intros a E k Hk. apply Hs. now apply (Ho a).
  - intros k Hk. cbn in *. apply in_or_app. left. now apply Hs.
Qed.

Lemma traced_go_idle (a : list nat) (s : State) :
  traced s -> (forall k, In k a -> In k (settled (rt s))) ->
  traced (go_idle a s).
Proof.
  intros Ht Ha. unfold go_idle. apply traced_observe.
  - exact Ht.
  - intros a' E. injection E as <-. exact Ha.
Qed.

Lemma traced_fold_go_idle (due : list (list nat)) (s : State) :
  traced s ->
  (forall a, In a due -> forall k, In k a -> In k (settled (rt s))) ->
  traced (fold_left (fun acc a => go_idle a acc) due s)
  /\ settled (rt (fold_left (fun acc a => go_idle a acc) due s))
     = settled (rt s)
  /\ reactions (rt (fold_left (fun acc a => go_idle a acc) due s))
     = reactions (rt s).
Proof.
  revert s; induction due as [|a due IH]; intros s Ht Hdue.
  - repeat split; try reflexivity; apply Ht.
  - cbn [fold_left].
    destruct (IH (go_idle a s)) as (H1 & H2 & H3).
    + apply traced_go_idle; [exact Ht|]. apply Hdue. now left.
    + intros a' Ha'. apply Hdue. now right.
    + repeat split; try assumption; apply H1.
Qed.

Lemma traced_run_microtasks (s : State) :
  traced s -> traced (run_microtasks s) /\ no_reaction_ready (run_microtasks s).
Proof.
  intros Ht. unfold run_microtasks.
  set (s1 := with_rt s _).
  destruct (traced_fold_go_idle (filter (ready s) (reactions (rt s))) s1)
    as (H1 & H2 & H3).
  - exact Ht.
  - intros a Ha. apply filter_In in Ha as [_ Ha].
    exact (proj1 (ready_In s a) Ha).
  - split; [exact H1|].
    intros a Ha. rewrite H3 in Ha. cbn in Ha.
    apply filter_In in Ha as [_ Ha]. apply negb_true_iff in Ha.
    unfold ready, is_settled in *. rewrite H2. exact Ha.
Qed.

Lemma traced_stop (s : State) : traced s -> traced (stopPlaybackImmediately s).
Proof.
  intros Ht. unfold stopPlaybackImmediately.
  assert (H : traced (fold_left (fun acc node => observe (Halted node) acc)
                        (sourceNodesRef (refs s)) s)).
  { generalize (sourceNodesRef (refs s)) as l. intros l.
    revert s Ht; induction l as [|n l IH]; intros s Ht; [exact Ht|].
    cbn [fold_left]. apply IH. apply traced_observe; [exact Ht|].
    intros a E; discriminate E. }
  exact H.
Qed.

Lemma traced_getAudioContext (now : Q) (s : State) :
  traced s -> traced (getAudioContext now s).
Proof.
  intros H. unfold getAudioContext. now destruct (audioContextRef (refs s)).
Qed.

Lemma traced_scheduleBuffer (now : Q) (b : AudioBuffer) (s : State) :
  traced s -> traced (scheduleBuffer now b s).
Proof.
  intros Ht. unfold scheduleBuffer. apply traced_observe.
  - apply (traced_getAudioContext now) in Ht. exact Ht.
  - intros a E; discriminate E.
Qed.

Lemma traced_handler (e : Event) (s : State) :
  traced s -> traced (handler e s).
Proof.
  intros Ht. destruct e; cbn [handler]; try exact Ht.
  - (* a binary message *)
    unfold processBinaryChunk.
    destruct (map decode_sample int16).
    + apply traced_getAudioContext. exact Ht.
    + apply traced_scheduleBuffer, traced_getAudioContext. exact Ht.
  - (* a control message *)
    destruct m as [m|]; [|exact Ht]. unfold on_control.
    destruct m; try exact Ht.
    destruct (sourceEndPromisesRef (refs s)) as [|p ps] eqn:Hp; cbn.
    + apply traced_go_idle; [exact Ht|]. intros k [].
    + exact Ht.
  - unfold on_vad_edge. now destruct (negb _).
  - unfold on_vad_edge. now destruct (negb _).
  - (* a source node has ended *)
    unfold on_ended. destruct (_ && _); [|exact Ht].
    destruct Ht as [Hi Hs]. split.
    + cbn. apply idle_after_snoc; [exact Hi|]. intros a E; discriminate E.
    + intros k Hk. cbn in *. apply in_or_app. destruct Hk as [<- | Hk].
      * right. now left.
      * left. now apply Hs.
  - (* the call is ended *)
    apply traced_stop in Ht. exact Ht.
Qed.

Lemma reachable_traced (es : list Event) :
  traced (run initial es) /\ no_reaction_ready (run initial es).
Proof.
  induction es as [|e es IH] using rev_ind.
  - split; [split|].
    + intros before awaited rest E. now destruct before.
    + intros k [].
    + intros a [].
  - rewrite run_snoc. unfold step. apply traced_run_microtasks.
    apply traced_handler. apply IH.
Qed.

(** ** The phase and the TTS flag *)

Lemma processBinaryChunk_frame (int16 : list Z) (now0 now1 : Q) (s : State) :
  ui (processBinaryChunk int16 now0 now1 s) = ui s
  /\ ttsActiveRef (refs (processBinaryChunk int16 now0 now1 s))
     = ttsActiveRef (refs s).
Proof.
  unfold processBinaryChunk, scheduleBuffer, getAudioContext.
  destruct (map decode_sample int16);
    destruct (audioContextRef (refs s)) eqn:E; cbn; rewrite ?E; cbn;
    split; reflexivity.
Qed.

Lemma guard_fold_go_idle (due : list (list nat)) (s : State) :
  speaking_means_tts s ->
  speaking_means_tts (fold_left (fun acc a => go_idle a acc) due s).
Proof.
  revert s; induction due as [|a due IH]; intros s Hs; [exact Hs|].
  cbn [fold_left]. apply IH. intros H; discriminate H.
Qed.

Lemma guard_step (e : Event) (s : State) :
  speaking_means_tts s -> speaking_means_tts (step s e).
Proof.
  intros Hs. unfold step, run_microtasks. apply guard_fold_go_idle.
  unfold speaking_means_tts. cbn [with_rt ui refs].
  destruct e; cbn [handler]; try (intros H; discriminate H);
    try exact Hs; try reflexivity.
  - destruct (processBinaryChunk_frame int16 now0 now1
                (setCallPhase speaking
                   (setIsSpeaking true (set_ttsActive true s)))) as [_ ->].
    reflexivity.
  - destruct m as [[| |]|]; try exact Hs; try reflexivity.
    unfold on_control. destruct (0 <? _)%nat; [exact Hs|].
    intros H; discriminate H.
  - unfold on_vad_edge. destruct (ttsActiveRef (refs s)) eqn:E; cbn.
    + now rewrite E.
    + intros H; discriminate H.
  - unfold on_vad_edge. destruct (ttsActiveRef (refs s)) eqn:E; cbn.
    + now rewrite E.
    + intros H; discriminate H.
  - unfold on_ended. destruct (_ && _); exact Hs.
Qed.

Lemma reachable_guard (es : list Event) :
  speaking_means_tts (run initial es).
Proof.
  induction es as [|e es IH] using rev_ind.
  - intros H; discriminate H.
  - rewrite run_snoc. now apply guard_step.
Qed.

(** ** Nodes in flight and the promises [tts_end] copies *)

Lemma refs_fold_go_idle (due : list (list nat)) (s : State) :
  in_flight_are_awaited s ->
  in_flight_are_awaited (fold_left (fun acc a => go_idle a acc) due s).
Proof.
  revert s; induction due as [|a due IH]; intros s Hs; [exact Hs|].
  cbn [fold_left]. apply IH. exact Hs.
Qed.

Lemma awaited_getAudioContext (now : Q) (s : State) :
  in_flight_are_awaited s ->
  in_flight_are_awaited (getAudioContext now s)
  /\ audioContextRef (refs (getAudioContext now s)) = true.
Proof.
  intros [Hi Hn]. unfold getAudioContext.
  destruct (audioContextRef (refs s)) eqn:E.
  - split; [|exact E]. split; [exact Hi|].
    intros H. rewrite E in H. discriminate H.
  - split; [|reflexivity]. unfold in_flight_are_awaited. cbn.
    rewrite (Hn eq_refl). split; [intros x [] | discriminate].
Qed.

Lemma scheduleBuffer_refs (now : Q) (b : AudioBuffer) (s : State) :
  let r := refs (getAudioContext now s) in
  sourceNodesRef (refs (scheduleBuffer now b s))
  = sourceNodesRef r ++ [created (rt s)]
  /\ sourceEndPromisesRef (refs (scheduleBuffer now b s))
     = sourceEndPromisesRef r ++ [created (rt s)]
  /\ audioContextRef (refs (scheduleBuffer now b s)) = true.
Proof.
  cbv zeta. unfold scheduleBuffer, getAudioContext.
  destruct (audioContextRef (refs s)) eqn:E; cbn; rewrite ?E;
    repeat split; reflexivity.
Qed.

Lemma awaited_scheduleBuffer (now : Q) (b : AudioBuffer) (s : State) :
  in_flight_are_awaited s -> in_flight_are_awaited (scheduleBuffer now b s).
Proof.
  intros Hs. destruct (awaited_getAudioContext now s Hs) as [[Hi _] _].
  destruct (scheduleBuffer_refs now b s) as (Hn & Hp & Hc). cbv zeta in *.
  unfold in_flight_are_awaited. rewrite Hn, Hp, Hc.
  split; [|discriminate].
  intros x Hx. apply in_app_or in Hx as [Hx | Hx]; apply in_or_app.
  - left. now apply Hi.
  - now right.
Qed.

Lemma awaited_handler (e : Event) (s : State) :
  in_flight_are_awaited s -> in_flight_are_awaited (handler e s).
Proof.
  intros Hs. destruct e; cbn [handler]; try exact Hs.
  - unfold processBinaryChunk.
    destruct (awaited_getAudioContext now0
                (setCallPhase speaking
                   (setIsSpeaking true (set_ttsActive true s))) Hs)
      as [H1 Hctx].
    destruct (map decode_sample int16); [exact H1|].
    now apply awaited_scheduleBuffer.
  - destruct m as [[| |]|]; try exact Hs.
    unfold on_control. destruct (0 <? _)%nat; exact Hs.
  - unfold on_vad_edge. now destruct (negb _).
  - unfold on_vad_edge. now destruct (negb _).
  - unfold on_ended. destruct (_ && _); [|exact Hs].
    destruct Hs as [Hi Hn]. split; cbn.
    + intros x Hx. apply filter_In in Hx as [Hx _]. now apply Hi.
    + intros H. now rewrite (Hn H).
  - split; cbn; [intros x [] | reflexivity].
Qed.

Lemma reachable_awaited (es : list Event) :
  in_flight_are_awaited (run initial es).
Proof.
  induction es as [|e es IH] using rev_ind.
  - split; [intros x [] | reflexivity].
  - rewrite run_snoc. unfold step, run_microtasks.
    apply refs_fold_go_idle. apply (awaited_handler e) in IH. exact IH.
Qed.

(** ** Microtasks when nothing is ready *)

Lemma filter_none {A : Type} (f : A -> bool) (l : list A) :
  (forall a, In a l -> f a = false) ->
  filter f l = [] /\ filter (fun a => negb (f a)) l = l.
Proof.
  induction l as [|x l IH]; intros H; [split; reflexivity|].
  cbn [filter]. rewrite (H x (or_introl eq_refl)). cbn [negb].
  destruct IH as [-> ->]; [|split; reflexivity].
  intros a Ha. apply H. now right.
Qed.

Lemma run_microtasks_idle (s : State) :
  no_reaction_ready s -> run_microtasks s = s.
Proof.
  intros H. unfold run_microtasks.
  destruct (filter_none (ready s) (reactions (rt s)) H) as [-> ->].
  destruct s as [r u [cr st re tr]]. reflexivity.
Qed.

Lemma go_idle_quiet (a : list nat) (s : State) :
  no_reaction_ready s -> no_reaction_ready (go_idle a s).
Proof. intros H b Hb. exact (H b Hb). Qed.

(** What the [tts_end] task does in a state between two tasks. *)
Lemma tts_end_step (s : State) :
  no_reaction_ready s ->
  let pending := sourceEndPromisesRef (refs s) in
  let s' := step s (WsControl (Some tts_end)) in
  if ready s pending
  then trace (rt s') = trace (rt s) ++ [Idle pending]
       /\ ttsActiveRef (refs s') = false
       /\ isSpeaking (ui s') = false
       /\ callPhase (ui s') = listening
  else trace (rt s') = trace (rt s)
       /\ reactions (rt s') = reactions (rt s) ++ [pending]
       /\ ui s' = ui s
       /\ ttsActiveRef (refs s') = ttsActiveRef (refs s).
Proof.
  intros Hq. cbv zeta. unfold step. cbn [handler]. unfold on_control.
  destruct (sourceEndPromisesRef (refs s)) as [|p ps] eqn:Hp.
  - cbn [length Nat.ltb Nat.leb ready forallb].
    rewrite (run_microtasks_idle _ (go_idle_quiet [] s Hq)).
    repeat split; reflexivity.
  - cbn [length Nat.ltb Nat.leb].
    unfold run_microtasks, then_all. cbn [rt with_rt reactions].
    rewrite !filter_app. cbn [filter].
    change (ready (with_rt s _)) with (ready s).
    destruct (filter_none (ready s) (reactions (rt s)) Hq) as [-> ->].
    destruct (ready s (p :: ps)) eqn:Hr; cbn [negb app fold_left].
    + repeat split; reflexivity.
    + repeat split; reflexivity.
Qed.

(** What each reaction waits for.  The assignments that end the speaking
    phase run only after the completion of every buffer whose end promise
    their own [tts_end] copied: in every trace a session can produce, each
    [Idle] is preceded by the [Completed] of all it awaited.  The copied
    promises include every node still in flight.  On [tts_end] the phase
    ends in the same task only when all of them are already resolved;
    otherwise nothing observable changes and the reaction is left waiting.
    A reaction left by an earlier [tts_end] is not withdrawn by a later
    one. *)
Lemma idle_follows_the_promises_it_copied (es : list Event) :
  let s := run initial es in
  let pending := sourceEndPromisesRef (refs s) in
  let s' := step s (WsControl (Some tts_end)) in
  idle_after_completions (trace (rt s))
  /\ incl (sourceNodesRef (refs s)) pending
  /\ (if ready s pending
      then trace (rt s') = trace (rt s) ++ [Idle pending]
           /\ ttsActiveRef (refs s') = false
           /\ isSpeaking (ui s') = false
           /\ callPhase (ui s') = listening
      else trace (rt s') = trace (rt s)
           /\ reactions (rt s') = reactions (rt s) ++ [pending]
           /\ ui s' = ui s
           /\ ttsActiveRef (refs s') = ttsActiveRef (refs s)).
Proof.
  cbv zeta. destruct (reachable_traced es) as [[Hi _] Hq].
  split; [exact Hi|]. split; [apply reachable_awaited|].
  now apply tts_end_step.
Qed.

Lemma vad_edge_guarded (s : State) (e : Event) :
  no_reaction_ready s -> is_vad_edge e = true ->
  ttsActiveRef (refs s) = true -> step s e = s.
Proof.
  intros Hq He Ht. unfold step.
  destruct e; try discriminate He; cbn [handler]; unfold on_vad_edge;
    rewrite Ht; cbn [negb]; now apply run_microtasks_idle.
Qed.

Lemma vad_edges_guarded (vs : list Event) (s : State) :
  no_reaction_ready s -> forallb is_vad_edge vs = true ->
  ttsActiveRef (refs s) = true -> run s vs = s.
Proof.
  intros Hq Hvs Ht. induction vs as [|v vs IH]; [reflexivity|].
  cbn [forallb] in Hvs. apply andb_true_iff in Hvs as [Hv Hvs].
  unfold run. cbn [fold_left]. rewrite (vad_edge_guarded s v Hq Hv Ht).
  now apply IH.
Qed.

(** C5.  While the TTS flag is set, a [speech_start] or [speech_end] from
    the microphone changes nothing in the coordinator, and neither does
    any sequence of them; in every state a session can reach, the phase
    [speaking] implies that the flag is set, so a microphone edge never
    moves the phase away from [speaking].  Only with the flag cleared
    does an edge set the phase to [listening]. *)
Theorem vad_edges_do_not_leave_speaking
  (es vs : list Event) (e : Event) :
  let s := run initial es in
  is_vad_edge e = true -> forallb is_vad_edge vs = true ->
  (ttsActiveRef (refs s) = true -> step s e = s /\ run s vs = s)
  /\ (callPhase (ui s) = speaking ->
        ttsActiveRef (refs s) = true
        /\ callPhase (ui (step s e)) = speaking
        /\ callPhase (ui (run s vs)) = speaking)
  /\ (ttsActiveRef (refs s) = false ->
        callPhase (ui (step s e)) = listening).
Proof.
  cbv zeta. intros He Hvs.
  destruct (reachable_traced es) as [_ Hq].
  pose proof (reachable_guard es) as Hg.
  split; [|split].
  - intros Ht. split.
    + now apply vad_edge_guarded.
    + now apply vad_edges_guarded.
  - intros Hp. pose proof (Hg Hp) as Ht. split; [exact Ht|]. split.
    + now rewrite (vad_edge_guarded _ e Hq He Ht).
    + now rewrite (vad_edges_guarded vs _ Hq Hvs Ht).
  - intros Ht. unfold step.
    destruct e; try discriminate He; cbn [handler]; unfold on_vad_edge;
      rewrite Ht; cbn [negb];
      rewrite run_microtasks_idle; try reflexivity;
      intros a Ha; exact (Hq a Ha).
Qed.

End CoordinatorFacts.

(* ===================================================================== *)
(** * The coordinator on a concrete call *)
(* ===================================================================== *)

Import Page PageFacts CoordinatorFacts CallScenario.

Lemma playback_is_ordered_and_disjoint_witness :
  forallb (fun e => negb (ends_call e)) drained = true
  /\ non_overlapping (intervals (trace (rt (run Page.initial drained))))
  /\ total (intervals (trace (rt (run Page.initial drained))))
     <= span (intervals (trace (rt (run Page.initial drained)))).
Proof.
  assert (H : forallb (fun e => negb (ends_call e)) drained = true)
    by reflexivity.
  split; [exact H|].
  destruct (playback_is_ordered_and_disjoint drained Page.initial 0
              {| channelData := []; bufferSampleRate := 16000 |}
              0%Z [] 0 0) as (_ & _ & Hrun).
  exact (Hrun H).
Defined.

Lemma vad_edges_do_not_leave_speaking_witness :
  is_vad_edge MicSpeechStart = true
  /\ forallb is_vad_edge [MicSpeechStart; MicSpeechEnd] = true
  /\ callPhase (ui (run Page.initial utterance)) = speaking
  /\ callPhase (ui (step (run Page.initial utterance) MicSpeechStart))
     = speaking
  /\ run (run Page.initial utterance) [MicSpeechStart; MicSpeechEnd]
     = run Page.initial utterance
  /\ ttsActiveRef (refs (run Page.initial [WsOpen])) = false
  /\ callPhase (ui (step (run Page.initial [WsOpen]) MicSpeechStart))
     = listening.
Proof.
  assert (He : is_vad_edge MicSpeechStart = true) by reflexivity.
  assert (Hvs : forallb is_vad_edge [MicSpeechStart; MicSpeechEnd] = true)
    by reflexivity.
  assert (Hp : callPhase (ui (run Page.initial utterance)) = speaking)
    by (vm_compute; reflexivity).
  assert (Hoff : ttsActiveRef (refs (run Page.initial [WsOpen])) = false)
    by reflexivity.
  destruct (vad_edges_do_not_leave_speaking utterance
              [MicSpeechStart; MicSpeechEnd] MicSpeechStart He Hvs)
    as (Hflag & Hphase & _).
  destruct (Hphase Hp) as (Ht & H1 & _).
  destruct (vad_edges_do_not_leave_speaking [WsOpen]
              [MicSpeechStart; MicSpeechEnd] MicSpeechStart He Hvs)
    as (_ & _ & Hlisten).
  split; [exact He|]. split; [exact Hvs|]. split; [exact Hp|].
  split; [exact H1|]. split; [exact (proj2 (Hflag Ht))|].
  split; [exact Hoff | exact (Hlisten Hoff)].
Defined.

(** C4.  The handler of [tts_end] is to "wait for all scheduled audio
    buffers to finish playing before transitioning back to listening"
    (page.tsx, lines 221-222).  It does so for the buffers of one
    utterance.  When a second utterance arrives while the first is still
    playing, the second [tts_end] finds buffers 0 and 1 scheduled and
    awaits both, but the reaction the first [tts_end] left behind still
    waits for buffer 0 alone: when buffer 0 ends, that reaction clears the
    TTS flag and sets the phase to [listening] while buffer 1 is playing
    and its completion is still to come. *)
Theorem stale_reaction_ends_speaking_early :
  let at_tts_end := run Page.initial overlapping in
  let after := step at_tts_end (SourceEnded 0) in
  (* the second tts_end finds two buffers scheduled and awaits both *)
  sourceNodesRef (refs at_tts_end) = [0; 1]%nat
  /\ sourceEndPromisesRef (refs at_tts_end) = [0; 1]%nat
  /\ reactions (rt at_tts_end) = [[0]; [0; 1]]%nat
  /\ ttsActiveRef (refs at_tts_end) = true
  /\ callPhase (ui at_tts_end) = speaking
  (* buffer 0 ends: the phase is over, buffer 1 still plays *)
  /\ ttsActiveRef (refs after) = false
  /\ isSpeaking (ui after) = false
  /\ callPhase (ui after) = listening
  /\ last (trace (rt after)) (Completed 0) = Idle [0]%nat
  /\ sourceNodesRef (refs after) = [1]%nat
  /\ ~ In (Completed 1) (trace (rt after))
  /\ reactions (rt after) = [[0; 1]]%nat.
Proof.
  cbv zeta.
  repeat match goal with |- _ /\ _ => split end;
    try (vm_compute; reflexivity).
  vm_compute. intros [H | [H | [H | [H | []]]]]; discriminate H.
Qed.

(** The call of the scenario: the phase stays [speaking] through
    [tts_end] and the microphone edges while a buffer is in flight, and
    turns to [listening] with the last completion. *)
Example scenario_phases :
  callPhase (ui (run Page.initial utterance)) = speaking
  /\ callPhase (ui (run Page.initial draining)) = speaking
  /\ ttsActiveRef (refs (run Page.initial draining)) = true
  /\ callPhase (ui (run Page.initial drained)) = listening
  /\ ttsActiveRef (refs (run Page.initial drained)) = false
  /\ (exists t0 b0 t1 b1,
        trace (rt (run Page.initial drained))
        = [Started 0 t0 b0; Started 1 t1 b1;
           Completed 0; Completed 1; Idle [0; 1]%nat]).
Proof.
  repeat (split; [vm_compute; reflexivity|]).
  vm_compute. repeat eexists.
Qed.

Import Js AudioUtils Spec Vad Scenario Effects.

(* ===================================================================== *)
(** * More on the streaming microphone *)
(* ===================================================================== *)

Lemma Math_max_ge_l (a b : Q) : a <= Math_max a b.
Proof.
  unfold Math_max. destruct (Qle_bool a b) eqn:E.
  - now apply Qle_bool_iff.
  - apply Qle_refl.
Qed.

Lemma Math_max_ge_r (a b : Q) : b <= Math_max a b.
Proof.
  unfold Math_max. destruct (Qle_bool a b) eqn:E.
  - apply Qle_refl.
  - apply Qlt_le_weak, Qnot_le_lt. intros H.
    apply Qle_bool_iff in H. congruence.
Qed.

Lemma Math_min_le_r (a b : Q) : Math_min a b <= b.
Proof.
  unfold Math_min. destruct (Qle_bool a b) eqn:E.
  - now apply Qle_bool_iff.
  - apply Qle_refl.
Qed.

Lemma Math_min_ge (a b m : Q) : m <= a -> m <= b -> m <= Math_min a b.
Proof. intros Ha Hb. unfold Math_min. now destruct (Qle_bool a b). Qed.

Lemma Math_min_Qmin (a b : Q) : Math_min a b == Qmin a b.
Proof.
  unfold Math_min. destruct (Qle_bool a b) eqn:E.
  - apply Qle_bool_iff in E. symmetry. now apply Q.min_l.
  - symmetry. apply Q.min_r. apply Qlt_le_weak, Qnot_le_lt.
    intros H. apply Qle_bool_iff in H. congruence.
Qed.

Lemma levels_of_app (a b : list Effect) :
  levels_of (a ++ b) = levels_of a ++ levels_of b.
Proof.
  induction a as [|e a IH]; [reflexivity|].
  destruct e as [[k|f]| | | |]; cbn [app levels_of]; now rewrite ?IH.
Qed.

Lemma levels_of_frames (l : list (list Z)) :
  levels_of (map (fun f => WsSend (BinaryFrame f)) l) = [].
Proof. induction l as [|f l IH]; [reflexivity | exact IH]. Qed.

Section MoreMicFacts.

Variable Math_sqrt : Q -> Q.
Variable c : Session.

Local Abbreviation tick := (onaudioprocess Math_sqrt c).
Local Abbreviation floor := (energyThreshold_of (options c)).

(** X1.  [framesSent] counts exactly the binary messages dispatched: over
    any sequence of ticks and calls of [stop] it grows by the number of
    frames sent. *)
Theorem framesSent_counts_dispatched_frames (es : list Call) (s : MicState) :
  framesSent (fst (run Math_sqrt c s es))
  = (framesSent s + length (binaries_of (snd (run Math_sqrt c s es))))%nat.
Proof.
  revert s; induction es as [|e es IH]; intros s.
  - cbn. lia.
  - rewrite run_cons. cbn [fst snd]. rewrite IH, binaries_of_app, length_app.
    destruct e as [t|r]; cbn [call].
    + rewrite tick_binaries.
      destruct (is_open (readyState t)) eqn:Ho.
      * rewrite (tick_open Math_sqrt c s t Ho). cbn [fst framesSent]. lia.
      * rewrite (tick_not_open Math_sqrt c s t Ho). cbn [fst length]. lia.
    + rewrite stop_binaries. cbn. lia.
Qed.

(** X2.  Inside one tick the control message, if any, goes out before the
    audio frames of that tick, a tick sends at most one control message,
    and the level callback comes last. *)
Theorem tick_sends_edge_before_frames (s : MicState) (t : Tick) :
  exists pre post,
    snd (tick s t)
    = pre ++ map (fun f => WsSend (BinaryFrame f))
               (binaries_of (snd (tick s t))) ++ post
    /\ binaries_of pre = [] /\ levels_of pre = []
    /\ (length (edges_of pre) <= 1)%nat
    /\ edges_of post = [] /\ binaries_of post = []
    /\ (length post <= 1)%nat.
Proof.
  destruct (is_open (readyState t)) eqn:Ho.
  - rewrite tick_binaries, Ho.
    rewrite (tick_open Math_sqrt c s t Ho). cbv zeta. cbn [snd].
    set (d := downsample (sampleRate c) (input t)).
    set (rms := rms_of Math_sqrt d).
    set (cal := calibrate c s t rms).
    set (th := threshold_of c (fst cal) (snd cal)).
    exists (snd (vad c s rms th (clock_now t))).
    exists (if onAudioLevel c
            then [CallOnAudioLevel (Math_min (rms * 8) 1)] else []).
    split; [reflexivity|].
    split; [apply vad_no_binary|].
    unfold vad.
    repeat split;
      destruct (geb rms th), (isSpeaking s); cbn;
      try destruct (geb _ _); cbn;
      try destruct (onSpeechStart _); try destruct (onSpeechEnd _);
      try destruct (onAudioLevel c); cbn; try reflexivity; lia.
  - rewrite (tick_not_open Math_sqrt c s t Ho). cbn.
    exists [], []. repeat split; cbn; lia.
Qed.

(** X3.  The threshold never drops below the static floor.  Calibration
    happens only inside the first 500 ms: an open tick inside the window
    adds its RMS and counts one sample, a tick after the window leaves
    both accumulators alone, and from then on the threshold is the same
    at every tick. *)
Theorem calibration_is_confined_to_window (s : MicState) (t t' : Tick) :
  floor <= threshold_at Math_sqrt c s t
  /\ (is_open (readyState t) = true ->
      clock_elapsed t - streamStartTime c < calibrationMs ->
      noiseCount (fst (tick s t)) = S (noiseCount s)
      /\ noiseSum (fst (tick s t)) = noiseSum s + rms_at Math_sqrt c t)
  /\ (calibrationMs <= clock_elapsed t - streamStartTime c ->
      noiseCount (fst (tick s t)) = noiseCount s
      /\ noiseSum (fst (tick s t)) = noiseSum s
      /\ threshold_at Math_sqrt c s t
         = threshold_of c (noiseSum s) (noiseCount s)
      /\ (calibrationMs <= clock_elapsed t' - streamStartTime c ->
          threshold_at Math_sqrt c (fst (tick s t)) t'
          = threshold_at Math_sqrt c s t)).
Proof.
  split; [|split].
  - unfold threshold_at, threshold_of. cbv zeta.
    destruct (0 <? _)%nat; [apply Math_max_ge_l | apply Qle_refl].
  - intros Ho Hin. apply ltb_true in Hin.
    rewrite (tick_open Math_sqrt c s t Ho). cbv zeta.
    cbn [fst noiseCount noiseSum]. unfold calibrate. rewrite Hin.
    split; reflexivity.
  - intros Hout.
    assert (Hcal : forall s0 t0 r,
               calibrationMs <= clock_elapsed t0 - streamStartTime c ->
               calibrate c s0 t0 r = (noiseSum s0, noiseCount s0)).
    { intros s0 t0 r H. apply ltb_false in H. unfold calibrate.
      now rewrite H. }
    assert (Hst : noiseCount (fst (tick s t)) = noiseCount s
                  /\ noiseSum (fst (tick s t)) = noiseSum s).
    { destruct (is_open (readyState t)) eqn:Ho.
      - rewrite (tick_open Math_sqrt c s t Ho). cbv zeta.
        cbn [fst noiseCount noiseSum]. rewrite (Hcal s t _ Hout).
        split; reflexivity.
      - rewrite (tick_not_open Math_sqrt c s t Ho). split; reflexivity. }
    destruct Hst as [Hn Hs].
    split; [exact Hn|]. split; [exact Hs|]. split.
    + unfold threshold_at. cbv zeta. now rewrite (Hcal s t _ Hout).
    + intros Hout'. unfold threshold_at. cbv zeta.
      rewrite (Hcal _ t' _ Hout'), (Hcal s t _ Hout). cbn [fst snd].
      now rewrite Hn, Hs.
Qed.

(** X4.  The level handed to [onAudioLevel] is min(RMS * 8, 1), the RMS
    being the square root of the mean square of the resampled buffer: it
    never exceeds 1, and it is not negative when the square root is not; the
    callback runs once per tick that passes the guard, and not at all when
    no callback was given or the socket is not OPEN. *)
Theorem audio_level_is_normalized (s : MicState) (t : Tick) :
  (forall x, 0 <= Math_sqrt x) ->
  let downsampled := downsample (sampleRate c) (input t) in
  let rms := rms_at Math_sqrt c t in
  rms = Math_sqrt (fold_left (fun acc x => acc + x * x) downsampled 0
                   / inject_Z (Z.of_nat (length downsampled)))
  /\ levels_of (snd (tick s t))
     = (if onAudioLevel c && is_open (readyState t)
        then [Math_min (rms * 8) 1] else [])
  /\ Math_min (rms * 8) 1 == Qmin (rms * 8) 1
  /\ Forall (fun l => 0 <= l <= 1) (levels_of (snd (tick s t)))
  /\ length (levels_of (snd (tick s t)))
     = (if onAudioLevel c && is_open (readyState t) then 1 else 0)%nat.
Proof.
  intros Hsqrt. cbv zeta.
  assert (Hlev : levels_of (snd (tick s t))
                 = if onAudioLevel c && is_open (readyState t)
                   then [Math_min (rms_at Math_sqrt c t * 8) 1] else []).
  { destruct (is_open (readyState t)) eqn:Ho.
    - rewrite (tick_open Math_sqrt c s t Ho). cbv zeta. cbn [snd].
      rewrite !levels_of_app, levels_of_frames.
      assert (Hv : forall rms th now,
                 levels_of (snd (vad c s rms th now)) = []).
      { intros rms th now. unfold vad.
        destruct (geb rms th), (isSpeaking s); cbn;
          try destruct (geb _ _); cbn;
          try destruct (onSpeechStart _); try destruct (onSpeechEnd _);
          reflexivity. }
      rewrite Hv. cbn [app].
      destruct (onAudioLevel c); reflexivity.
    - rewrite (tick_not_open Math_sqrt c s t Ho). cbn [snd levels_of].
      now rewrite andb_false_r. }
  split; [reflexivity|].
  split; [exact Hlev|]. split; [apply Math_min_Qmin|].
  rewrite Hlev.
  destruct (onAudioLevel c && is_open (readyState t));
    [|split; [constructor | reflexivity]].
  split; [|reflexivity]. constructor; [|constructor]. split.
  - apply Math_min_ge; [|discriminate].
    pose proof (Hsqrt (energySum_of (downsample (sampleRate c) (input t))
                       / inject_Z (Z.of_nat
                           (length (downsample (sampleRate c) (input t))))))
      as H.
    unfold rms_at, rms_of. lra.
  - apply Math_min_le_r.
Qed.

(** X9.  Sound whose RMS stays below the static floor is never taken for
    speech: from a silent detector, no sequence of such ticks and calls
    of [stop] sends any control message. *)
Theorem below_floor_is_never_speech (es : list Call) (s : MicState) :
  isSpeaking s = false ->
  (forall t, In (Process t) es -> rms_at Math_sqrt c t < floor) ->
  edges_of (snd (run Math_sqrt c s es)) = []
  /\ isSpeaking (fst (run Math_sqrt c s es)) = false.
Proof.
  revert s; induction es as [|e es IH]; intros s Hs Hq.
  - split; [reflexivity | exact Hs].
  - rewrite run_cons. cbn [fst snd]. rewrite edges_of_app.
    assert (Hstep : edges_of (snd (call Math_sqrt c s e)) = []
                    /\ isSpeaking (fst (call Math_sqrt c s e)) = false).
    { destruct e as [t|r]; cbn [call].
      - destruct (is_open (readyState t)) eqn:Ho.
        + pose proof (tick_vad Math_sqrt c s t Ho) as [_ Hv].
          cbv zeta in Hv. rewrite Hs in Hv.
          assert (Hm : meets Math_sqrt c s t = false).
          { apply geb_false.
            apply Qlt_le_trans with floor.
            - apply Hq. now left.
            - unfold threshold_at, threshold_of. cbv zeta.
              destruct (0 <? _)%nat; [apply Math_max_ge_l | apply Qle_refl]. }
          rewrite Hm in Hv. exact Hv.
        + rewrite (tick_not_open Math_sqrt c s t Ho). split; [reflexivity | exact Hs].
      - rewrite stop_edges, Hs. split; [reflexivity | exact Hs]. }
    destruct Hstep as [He Hs']. rewrite He. cbn [app].
    apply IH; [exact Hs'|]. intros t Ht. apply Hq. now right.
Qed.

(** X10.  The first tick of the calibration window cannot start speech:
    its own RMS is the whole noise estimate, so the threshold is at least
    three times that RMS.  With a positive floor the tick sends no
    [speech_start], however loud it is. *)
Theorem first_calibration_tick_is_masked (s : MicState) (t : Tick) :
  0 < floor ->
  noiseCount s = 0%nat -> noiseSum s == 0 -> isSpeaking s = false ->
  clock_elapsed t - streamStartTime c < calibrationMs ->
  edges_of (snd (tick s t)) = []
  /\ isSpeaking (fst (tick s t)) = false.
Proof.
  intros Hf Hn Hsum Hs Hin. apply ltb_true in Hin.
  destruct (is_open (readyState t)) eqn:Ho.
  - pose proof (tick_vad Math_sqrt c s t Ho) as [_ Hv]. cbv zeta in Hv.
    rewrite Hs in Hv.
    assert (Hm : meets Math_sqrt c s t = false).
    { apply geb_false. unfold threshold_at, calibrate. cbv zeta.
      rewrite Hin, Hn. cbn [fst snd]. unfold threshold_of.
      cbn [Nat.ltb Nat.leb]. cbv zeta.
      set (rms := rms_at Math_sqrt c t).
      pose proof (Math_max_ge_l floor ((noiseSum s + rms) / inject_Z (Z.of_nat 1) * 3)) as H1.
      pose proof (Math_max_ge_r floor ((noiseSum s + rms) / inject_Z (Z.of_nat 1) * 3)) as H2.
      set (th := Math_max _ _) in *.
      assert (E : (noiseSum s + rms) / inject_Z (Z.of_nat 1) * 3 == 3 * rms).
      { rewrite Hsum. change (inject_Z (Z.of_nat 1)) with 1. field. }
      rewrite E in H2.
      destruct (Qlt_le_dec rms th) as [Hlt | Hge]; [exact Hlt|].
      exfalso. lra. }
    rewrite Hm in Hv. exact Hv.
  - rewrite (tick_not_open Math_sqrt c s t Ho). split; [reflexivity | exact Hs].
Qed.

End MoreMicFacts.

(* ===================================================================== *)
(** * More on the resampler and the encoder *)
(* ===================================================================== *)

(** X5.  When the context runs at a whole multiple [k] of 16 kHz the
    resampler keeps every [k]-th sample: the output has [N / k] samples
    and sample [i] is input sample [k * i].  At 16 kHz itself it returns
    the buffer unchanged.  Lengths and factors stay below 2^53, as every
    array length and every sample rate does. *)
Theorem downsample_keeps_every_kth_sample
  (r : Q) (k : positive) (input : list Q) :
  (Z.of_nat (length input) < 2 ^ 53)%Z ->
  (r == 16000 * inject_Z (Zpos k) ->
   (Zpos k < 2 ^ 53)%Z ->
   length (downsample r input) = (length input / Pos.to_nat k)%nat
   /\ forall i : nat, (i < length (downsample r input))%nat ->
        nth_error (downsample r input) i
        = nth_error input (Pos.to_nat k * i))
  /\ downsample 16000 input = input.
Proof.
  intros HN.
  assert (Hgen : forall (r : Q) (k : positive),
             r == 16000 * inject_Z (Zpos k) ->
             (Zpos k < 2 ^ 53)%Z ->
             length (downsample r input) = (length input / Pos.to_nat k)%nat
             /\ forall i : nat, (i < length (downsample r input))%nat ->
                  nth_error (downsample r input) i
                  = nth_error input (Pos.to_nat k * i)).
  { clear r k. intros r k Hr Hk.
    assert (Hr' : r == 16000 * (inject_Z (Zpos k) / 2 ^ Z.of_nat 0)).
    { rewrite Hr. change (2 ^ Z.of_nat 0) with 1. field. }
    assert (HN' : (Z.of_nat (length input) * 2 ^ Z.of_nat 0 < 2 ^ 53)%Z).
    { change (2 ^ Z.of_nat 0)%Z with 1%Z. lia. }
    pose proof (newLength_exact r k 0 input Hr' Hk HN') as Hlen.
    change (2 ^ Z.of_nat 0)%Z with 1%Z in Hlen. rewrite Z.mul_1_r in Hlen.
    assert (Hn : length (downsample r input)
                 = (length input / Pos.to_nat k)%nat).
    { rewrite downsample_length, Hlen.
      rewrite <- positive_nat_Z, <- Nat2Z.inj_div. apply Nat2Z.id. }
    split; [exact Hn|].
    intros i Hi. rewrite (downsample_nth r input i Hi).
    assert (Hi' : (Z.of_nat i < newLength_of r input)%Z).
    { rewrite downsample_length in Hi. lia. }
    destruct (index_exact r k 0 input Hr' Hk HN' i Hi') as [E _].
    assert (Hidx : index_of r i = (Z.of_nat i * Zpos k)%Z).
    { rewrite E. unfold resampled_index.
      rewrite <- (Qfloor_Z (Z.of_nat i * Zpos k)). apply Qfloor_comp.
      rewrite inject_Z_mult, Hr. field. }
    unfold pick. rewrite Hidx.
    replace (Z.to_nat (Z.of_nat i * Z.pos k)) with (Pos.to_nat k * i)%nat by lia.
    symmetry. apply nth_error_nth'.
    rewrite Hn in Hi.
    pose proof (Nat.Div0.mul_div_le (length input) (Pos.to_nat k)) as Hle.
    nia. }
  split; [apply Hgen|].
  destruct (Hgen 16000 1%positive) as [Hn Hi]; [reflexivity | reflexivity |].
  apply nth_error_ext. intros n.
  rewrite Nat.div_1_r in Hn.
  destruct (Nat.lt_ge_cases n (length input)) as [Hlt | Hge].
  - rewrite Hi by lia. f_equal. cbn. lia.
  - rewrite (proj2 (nth_error_None _ _)) by lia.
    symmetry. now apply nth_error_None.
Qed.

Lemma downsample_keeps_every_kth_sample_witness :
  (Z.of_nat (length (ramp 10)) < 2 ^ 53)%Z
  /\ 48000 == 16000 * inject_Z 3
  /\ (3 < 2 ^ 53)%Z
  /\ length (downsample 48000 (ramp 10)) = 3%nat
  /\ nth_error (downsample 48000 (ramp 10)) 2 = Some (6 # 128).
Proof.
  assert (HN : (Z.of_nat (length (ramp 10)) < 2 ^ 53)%Z) by reflexivity.
  assert (H : 48000 == 16000 * inject_Z 3) by reflexivity.
  assert (Hk : (3 < 2 ^ 53)%Z) by reflexivity.
  destruct (proj1 (downsample_keeps_every_kth_sample 48000 3 (ramp 10) HN)
              H Hk) as [Hlen Hidx].
  split; [exact HN|]. split; [exact H|]. split; [exact Hk|].
  split; [exact Hlen|].
  rewrite (Hidx 2%nat) by (rewrite Hlen; vm_compute; lia). reflexivity.
Defined.

Lemma trunc_monotone (x y : Q) : x <= y -> (trunc x <= trunc y)%Z.
Proof.
  intros H. destruct (Qlt_le_dec x 0) as [Hx | Hx];
    destruct (Qlt_le_dec y 0) as [Hy | Hy].
  - rewrite !trunc_nonpos by lra. now apply Qceiling_resp_le.
  - rewrite (trunc_nonpos x) by lra. rewrite (trunc_nonneg y) by lra.
    apply Z.le_trans with 0%Z.
    + rewrite <- (Qceiling_Z 0). apply Qceiling_resp_le.
      apply Qlt_le_weak. exact Hx.
    + rewrite <- (Qfloor_Z 0). apply Qfloor_resp_le. exact Hy.
  - lra.
  - rewrite !trunc_nonneg by lra. now apply Qfloor_resp_le.
Qed.

Lemma clamp_monotone (x y : Q) : x <= y -> clamp x (-1) 1 <= clamp y (-1) 1.
Proof.
  intros H. unfold clamp.
  destruct (Qlt_le_dec x (-1)), (Qlt_le_dec y (-1));
    try destruct (Qlt_le_dec 1 x); try destruct (Qlt_le_dec 1 y); lra.
Qed.

Lemma encoder_monotone (x y : Q) : x <= y -> (encoder x <= encoder y)%Z.
Proof.
  intros H. pose proof (clamp_monotone x y H) as Hc. unfold encoder.
  cbv zeta.
  assert (Rx : -1 <= clamp x (-1) 1 <= 1).
  { unfold clamp. destruct (Qlt_le_dec x (-1)); [lra|].
    destruct (Qlt_le_dec 1 x); lra. }
  destruct (Qlt_le_dec (clamp x (-1) 1) 0) as [Hx | Hx];
    destruct (Qlt_le_dec (clamp y (-1) 1) 0) as [Hy | Hy].
  - apply trunc_monotone. lra.
  - apply Z.le_trans with (trunc 0); apply trunc_monotone; lra.
  - lra.
  - apply trunc_monotone. lra.
Qed.

(** X6.  The encoder preserves order, so louder never encodes lower and
    the sign of a sample survives; everything at or above 1 encodes to
    32767, everything at or below -1 to -32768, and zero to 0. *)
Theorem encoder_is_monotone_and_saturates (x y : Q) :
  (x <= y -> (encode_sample x <= encode_sample y)%Z)
  /\ (1 <= x -> encode_sample x = 32767%Z)
  /\ (x <= -1 -> encode_sample x = (-32768)%Z)
  /\ (x == 0 -> encode_sample x = 0%Z)
  /\ (0 <= x -> (0 <= encode_sample x)%Z)
  /\ (x <= 0 -> (encode_sample x <= 0)%Z).
Proof.
  assert (E : forall z, encode_sample z = encoder z)
    by (intros z; apply encode_sample_spec).
  assert (Hmon : forall a b, a <= b -> (encode_sample a <= encode_sample b)%Z).
  { intros a b H. rewrite !E. now apply encoder_monotone. }
  assert (H1 : encode_sample 1 = 32767%Z) by reflexivity.
  assert (Hm1 : encode_sample (-1) = (-32768)%Z) by reflexivity.
  assert (H0 : encode_sample 0 = 0%Z) by reflexivity.
  destruct (encode_sample_spec x) as [_ R].
  split; [apply Hmon|]. split; [|split; [|split; [|split]]].
  - intros H. pose proof (Hmon 1 x H). lia.
  - intros H. pose proof (Hmon x (-1) H). lia.
  - intros H. apply Z.le_antisymm.
    + rewrite <- H0. apply Hmon. lra.
    + rewrite <- H0. apply Hmon. lra.
  - intros H. rewrite <- H0. now apply Hmon.
  - intros H. rewrite <- H0. now apply Hmon.
Qed.

Lemma encoder_is_monotone_and_saturates_witness :
  (1 # 4 <= 1 # 2
   /\ (encode_sample (1 # 4) <= encode_sample (1 # 2))%Z)
  /\ (1 <= 3 # 2 /\ encode_sample (3 # 2) = 32767%Z)
  /\ (- (5 # 2) <= -1 /\ encode_sample (- (5 # 2)) = (-32768)%Z).
Proof.
  assert (A : 1 # 4 <= 1 # 2) by discriminate.
  assert (B : 1 <= 3 # 2) by discriminate.
  assert (C : - (5 # 2) <= -1) by discriminate.
  split; [|split].
  - split; [exact A|].
    exact (proj1 (encoder_is_monotone_and_saturates (1 # 4) (1 # 2)) A).
  - split; [exact B|].
    destruct (encoder_is_monotone_and_saturates (3 # 2) 0) as (_ & H & _).
    exact (H B).
  - split; [exact C|].
    destruct (encoder_is_monotone_and_saturates (- (5 # 2)) 0)
      as (_ & _ & H & _).
    exact (H C).
Defined.

Lemma Qfloor_between (x : Q) (a : Z) :
  inject_Z a <= x -> x < inject_Z (a + 1) -> Qfloor x = a.
Proof.
  intros Hlo Hhi. apply Z.le_antisymm.
  - assert (H : (Qfloor x < a + 1)%Z).
    { rewrite Zlt_Qlt. apply Qle_lt_trans with x; [apply Qfloor_le | exact Hhi]. }
    lia.
  - rewrite <- (Qfloor_Z a). now apply Qfloor_resp_le.
Qed.

(** X7.  What arrives decodes into [-1, 1); sending a decoded sample back
    through the encoder returns it unchanged when it is zero or negative
    and one step lower when it is positive, because the decoder divides by
    32768 and the encoder multiplies positive values by 32767. *)
Theorem decode_then_encode (y : Z) :
  (-32768 <= y <= 32767)%Z ->
  -1 <= Page.decode_sample y /\ Page.decode_sample y < 1
  /\ encode_sample (Page.decode_sample y)
     = (if (0 <? y)%Z then y - 1 else y)%Z.
Proof.
  intros Hy. unfold Page.decode_sample.
  assert (Hlo : -32768 <= inject_Z y).
  { change (-32768) with (inject_Z (-32768)). rewrite <- Zle_Qle. lia. }
  assert (Hhi : inject_Z y <= 32767).
  { change 32767 with (inject_Z 32767). rewrite <- Zle_Qle. lia. }
  set (d := inject_Z y / 32768).
  assert (Ed : d == inject_Z y * (1 # 32768)) by (unfold d; field).
  assert (Rd : -1 <= d /\ d < 1) by (rewrite Ed; split; lra).
  split; [apply Rd|]. split; [apply Rd|].
  destruct (encode_sample_spec d) as [-> _]. unfold encoder. cbv zeta.
  assert (Hc : clamp d (-1) 1 == d) by (apply clamp_id; lra).
  destruct (Qlt_le_dec (clamp d (-1) 1) 0) as [Hs | Hs].
  - assert (Hneg : (y < 0)%Z).
    { rewrite Zlt_Qlt. change (inject_Z 0) with 0. lra. }
    destruct (Z.ltb_spec 0 y); [lia|].
    rewrite (trunc_comp (clamp d (-1) 1 * 32768) (inject_Z y))
      by (rewrite Hc, Ed; field).
    rewrite trunc_nonpos by lra. apply Qceiling_Z.
  - assert (Hpos : (0 <= y)%Z).
    { rewrite Zle_Qle. change (inject_Z 0) with 0. lra. }
    rewrite (trunc_comp (clamp d (-1) 1 * 32767) (d * 32767))
      by (now rewrite Hc).
    rewrite trunc_nonneg by lra.
    destruct (Z.ltb_spec 0 y) as [Hp | Hz].
    + assert (Hy0 : 0 < inject_Z y).
      { change 0 with (inject_Z 0). rewrite <- Zlt_Qlt. exact Hp. }
      apply Qfloor_between.
      * replace (y - 1)%Z with (y + -1)%Z by lia. rewrite inject_Z_plus.
        change (inject_Z (-1)) with (-1). rewrite Ed. lra.
      * replace (y - 1 + 1)%Z with y by lia. rewrite Ed. lra.
    + assert (y = 0%Z) by lia. subst y. reflexivity.
Qed.

Lemma decode_then_encode_witness :
  (-32768 <= 12345 <= 32767)%Z
  /\ encode_sample (Page.decode_sample 12345) = 12344%Z
  /\ (-32768 <= -12345 <= 32767)%Z
  /\ encode_sample (Page.decode_sample (-12345)) = (-12345)%Z.
Proof.
  assert (A : (-32768 <= 12345 <= 32767)%Z) by lia.
  assert (B : (-32768 <= -12345 <= 32767)%Z) by lia.
  split; [exact A|].
  split; [exact (proj2 (proj2 (decode_then_encode 12345 A)))|].
  split; [exact B|].
  exact (proj2 (proj2 (decode_then_encode (-12345) B))).
Defined.

(* ===================================================================== *)
(** * Callbacks, and the extras on a concrete session *)
(* ===================================================================== *)

Lemma called_app (p : Effect -> bool) (a b : list Effect) :
  called p (a ++ b) = (called p a + called p b)%nat.
Proof. unfold called. now rewrite filter_app, length_app. Qed.

Lemma sent_app (k : Edge) (a b : list Effect) :
  sent k (a ++ b) = (sent k a + sent k b)%nat.
Proof. unfold sent. now rewrite edges_of_app, filter_app, length_app. Qed.

Lemma called_frames (p : Effect -> bool) (l : list (list Z)) :
  (forall f, p (WsSend (BinaryFrame f)) = false) ->
  called p (map (fun f => WsSend (BinaryFrame f)) l) = 0%nat.
Proof.
  intros Hp. unfold called. induction l as [|f l IH]; [reflexivity|].
  cbn [map filter]. now rewrite Hp.
Qed.

Lemma sent_frames (k : Edge) (l : list (list Z)) :
  sent k (map (fun f => WsSend (BinaryFrame f)) l) = 0%nat.
Proof. unfold sent. now rewrite edges_of_frames. Qed.

Section CallbackFacts.

Variable Math_sqrt : Q -> Q.
Variable c : Session.

Lemma call_callbacks (s : MicState) (e : Call) :
  let out := snd (call Math_sqrt c s e) in
  called is_start_call out
  = (if onSpeechStart (options c) then sent speech_start out else 0)%nat
  /\ called is_end_call out
     = (if onSpeechEnd (options c) then sent speech_end out else 0)%nat
  /\ called is_release out
     = (match e with Stop _ => 1 | Process _ => 0 end)%nat.
Proof.
  cbv zeta. destruct e as [t|r]; cbn [call].
  - destruct (is_open (readyState t)) eqn:Ho.
    + rewrite (tick_open Math_sqrt c s t Ho). cbv zeta. cbn [snd].
      rewrite !called_app, !sent_app.
      rewrite !called_frames by reflexivity.
      rewrite !sent_frames.
      unfold vad.
      destruct (geb _ _), (isSpeaking s); cbn;
        try destruct (geb _ _); cbn;
        destruct (onSpeechStart (options c)), (onSpeechEnd (options c)),
          (onAudioLevel c); cbn; repeat split; reflexivity.
    + rewrite (tick_not_open Math_sqrt c s t Ho).
      destruct (onSpeechStart (options c)), (onSpeechEnd (options c));
        repeat split; reflexivity.
  - unfold stop. cbn [snd].
    destruct (isSpeaking s && is_open r);
      destruct (onSpeechStart (options c)), (onSpeechEnd (options c));
      repeat split; reflexivity.
Qed.

(** X8.  The callbacks stay in step with the wire: over any session
    [onSpeechStart] runs once for every [speech_start] sent and
    [onSpeechEnd] once for every [speech_end] sent, when they were given,
    and never otherwise; the device is released once per call of
    [stop]. *)
Theorem callbacks_mirror_messages (es : list Call) (s : MicState) :
  let out := snd (run Math_sqrt c s es) in
  called is_start_call out
  = (if onSpeechStart (options c) then sent speech_start out else 0)%nat
  /\ called is_end_call out
     = (if onSpeechEnd (options c) then sent speech_end out else 0)%nat
  /\ called is_release out = stops es.
Proof.
  cbv zeta. revert s; induction es as [|e es IH]; intros s.
  - destruct (onSpeechStart (options c)), (onSpeechEnd (options c));
      repeat split; reflexivity.
  - rewrite run_cons. cbn [snd]. rewrite !called_app, !sent_app.
    destruct (call_callbacks s e) as (A & B & C). cbv zeta in A, B, C.
    destruct (IH (fst (call Math_sqrt c s e))) as (A' & B' & C').
    rewrite A, B, C, A', B', C'.
    split; [|split].
    + destruct (onSpeechStart (options c)); reflexivity.
    + destruct (onSpeechEnd (options c)); reflexivity.
    + unfold stops. cbn [filter]. destruct e; reflexivity.
Qed.

End CallbackFacts.

Lemma sqrt_exact_nonneg (x : Q) : 0 <= sqrt_exact x.
Proof.
  unfold sqrt_exact, Qle. cbn [Qnum Qden]. rewrite Z.mul_1_r. cbn.
  apply Z.sqrt_nonneg.
Qed.

Lemma calibration_is_confined_to_window_witness :
  (clock_elapsed noise_10 - streamStartTime session < calibrationMs
   /\ noiseCount (fst (onaudioprocess sqrt_exact session initial noise_10))
      = 1%nat)
  /\ (calibrationMs <= clock_elapsed speech_600 - streamStartTime session
      /\ calibrationMs <= clock_elapsed silence_900 - streamStartTime session
      /\ threshold_at sqrt_exact session
           (fst (onaudioprocess sqrt_exact session initial speech_600))
           silence_900
         = threshold_at sqrt_exact session initial speech_600).
Proof.
  assert (A : clock_elapsed noise_10 - streamStartTime session < calibrationMs)
    by reflexivity.
  assert (B : calibrationMs <= clock_elapsed speech_600 - streamStartTime session)
    by discriminate.
  assert (C : calibrationMs <= clock_elapsed silence_900 - streamStartTime session)
    by discriminate.
  split.
  - split; [exact A|].
    destruct (calibration_is_confined_to_window sqrt_exact session
                initial noise_10 noise_10) as (_ & Hin & _).
    exact (proj1 (Hin eq_refl A)).
  - split; [exact B|]. split; [exact C|].
    destruct (calibration_is_confined_to_window sqrt_exact session
                initial speech_600 silence_900) as (_ & _ & Hout).
    destruct (Hout B) as (_ & _ & _ & Hsame). exact (Hsame C).
Defined.

Lemma audio_level_is_normalized_witness :
  (forall x, 0 <= sqrt_exact x)
  /\ rms_at sqrt_exact session (tick_of OPEN 12 (1 # 64) 600) == 1 # 64
  /\ (exists l,
        levels_of (snd (onaudioprocess sqrt_exact session initial
                          (tick_of OPEN 12 (1 # 64) 600))) = [l]
        /\ l == 1 # 8)
  /\ levels_of (snd (onaudioprocess sqrt_exact session initial
                       (tick_of CLOSED 12 (1 # 64) 600))) = [].
Proof.
  split; [exact sqrt_exact_nonneg|]. split; [reflexivity|]. split.
  - destruct (audio_level_is_normalized sqrt_exact session initial
                (tick_of OPEN 12 (1 # 64) 600) sqrt_exact_nonneg)
      as (_ & Hlev & Hmin & _).
    eexists. split; [exact Hlev|]. rewrite Hmin. reflexivity.
  - exact (proj1 (proj2 (audio_level_is_normalized sqrt_exact session initial
                           (tick_of CLOSED 12 (1 # 64) 600)
                           sqrt_exact_nonneg))).
Defined.

Lemma below_floor_is_never_speech_witness :
  isSpeaking initial = false
  /\ (forall t, In (Process t) [Process noise_10; Stop OPEN; Process silence_900] ->
        rms_at sqrt_exact session t < energyThreshold_of (options session))
  /\ edges_of (snd (run sqrt_exact session initial
                      [Process noise_10; Stop OPEN; Process silence_900])) = [].
Proof.
  assert (A : isSpeaking initial = false) by reflexivity.
  assert (B : forall t,
             In (Process t) [Process noise_10; Stop OPEN; Process silence_900] ->
             rms_at sqrt_exact session t < energyThreshold_of (options session)).
  { intros t [E | [E | [E | []]]]; try discriminate E;
      injection E as <-; reflexivity. }
  split; [exact A|]. split; [exact B|].
  exact (proj1 (below_floor_is_never_speech sqrt_exact session
                  [Process noise_10; Stop OPEN; Process silence_900]
                  initial A B)).
Defined.

Lemma first_calibration_tick_is_masked_witness :
  0 < energyThreshold_of (options session)
  /\ clock_elapsed (tick_of OPEN 12 (9 # 10) 10) - streamStartTime session
     < calibrationMs
  /\ edges_of (snd (onaudioprocess sqrt_exact session initial
                      (tick_of OPEN 12 (9 # 10) 10))) = [].
Proof.
  assert (A : 0 < energyThreshold_of (options session)) by reflexivity.
  assert (B : clock_elapsed (tick_of OPEN 12 (9 # 10) 10)
              - streamStartTime session < calibrationMs) by reflexivity.
  split; [exact A|]. split; [exact B|].
  exact (proj1 (first_calibration_tick_is_masked sqrt_exact session initial
                  (tick_of OPEN 12 (9 # 10) 10) A eq_refl
                  (Qeq_refl 0) eq_refl B)).
Defined.

(* ===================================================================== *)
(** * Level metering *)
(* ===================================================================== *)

Module AnalyserFacts.
Import Analyser.

Lemma u8_range (b : byte) : 0 <= u8 b /\ u8 b <= 255.
Proof.
  unfold u8. pose proof (Byte.to_N_bounded b) as H.
  split.
  - change 0 with (inject_Z 0). rewrite <- Zle_Qle. lia.
  - change 255 with (inject_Z 255). rewrite <- Zle_Qle. lia.
Qed.

Lemma sum_bounds (lo : Q) (data : list byte) (acc : Q) :
  Forall (fun b => lo <= u8 b) data ->
  acc + lo * inject_Z (Z.of_nat (length data))
  <= fold_left (fun a b => a + u8 b) data acc
  /\ fold_left (fun a b => a + u8 b) data acc
     <= acc + 255 * inject_Z (Z.of_nat (length data)).
Proof.
  revert acc; induction data as [|b data IH]; intros acc Hall.
  - cbn [fold_left length]. change (inject_Z (Z.of_nat 0)) with 0.
    split; lra.
  - inversion Hall as [|? ? Hb Hrest]; subst.
    cbn [fold_left length]. rewrite Nat2Z.inj_succ. unfold Z.succ.
    rewrite inject_Z_plus. change (inject_Z 1) with 1.
    destruct (IH (acc + u8 b) Hrest) as [L U].
    pose proof (u8_range b) as [_ Hub].
    split; lra.
Qed.

Lemma sum_total (data : list byte) (acc : Q) :
  fold_left (fun a b => a + u8 b) data acc
  == acc + inject_Z (byte_total data).
Proof.
  revert acc; induction data as [|b data IH]; intros acc.
  - cbn [fold_left byte_total fold_right]. change (inject_Z 0) with 0. ring.
  - change (byte_total (b :: data))
      with (Z.of_N (Byte.to_N b) + byte_total data)%Z.
    cbn [fold_left]. rewrite IH, inject_Z_plus. unfold u8. ring.
Qed.

(** X11.  [getAudioLevel] answers 0 for a missing analyser and otherwise
    min(mean byte / 128, 1): the result always lies in [0, 1], and it is 1
    as soon as every bin is at 128 or above. *)
Theorem getAudioLevel_is_normalized (analyser : option (list byte)) :
  analyser <> Some [] ->
  0 <= getAudioLevel analyser <= 1
  /\ (analyser = None -> getAudioLevel analyser = 0)
  /\ (forall data, analyser = Some data ->
        getAudioLevel analyser == Qmin (byte_mean data / 128) 1
        /\ (Forall (fun b => 128 <= u8 b) data ->
            getAudioLevel analyser == 1)).
Proof.
  intros Hne. destruct analyser as [data|].
  - assert (Hlen : 0 < inject_Z (Z.of_nat (length data))).
    { destruct data; [now elim Hne|]. cbn [length].
      change 0 with (inject_Z 0). rewrite <- Zlt_Qlt. lia. }
    cbn [getAudioLevel]. cbv zeta.
    pose proof (sum_total data 0) as Htot.
    set (n := inject_Z (Z.of_nat (length data))) in *.
    set (sum := fold_left (fun a b => a + u8 b) data 0) in *.
    assert (Hall0 : Forall (fun b => 0 <= u8 b) data).
    { apply Forall_forall. intros b _. apply u8_range. }
    destruct (sum_bounds 0 data 0 Hall0) as [L _]. fold sum n in L.
    assert (Havg : 0 <= sum / n / 128).
    { apply Qle_shift_div_l; [reflexivity|]. apply Qle_shift_div_l; [exact Hlen|].
      lra. }
    split; [|split].
    + split; [apply Math_min_ge; [exact Havg | discriminate]|].
      apply Math_min_le_r.
    + discriminate.
    + intros data' E. injection E as <-. split.
      * rewrite Math_min_Qmin. unfold byte_mean. fold n.
        assert (Hs : sum == inject_Z (byte_total data)) by (rewrite Htot; ring).
        now rewrite Hs.
      * intros Hhi.
        destruct (sum_bounds 128 data 0 Hhi) as [L' _]. fold sum n in L'.
        assert (H1 : 1 <= sum / n / 128).
        { apply Qle_shift_div_l; [reflexivity|].
          apply Qle_shift_div_l; [exact Hlen|]. lra. }
        unfold Math_min. destruct (Qle_bool (sum / n / 128) 1) eqn:E.
        -- apply Qle_bool_iff in E. lra.
        -- reflexivity.
  - cbn. split; [split; discriminate|]. split; [reflexivity|].
    intros data E; discriminate E.
Qed.

Lemma getAudioLevel_is_normalized_witness :
  Some (repeat x40 16) <> Some []
  /\ 0 <= getAudioLevel (Some (repeat x40 16)) <= 1
  /\ getAudioLevel (Some (repeat x40 16)) == 1 # 2
  /\ Some (repeat xc0 16) <> Some []
  /\ getAudioLevel (Some (repeat xc0 16)) == 1.
Proof.
  assert (A : Some (repeat x40 16) <> Some []) by discriminate.
  assert (B : Some (repeat xc0 16) <> Some []) by discriminate.
  split; [exact A|].
  split; [exact (proj1 (getAudioLevel_is_normalized _ A))|].
  split.
  - destruct (getAudioLevel_is_normalized _ A) as (_ & _ & H).
    rewrite (proj1 (H (repeat x40 16) eq_refl)). reflexivity.
  - split; [exact B|].
    destruct (getAudioLevel_is_normalized _ B) as (_ & _ & H).
    apply (H (repeat xc0 16) eq_refl).
    repeat constructor; discriminate.
Defined.

End AnalyserFacts.

(* ===================================================================== *)
(** * Single-utterance recording *)
(* ===================================================================== *)

Module UtteranceFacts.
Import Utterance UtteranceScenario.

Section TickFacts.

Variable Math_sqrt : Q -> Q.
Variable r : Recording.

Local Abbreviation tick := (Utterance.tick Math_sqrt r).
Local Abbreviation record := (Utterance.record Math_sqrt r).
Local Abbreviation floor := (energyThreshold_of (options r)).
Local Abbreviation silence := (silenceAfterSpeechMs_of (options r)).
Local Abbreviation deadline := (maxDurationMs_of (options r)).
Local Abbreviation patience := (noInputTimeoutMs_of (options r)).

(** A tick, case by case. *)
Lemma tick_spec (s : VadState) (f : Frame) :
  let elapsed := now f - startTime r in
  let rms := rms_at Math_sqrt f in
  let th := threshold_at Math_sqrt r s f in
  let s' := fst (fst (tick s f)) in
  let o := snd (fst (tick s f)) in
  (* the accumulators *)
  ((noiseSum s', noiseCount s')
   = if negb (speechStarted s) && ltb elapsed 500
     then (noiseSum s + rms, S (noiseCount s))
     else (noiseSum s, noiseCount s))
  (* the detector *)
  /\ speechStarted s' = (geb rms th || speechStarted s)
  /\ lastSpeechTime s'
     = (if geb rms th then Some (now f) else lastSpeechTime s)
  (* the outcome *)
  /\ o = (if negb (speechStarted s')
          then if geb elapsed patience then ResolveNull else Continue
          else if geb (now f - match lastSpeechTime s' with
                               | Some l => l | None => now f end) silence
               then ResolveBlob
               else if geb elapsed deadline then ResolveBlob else Continue).
Proof.
  cbv zeta. unfold Utterance.tick, threshold_at, rms_at. cbv zeta.
  set (elapsed := now f - startTime r).
  set (rms := rms_of Math_sqrt (timeDomain f)).
  destruct (negb (speechStarted s) && ltb elapsed 500) eqn:Hcal;
    cbv iota beta;
    match goal with
    | |- context [geb rms ?t] => set (th := t)
    end;
    destruct (geb rms th) eqn:Hm; cbv iota beta; cbn [negb andb orb];
    destruct (speechStarted s) eqn:Hs; cbn [negb andb orb];
    repeat match goal with
           | |- context [if geb ?a ?b then _ else _] =>
               destruct (geb a b) eqn:?; cbn [fst snd]
           end;
    cbn [fst snd speechStarted lastSpeechTime noiseSum noiseCount negb];
    repeat split; try reflexivity;
    cbn [lastSpeechTime] in *; congruence.
Qed.

Lemma tick_consistent (s : VadState) (f : Frame) :
  consistent s -> consistent (fst (fst (tick s f))).
Proof.
  intros [H1 H2]. destruct (tick_spec s f) as (_ & Hst & Hl & _).
  cbv zeta in *. unfold consistent. rewrite Hst, Hl.
  destruct (geb _ _); cbn [orb].
  - split; [discriminate | reflexivity].
  - split; assumption.
Qed.

Lemma record_cons (s : VadState) (f : Frame) (fs : list Frame) :
  record s (f :: fs)
  = match snd (fst (tick s f)) with
    | Continue => record (fst (fst (tick s f))) fs
    | o => (fst (fst (tick s f)), o)
    end.
Proof.
  cbn [Utterance.record]. destruct (Utterance.tick Math_sqrt r s f) as [[s' o] l].
  cbn [fst snd]. destruct o; reflexivity.
Qed.

(** X12.  [speechStarted] holds exactly when [lastSpeechTime] is not
    null, at every point of every recording; the fallback
    [lastSpeechTime ?? now] is therefore never taken once speech has
    started, and the silence is always measured from a real time. *)
Theorem speech_time_is_never_null (fs : list Frame) :
  consistent (fst (record initial fs))
  /\ (speechStarted (fst (record initial fs)) = true ->
      exists l, lastSpeechTime (fst (record initial fs)) = Some l).
Proof.
  assert (H : forall s, consistent s -> consistent (fst (record s fs))).
  { induction fs as [|f fs IH]; intros s Hs; [exact Hs|].
    rewrite record_cons. pose proof (tick_consistent s f Hs) as Hs'.
    destruct (snd (fst (tick s f))); [now apply IH | exact Hs' | exact Hs']. }
  assert (H0 : consistent initial).
  { split; [discriminate | intros E; now elim E]. }
  specialize (H initial H0). split; [exact H|].
  intros Hst. apply H in Hst.
  destruct (lastSpeechTime (fst (record initial fs))) as [l|];
    [now exists l | now elim Hst].
Qed.

(** X13.  A recording resolves with null only if no frame ever reached
    the threshold, and then at a tick at or past [noInputTimeoutMs]; it
    resolves with a blob only after speech has started.  Once speech has
    started it stays started, and the no-input timeout no longer
    applies. *)
Theorem recording_outcomes (fs : list Frame) (s : VadState) (f : Frame) :
  let o := snd (fst (tick s f)) in
  let s' := fst (fst (tick s f)) in
  (o = ResolveNull ->
     speechStarted s = false /\ speechStarted s' = false
     /\ rms_at Math_sqrt f < threshold_at Math_sqrt r s f
     /\ patience <= now f - startTime r)
  /\ (o = ResolveBlob -> speechStarted s' = true)
  /\ (speechStarted s = true -> speechStarted s' = true /\ o <> ResolveNull)
  /\ (snd (record initial fs) = ResolveNull ->
        speechStarted (fst (record initial fs)) = false)
  /\ (snd (record initial fs) = ResolveBlob ->
        speechStarted (fst (record initial fs)) = true).
Proof.
  cbv zeta.
  assert (Hone : forall s f,
             (snd (fst (tick s f)) = ResolveNull ->
                speechStarted s = false
                /\ speechStarted (fst (fst (tick s f))) = false
                /\ rms_at Math_sqrt f < threshold_at Math_sqrt r s f
                /\ patience <= now f - startTime r)
             /\ (snd (fst (tick s f)) = ResolveBlob ->
                   speechStarted (fst (fst (tick s f))) = true)
             /\ (speechStarted s = true ->
                   speechStarted (fst (fst (tick s f))) = true
                   /\ snd (fst (tick s f)) <> ResolveNull)).
  { clear s f. intros s f.
    destruct (tick_spec s f) as (_ & Hst & _ & Ho). cbv zeta in *.
    rewrite Ho, Hst.
    destruct (geb (rms_at Math_sqrt f) (threshold_at Math_sqrt r s f)) eqn:Hm;
      destruct (speechStarted s) eqn:Hs; cbn [orb negb];
      repeat match goal with
             | |- context [if geb ?a ?b then _ else _] =>
                 destruct (geb a b) eqn:?
             end;
      repeat split; try discriminate; try reflexivity;
      try (intros E; discriminate E).
    - now apply geb_false.
    - now apply geb_true. }
  destruct (Hone s f) as (A & B & C).
  split; [exact A|]. split; [exact B|]. split; [exact C|].
  assert (Hrun : forall s0,
             (snd (record s0 fs) = ResolveNull ->
                speechStarted (fst (record s0 fs)) = false)
             /\ (snd (record s0 fs) = ResolveBlob ->
                   speechStarted (fst (record s0 fs)) = true)).
  { clear s f A B C. induction fs as [|f fs IH]; intros s0.
    - cbn. split; intros E; discriminate E.
    - rewrite record_cons. destruct (Hone s0 f) as (A & B & _).
      destruct (snd (fst (tick s0 f))) eqn:Eo.
      + apply IH.
      + cbn [fst snd]. split; [intros _; now apply A | intros E; discriminate E].
      + cbn [fst snd]. split; [intros E; discriminate E | intros _; now apply B]. }
  apply Hrun.
Qed.

(** X14.  No recording runs on past both limits: a tick at or after
    [noInputTimeoutMs] and [maxDurationMs] always resolves the promise. *)
Theorem recording_has_a_deadline (s : VadState) (f : Frame) :
  patience <= now f - startTime r ->
  deadline <= now f - startTime r ->
  snd (fst (tick s f)) <> Continue.
Proof.
  intros Hp Hd. apply geb_true in Hp, Hd.
  destruct (tick_spec s f) as (_ & _ & _ & Ho). cbv zeta in Ho.
  rewrite Ho, Hp, Hd.
  destruct (speechStarted (fst (fst (tick s f)))); cbn [negb];
    [|discriminate].
  destruct (geb _ silence); discriminate.
Qed.

(** X15.  The noise estimate only gates the start of speech.  Once speech
    has started the accumulators are frozen and every frame is judged
    against the static [energyThreshold]: a frame at or above it renews
    the speech time and the recording goes on until [maxDurationMs]; a
    frame below it ends the recording exactly when the silence has lasted
    [silenceAfterSpeechMs] or the maximum duration is reached. *)
Theorem after_speech_the_floor_decides (s : VadState) (f : Frame) (l : Q) :
  speechStarted s = true -> lastSpeechTime s = Some l -> 0 < silence ->
  let s' := fst (fst (tick s f)) in
  let o := snd (fst (tick s f)) in
  noiseSum s' = noiseSum s /\ noiseCount s' = noiseCount s
  /\ threshold_at Math_sqrt r s f = floor
  /\ (floor <= rms_at Math_sqrt f ->
        lastSpeechTime s' = Some (now f)
        /\ o = if geb (now f - startTime r) deadline
               then ResolveBlob else Continue)
  /\ (rms_at Math_sqrt f < floor ->
        lastSpeechTime s' = Some l
        /\ o = if geb (now f - l) silence
                  || geb (now f - startTime r) deadline
               then ResolveBlob else Continue).
Proof.
  intros Hs Hl Hpos. cbv zeta.
  destruct (tick_spec s f) as (Hn & Hst & Hlast & Ho). cbv zeta in *.
  rewrite Hs in Hn. cbn [negb andb] in Hn. injection Hn as Hn1 Hn2.
  assert (Hth : threshold_at Math_sqrt r s f = floor).
  { unfold threshold_at, threshold_of. rewrite Hs. reflexivity. }
  rewrite Hst, Hs, orb_true_r in Ho. cbn [negb] in Ho.
  rewrite Hlast in Ho. rewrite Hth in *.
  split; [exact Hn1|]. split; [exact Hn2|]. split; [reflexivity|]. split.
  - intros Hge. apply geb_true in Hge. rewrite Hge in *.
    split; [exact Hlast|]. rewrite Ho.
    assert (E : geb (now f - now f) silence = false) by (apply geb_false; lra).
    now rewrite E.
  - intros Hlt. apply geb_false in Hlt. rewrite Hlt in *. rewrite Hl in *.
    split; [exact Hlast|]. rewrite Ho.
    destruct (geb (now f - l) silence); reflexivity.
Qed.

End TickFacts.

Lemma recording_has_a_deadline_witness :
  noInputTimeoutMs_of (options recording) <= now (quiet_frame 30000) - startTime recording
  /\ maxDurationMs_of (options recording) <= now (quiet_frame 30000) - startTime recording
  /\ snd (fst (Utterance.tick sqrt_exact recording heard (quiet_frame 30000)))
     <> Continue.
Proof.
  assert (A : noInputTimeoutMs_of (options recording)
              <= now (quiet_frame 30000) - startTime recording) by discriminate.
  assert (B : maxDurationMs_of (options recording)
              <= now (quiet_frame 30000) - startTime recording) by discriminate.
  split; [exact A|]. split; [exact B|].
  exact (recording_has_a_deadline sqrt_exact recording heard
           (quiet_frame 30000) A B).
Defined.

Lemma recording_outcomes_witness :
  (snd (Utterance.record sqrt_exact recording initial
          [quiet_frame 0; quiet_frame 4000; quiet_frame 5000]) = ResolveNull
   /\ speechStarted (fst (Utterance.record sqrt_exact recording initial
          [quiet_frame 0; quiet_frame 4000; quiet_frame 5000])) = false)
  /\ (snd (Utterance.record sqrt_exact recording initial
          [quiet_frame 0; loud_frame 1000; quiet_frame 1600]) = ResolveBlob
      /\ speechStarted (fst (Utterance.record sqrt_exact recording initial
          [quiet_frame 0; loud_frame 1000; quiet_frame 1600])) = true)
  /\ (speechStarted heard = true
      /\ snd (fst (Utterance.tick sqrt_exact recording heard (quiet_frame 9000)))
         <> ResolveNull).
Proof.
  assert (A : snd (Utterance.record sqrt_exact recording initial
                     [quiet_frame 0; quiet_frame 4000; quiet_frame 5000])
              = ResolveNull) by (vm_compute; reflexivity).
  assert (B : snd (Utterance.record sqrt_exact recording initial
                     [quiet_frame 0; loud_frame 1000; quiet_frame 1600])
              = ResolveBlob) by (vm_compute; reflexivity).
  assert (C : speechStarted heard = true) by (vm_compute; reflexivity).
  split; [|split].
  - split; [exact A|].
    destruct (recording_outcomes sqrt_exact recording
                [quiet_frame 0; quiet_frame 4000; quiet_frame 5000]
                initial (quiet_frame 0)) as (_ & _ & _ & H & _).
    exact (H A).
  - split; [exact B|].
    destruct (recording_outcomes sqrt_exact recording
                [quiet_frame 0; loud_frame 1000; quiet_frame 1600]
                initial (quiet_frame 0)) as (_ & _ & _ & _ & H).
    exact (H B).
  - split; [exact C|].
    destruct (recording_outcomes sqrt_exact recording []
                heard (quiet_frame 9000)) as (_ & _ & H & _).
    exact (proj2 (H C)).
Defined.

Lemma speech_time_is_never_null_witness :
  speechStarted (fst (Utterance.record sqrt_exact recording initial
                        [quiet_frame 0; loud_frame 1000])) = true
  /\ exists l, lastSpeechTime (fst (Utterance.record sqrt_exact recording initial
                                      [quiet_frame 0; loud_frame 1000])) = Some l.
Proof.
  assert (A : speechStarted (fst (Utterance.record sqrt_exact recording initial
                                    [quiet_frame 0; loud_frame 1000])) = true)
    by (vm_compute; reflexivity).
  split; [exact A|].
  exact (proj2 (speech_time_is_never_null sqrt_exact recording
                  [quiet_frame 0; loud_frame 1000]) A).
Defined.

Lemma after_speech_the_floor_decides_witness :
  speechStarted heard = true
  /\ lastSpeechTime heard = Some 1000
  /\ 0 < silenceAfterSpeechMs_of (options recording)
  /\ (energyThreshold_of (options recording) <= rms_at sqrt_exact (loud_frame 1500)
      /\ snd (fst (Utterance.tick sqrt_exact recording heard (loud_frame 1500)))
         = Continue)
  /\ (rms_at sqrt_exact (quiet_frame 1600) < energyThreshold_of (options recording)
      /\ snd (fst (Utterance.tick sqrt_exact recording heard (quiet_frame 1600)))
         = ResolveBlob).
Proof.
  assert (A : speechStarted heard = true) by (vm_compute; reflexivity).
  assert (B : lastSpeechTime heard = Some 1000) by (vm_compute; reflexivity).
  assert (C : 0 < silenceAfterSpeechMs_of (options recording)) by reflexivity.
  assert (D : energyThreshold_of (options recording)
              <= rms_at sqrt_exact (loud_frame 1500))
    by (unfold Qle; vm_compute; discriminate).
  assert (E : rms_at sqrt_exact (quiet_frame 1600)
              < energyThreshold_of (options recording)) by reflexivity.
  split; [exact A|]. split; [exact B|]. split; [exact C|]. split.
  - split; [exact D|].
    destruct (after_speech_the_floor_decides sqrt_exact recording heard
                (loud_frame 1500) 1000 A B C) as (_ & _ & _ & H & _).
    exact (proj2 (H D)).
  - split; [exact E|].
    destruct (after_speech_the_floor_decides sqrt_exact recording heard
                (quiet_frame 1600) 1000 A B C) as (_ & _ & _ & _ & H).
    exact (proj2 (H E)).
Defined.

End UtteranceFacts.

(* ===================================================================== *)
(** * More on the playback scheduler and the coordinator *)
(* ===================================================================== *)

Module MorePageFacts.
Import Page PageFacts CoordinatorFacts CallScenario.

Lemma trace_fold_halt (nodes : list nat) (s : State) :
  let s1 := fold_left (fun acc node => observe (Halted node) acc) nodes s in
  trace (rt s1) = trace (rt s) ++ map Halted nodes
  /\ refs s1 = refs s /\ ui s1 = ui s
  /\ created (rt s1) = created (rt s)
  /\ settled (rt s1) = settled (rt s)
  /\ reactions (rt s1) = reactions (rt s).
Proof.
  cbv zeta. revert s; induction nodes as [|n nodes IH]; intros s.
  - cbn. rewrite app_nil_r. repeat split; reflexivity.
  - cbn [fold_left map]. destruct (IH (observe (Halted n) s))
      as (A & B & C & D & E & F).
    rewrite A, B, C, D, E, F. cbn. rewrite <- app_assoc.
    repeat split; reflexivity.
Qed.

(** X16.  [stopPlaybackImmediately] halts exactly the nodes in flight, in
    order, empties both lists, drops the context and puts the play head
    back to 0; it touches neither the phase nor the TTS flag, and a
    second call changes nothing further. *)
Theorem stopPlayback_resets_and_is_idempotent (s : State) :
  let s1 := stopPlaybackImmediately s in
  trace (rt s1) = trace (rt s) ++ map Halted (sourceNodesRef (refs s))
  /\ sourceNodesRef (refs s1) = []
  /\ sourceEndPromisesRef (refs s1) = []
  /\ audioContextRef (refs s1) = false
  /\ playHeadRef (refs s1) = 0
  /\ ttsActiveRef (refs s1) = ttsActiveRef (refs s)
  /\ ui s1 = ui s
  /\ stopPlaybackImmediately s1 = s1.
Proof.
  cbv zeta. unfold stopPlaybackImmediately.
  destruct (trace_fold_halt (sourceNodesRef (refs s)) s)
    as (A & B & C & D & E & F). cbv zeta in *.
  set (s0 := fold_left _ (sourceNodesRef (refs s)) s) in *.
  cbn [with_refs refs ui rt sourceNodesRef sourceEndPromisesRef
         audioContextRef playHeadRef ttsActiveRef fold_left].
  repeat split; try assumption; try reflexivity.
Qed.

(** ** What the handlers leave alone *)

Lemma reachable_quiet (es : list Event) : no_reaction_ready (run initial es).
Proof. apply reachable_traced. Qed.

(** X17.  Text that is not JSON, and JSON whose type is neither
    [tts_start] nor [tts_end], is ignored: in every state a call can
    reach, such a message changes nothing at all. *)
Theorem unknown_messages_are_ignored (es : list Event) :
  let s := run initial es in
  step s (WsControl None) = s
  /\ step s (WsControl (Some other_type)) = s.
Proof.
  cbv zeta. pose proof (reachable_quiet es) as Hq.
  split; unfold step; cbn [handler on_control];
    now apply run_microtasks_idle.
Qed.

Lemma ui_fold_go_idle (due : list (list nat)) (s : State) :
  due <> [] -> is_idle (fold_left (fun acc a => go_idle a acc) due s).
Proof.
  revert s; induction due as [|a due IH]; intros s Hne; [now elim Hne|].
  cbn [fold_left]. destruct due as [|b due'].
  - cbn. repeat split; reflexivity.
  - apply IH. discriminate.
Qed.

Lemma ui_run_microtasks (s : State) :
  (ui (run_microtasks s) = ui s
   /\ ttsActiveRef (refs (run_microtasks s)) = ttsActiveRef (refs s))
  \/ is_idle (run_microtasks s).
Proof.
  unfold run_microtasks.
  destruct (filter (ready s) (reactions (rt s))) as [|a due] eqn:E.
  - left. split; reflexivity.
  - right. apply ui_fold_go_idle. discriminate.
Qed.

(** X18.  In every state a call can reach, the phase [speaking] goes with
    the [isSpeaking] flag that drives the avatar; and only an inbound
    binary message or [tts_start] can put a call that was not speaking
    into the phase [speaking]. *)
Theorem speaking_phase_has_one_source (es : list Event) (e : Event) :
  let s := run initial es in
  (callPhase (ui s) = speaking -> isSpeaking (ui s) = true)
  /\ (callPhase (ui s) <> speaking ->
      callPhase (ui (step s e)) = speaking ->
      (exists int16 now0 now1, e = WsBinary int16 now0 now1)
      \/ e = WsControl (Some tts_start)).
Proof.
  cbv zeta. split.
  - induction es as [|e0 es IH] using rev_ind; [intros H; discriminate H|].
    rewrite run_snoc. unfold step.
    destruct (ui_run_microtasks (handler e0 (run initial es)))
      as [[Hu _] | (_ & _ & Hi)].
    + rewrite Hu. set (s := run initial es) in *.
      destruct e0; cbn [handler]; try (intros H; discriminate H);
        try exact IH.
      * destruct (processBinaryChunk_frame int16 now0 now1
                    (setCallPhase speaking
                       (setIsSpeaking true (set_ttsActive true s))))
          as [-> _]. reflexivity.
      * destruct m as [[| |]|]; try exact IH; [reflexivity|].
        unfold on_control. destruct (0 <? _)%nat; [exact IH|].
        intros H; discriminate H.
      * unfold on_vad_edge. destruct (negb _); [intros H; discriminate H | exact IH].
      * unfold on_vad_edge. destruct (negb _); [intros H; discriminate H | exact IH].
      * unfold on_ended. destruct (_ && _); exact IH.
    + rewrite Hi. intros H; discriminate H.
  - set (s := run initial es). intros Hnot Hnow. unfold step in Hnow.
    destruct (ui_run_microtasks (handler e s)) as [[Hu _] | (_ & _ & Hi)];
      [|rewrite Hi in Hnow; discriminate Hnow].
    rewrite Hu in Hnow.
    destruct e; cbn [handler] in Hnow; try discriminate Hnow;
      try (now elim Hnot).
    + left. now exists int16, now0, now1.
    + destruct m as [[| |]|]; try (now elim Hnot); [now right|].
      unfold on_control in Hnow. destruct (0 <? _)%nat in Hnow;
        [now elim Hnot | discriminate Hnow].
    + unfold on_vad_edge in Hnow. destruct (negb _) in Hnow;
        [discriminate Hnow | now elim Hnot].
    + unfold on_vad_edge in Hnow. destruct (negb _) in Hnow;
        [discriminate Hnow | now elim Hnot].
    + unfold on_ended in Hnow. destruct (_ && _) in Hnow; now elim Hnot.
Qed.


(** ** Nodes, promises and completions *)

Lemma accounted_go_idle (a : list nat) (s : State) :
  nodes_accounted s -> nodes_accounted (go_idle a s).
Proof.
  intros (A & B & C & D).
  split; [exact A|]. split; [exact B|]. split; [exact C|].
  intros k Hk. cbn in Hk. apply in_app_or in Hk as [Hk | [Hk | []]];
    [now apply D | discriminate Hk].
Qed.

Lemma accounted_fold_go_idle (due : list (list nat)) (s : State) :
  nodes_accounted s ->
  nodes_accounted (fold_left (fun acc a => go_idle a acc) due s).
Proof.
  revert s; induction due as [|a due IH]; intros s Hs; [exact Hs|].
  cbn [fold_left]. apply IH. now apply accounted_go_idle.
Qed.

Lemma accounted_getAudioContext (now : Q) (s : State) :
  nodes_accounted s -> nodes_accounted (getAudioContext now s).
Proof.
  intros (A & B & C & D). unfold getAudioContext.
  destruct (audioContextRef (refs s)) eqn:E.
  - split; [exact A|]. split; [exact B|]. split; [exact C | exact D].
  - split; [intros k []|]. split; [exact B|]. split; [exact C | exact D].
Qed.

Lemma accounted_scheduleBuffer (now : Q) (b : AudioBuffer) (s : State) :
  nodes_accounted s -> nodes_accounted (scheduleBuffer now b s).
Proof.
  intros Hs. pose proof (accounted_getAudioContext now s Hs)
    as (A & B & C & D).
  destruct (scheduleBuffer_refs now b s) as (Hn & Hp & _). cbv zeta in *.
  destruct (scheduleBuffer_step now b s) as (Htr & _).
  assert (Ec : created (rt (getAudioContext now s)) = created (rt s)).
  { unfold getAudioContext. now destruct (audioContextRef (refs s)). }
  assert (Es : settled (rt (getAudioContext now s)) = settled (rt s)).
  { unfold getAudioContext. now destruct (audioContextRef (refs s)). }
  assert (Et : trace (rt (getAudioContext now s)) = trace (rt s)).
  { unfold getAudioContext. now destruct (audioContextRef (refs s)). }
  assert (Ec' : created (rt (scheduleBuffer now b s)) = S (created (rt s))).
  { unfold scheduleBuffer. cbn. exact (f_equal S Ec). }
  assert (Es' : settled (rt (scheduleBuffer now b s)) = settled (rt s)).
  { unfold scheduleBuffer. cbn. exact Es. }
  rewrite Ec, Es, Et in *.
  unfold nodes_accounted. rewrite Hn, Hp, Ec', Es', Htr.
  split; [|split; [|split]].
  - intros k Hk. apply in_app_or in Hk as [Hk | [<- | []]]; [|lia].
    specialize (A k Hk). lia.
  - intros k Hk. apply in_app_or in Hk as [Hk | [<- | []]].
    + destruct (B k Hk) as [B1 B2]. split; [lia | exact B2].
    + split; [lia|]. intros Hin. specialize (C _ Hin). lia.
  - intros k Hk. specialize (C k Hk). lia.
  - intros k Hk. apply in_app_or in Hk as [Hk | [Hk | []]];
      [now apply D | discriminate Hk].
Qed.

Lemma accounted_handler (e : Event) (s : State) :
  nodes_accounted s -> nodes_accounted (handler e s).
Proof.
  intros Hs. destruct e; cbn [handler]; try exact Hs.
  - unfold processBinaryChunk.
    set (s0 := setCallPhase speaking _).
    assert (H0 : nodes_accounted s0) by exact Hs.
    destruct (map decode_sample int16).
    + now apply accounted_getAudioContext.
    + apply accounted_scheduleBuffer. now apply accounted_getAudioContext.
  - destruct m as [[| |]|]; try exact Hs.
    unfold on_control. destruct (0 <? _)%nat; [exact Hs|].
    now apply accounted_go_idle.
  - unfold on_vad_edge. now destruct (negb _).
  - unfold on_vad_edge. now destruct (negb _).
  - unfold on_ended.
    destruct ((node <? created (rt s))%nat && negb (is_settled s node)) eqn:G;
      [|exact Hs].
    apply andb_true_iff in G as [G1 G2]. apply Nat.ltb_lt in G1.
    destruct Hs as (A & B & C & D).
    split; [exact A|]. split; [|split].
    + intros k H. cbn in H. apply filter_In in H as [H Hne].
      apply negb_true_iff in Hne. apply Nat.eqb_neq in Hne.
      destruct (B k H) as [B1 B2]. split; [exact B1|].
      cbn. intros [E | Hin]; [now elim Hne | now apply B2].
    + intros k Hk. cbn in Hk. destruct Hk as [<- | Hk];
        [exact G1 | now apply C].
    + intros k Hk. cbn in Hk. apply in_app_or in Hk as [Hk | [Hk | []]].
      * right. now apply D.
      * left. now injection Hk.
  - unfold stopPlaybackImmediately.
    destruct (trace_fold_halt (sourceNodesRef (refs s)) s)
      as (T & R & U & Cr & St & Re). cbv zeta in *.
    destruct Hs as (A & B & C & D).
    split; [intros k []|]. split; [intros k []|]. split.
    + intros k Hk. cbn in Hk |- *. rewrite Cr. apply C. now rewrite <- St.
    + intros k Hk. cbn in Hk |- *. rewrite T in Hk. rewrite St.
      apply in_app_or in Hk as [Hk | Hk]; [now apply D|].
      apply in_map_iff in Hk as (x & Hx & _). discriminate Hx.
Qed.

Lemma reachable_accounted (es : list Event) :
  nodes_accounted (run initial es).
Proof.
  induction es as [|e es IH] using rev_ind.
  - split; [intros k []|]. split; [intros k []|].
    split; [intros k [] | intros k []].
  - rewrite run_snoc. unfold step, run_microtasks.
    apply accounted_fold_go_idle.
    apply (accounted_handler e (run initial es) IH).
Qed.

Lemma halts_snoc (tr : list Obs) (o : Obs) :
  halts_only_unfinished tr ->
  (forall k, o = Halted k -> ~ In (Completed k) tr) ->
  halts_only_unfinished (tr ++ [o]).
Proof.
  intros Htr Ho before k rest E.
  destruct rest as [|x rest'] using rev_ind.
  - apply app_inj_tail in E as [-> ->]. now apply Ho.
  - clear IHrest'. rewrite app_comm_cons, app_assoc in E.
    apply app_inj_tail in E as [E _]. now apply (Htr before k rest').
Qed.

Lemma halts_fold_go_idle (due : list (list nat)) (s : State) :
  halts_only_unfinished (trace (rt s)) ->
  halts_only_unfinished
    (trace (rt (fold_left (fun acc a => go_idle a acc) due s))).
Proof.
  revert s; induction due as [|a due IH]; intros s Hs; [exact Hs|].
  cbn [fold_left]. apply IH. cbn. apply halts_snoc; [exact Hs|].
  intros k E; discriminate E.
Qed.

Lemma halts_fold_halt (nodes : list nat) (s : State) :
  halts_only_unfinished (trace (rt s)) ->
  (forall k, In k nodes -> ~ In (Completed k) (trace (rt s))) ->
  halts_only_unfinished
    (trace (rt (fold_left (fun acc node => observe (Halted node) acc)
                          nodes s))).
Proof.
  revert s; induction nodes as [|n nodes IH]; intros s Hs Hn; [exact Hs|].
  cbn [fold_left]. apply IH.
  - cbn. apply halts_snoc; [exact Hs|].
    intros k E. injection E as <-. apply Hn. now left.
  - intros k Hk Hc. cbn in Hc. apply in_app_or in Hc as [Hc | [Hc | []]];
      [|discriminate Hc].
    apply (Hn k); [now right | exact Hc].
Qed.

(** X19.  A node leaves [sourceNodesRef] when it ends, so teardown never
    stops a node that has already completed: in every trace a call can
    produce, no halt of a node comes after that node's completion. *)
Theorem teardown_stops_only_unfinished_nodes (es : list Event) :
  halts_only_unfinished (trace (rt (run initial es)))
  /\ (forall k, In k (sourceNodesRef (refs (run initial es))) ->
        ~ In (Completed k) (trace (rt (run initial es)))).
Proof.
  assert (Hnodes : forall es k,
             In k (sourceNodesRef (refs (run initial es))) ->
             ~ In (Completed k) (trace (rt (run initial es)))).
  { clear es. intros es k Hk Hc.
    destruct (reachable_accounted es) as (_ & B & _ & D).
    apply (proj2 (B k Hk)). now apply D. }
  split; [|apply Hnodes].
  induction es as [|e es IH] using rev_ind.
  - intros before k rest E. now destruct before.
  - rewrite run_snoc. unfold step, run_microtasks.
    apply halts_fold_go_idle. cbn [with_rt rt trace].
    set (s := run initial es) in *.
    destruct e; cbn [handler]; try exact IH.
    + unfold processBinaryChunk.
      set (s0 := setCallPhase speaking _).
      assert (Et : forall now s', trace (rt (getAudioContext now s'))
                                  = trace (rt s')).
      { intros now s'. unfold getAudioContext.
        now destruct (audioContextRef (refs s')). }
      destruct (map decode_sample int16).
      * rewrite Et. exact IH.
      * destruct (scheduleBuffer_step now1
                    {| channelData := q :: l; bufferSampleRate := 16000 |}
                    (getAudioContext now0 s0)) as (-> & _).
        rewrite Et. apply halts_snoc; [exact IH|].
        intros k E; discriminate E.
    + destruct m as [[| |]|]; try exact IH.
      unfold on_control. destruct (0 <? _)%nat; [exact IH|].
      cbn. apply halts_snoc; [exact IH|]. intros k E; discriminate E.
    + unfold on_vad_edge. now destruct (negb _).
    + unfold on_vad_edge. now destruct (negb _).
    + unfold on_ended. destruct (_ && _); [|exact IH].
      cbn. apply halts_snoc; [exact IH|]. intros k E; discriminate E.
    + unfold stopPlaybackImmediately. cbn [with_refs rt].
      apply halts_fold_halt; [exact IH|]. apply Hnodes.
Qed.


(** ** Draining *)

Lemma rt_fold_go_idle (due : list (list nat)) (s : State) :
  created (rt (fold_left (fun acc a => go_idle a acc) due s)) = created (rt s)
  /\ settled (rt (fold_left (fun acc a => go_idle a acc) due s))
     = settled (rt s)
  /\ reactions (rt (fold_left (fun acc a => go_idle a acc) due s))
     = reactions (rt s).
Proof.
  revert s; induction due as [|a due IH]; intros s; [repeat split|].
  cbn [fold_left]. destruct (IH (go_idle a s)) as (A & B & C).
  rewrite A, B, C. repeat split.
Qed.

Lemma rt_run_microtasks (s : State) :
  created (rt (run_microtasks s)) = created (rt s)
  /\ settled (rt (run_microtasks s)) = settled (rt s)
  /\ reactions (rt (run_microtasks s))
     = filter (fun a => negb (ready s a)) (reactions (rt s)).
Proof.
  unfold run_microtasks.
  destruct (rt_fold_go_idle (filter (ready s) (reactions (rt s)))
              (with_rt s
                 {| created := created (rt s); settled := settled (rt s);
                    reactions := filter (fun a => negb (ready s a))
                                        (reactions (rt s));
                    trace := trace (rt s) |})) as (A & B & C).
  rewrite A, B, C. repeat split.
Qed.

Lemma ended_step (k : nat) (s : State) :
  let h := on_ended k s in
  ui h = ui s /\ ttsActiveRef (refs h) = ttsActiveRef (refs s)
  /\ created (rt h) = created (rt s)
  /\ reactions (rt h) = reactions (rt s)
  /\ (forall p, In p (settled (rt s)) -> In p (settled (rt h)))
  /\ ((k < created (rt s))%nat -> In k (settled (rt h))).
Proof.
  cbv zeta. unfold on_ended.
  destruct ((k <? created (rt s))%nat && negb (is_settled s k)) eqn:G.
  - cbn. repeat split; auto.
  - repeat split; auto. intros Hk.
    apply andb_false_iff in G as [G | G].
    + apply Nat.ltb_ge in G. lia.
    + apply negb_false_iff in G. now apply is_settled_In.
Qed.

Lemma drain (ks : list nat) (P : list nat) (s : State) :
  traced s -> no_reaction_ready s ->
  (forall k, In k P -> (k < created (rt s))%nat) ->
  is_idle s \/ In P (reactions (rt s)) ->
  (forall k, In k P -> In k ks \/ In k (settled (rt s))) ->
  is_idle (run s (map SourceEnded ks)).
Proof.
  revert s; induction ks as [|k ks IH]; intros s Ht Hq Hb Hor Hcov.
  - destruct Hor as [Hi | Hin]; [exact Hi|]. exfalso.
    assert (Hr : ready s P = true).
    { apply ready_In. intros p Hp. destruct (Hcov p Hp) as [[] | H]. exact H. }
    rewrite (Hq P Hin) in Hr. discriminate Hr.
  - cbn [map]. unfold run. cbn [fold_left].
    change (fold_left step (map SourceEnded ks) (step s (SourceEnded k)))
      with (run (step s (SourceEnded k)) (map SourceEnded ks)).
    unfold step. cbn [handler].
    destruct (ended_step k s) as (Hu & Htts & Hc & Hre & Hmono & Hk).
    cbv zeta in *. set (h := on_ended k s) in *.
    assert (Hth : traced h) by (apply (traced_handler (SourceEnded k) s Ht)).
    destruct (traced_run_microtasks h Hth) as [Ht' Hq'].
    destruct (rt_run_microtasks h) as (Rc & Rs & Rr).
    apply IH; try assumption.
    + intros p Hp. rewrite Rc, Hc. now apply Hb.
    + destruct Hor as [(I1 & I2 & I3) | Hin].
      * left. destruct (ui_run_microtasks h) as [[E1 E2] | Hi]; [|exact Hi].
        unfold is_idle. rewrite E1, E2, Hu, Htts. repeat split; assumption.
      * destruct (ready h P) eqn:Hr.
        -- left. unfold run_microtasks. apply ui_fold_go_idle.
           intros E.
           assert (HP : In P (filter (ready h) (reactions (rt h)))).
           { apply filter_In. split; [now rewrite Hre | exact Hr]. }
           rewrite E in HP. exact HP.
        -- right. rewrite Rr. apply filter_In. split; [now rewrite Hre|].
           now rewrite Hr.
    + intros p Hp. rewrite Rs. destruct (Hcov p Hp) as [[<- | Hin] | Hs].
      * right. apply Hk. now apply Hb.
      * now left.
      * right. now apply Hmono.
Qed.

(** X20.  The speaking phase does end: after [tts_end], once every buffer
    it awaited has completed, in any order, the TTS flag is cleared, the
    avatar flag is off and the phase is [listening]. *)
Theorem playback_drains_to_listening (es : list Event) (ks : list nat) :
  let s := run initial es in
  (forall k, In k (sourceEndPromisesRef (refs s)) ->
     In k ks \/ In k (settled (rt s))) ->
  is_idle (run (step s (WsControl (Some tts_end))) (map SourceEnded ks)).
Proof.
  cbv zeta. intros Hcov. set (s := run initial es) in *.
  destruct (reachable_traced es) as [Ht Hq]. fold s in Ht, Hq.
  destruct (reachable_traced (es ++ [WsControl (Some tts_end)])) as [Ht1 Hq1].
  rewrite run_snoc in Ht1, Hq1. fold s in Ht1, Hq1.
  pose proof (tts_end_step s Hq) as Hstep. cbv zeta in Hstep.
  set (s1 := step s (WsControl (Some tts_end))) in *.
  assert (Hc : created (rt s1) = created (rt s)
               /\ settled (rt s1) = settled (rt s)).
  { unfold s1, step. destruct (rt_run_microtasks
                                (handler (WsControl (Some tts_end)) s))
      as (A & B & _).
    rewrite A, B. cbn [handler]. unfold on_control.
    destruct (0 <? _)%nat; split; reflexivity. }
  destruct Hc as [Hc Hs].
  apply (drain ks (sourceEndPromisesRef (refs s)) s1 Ht1 Hq1).
  - intros k Hk. rewrite Hc. now apply (proj1 (reachable_accounted es)).
  - destruct (ready s (sourceEndPromisesRef (refs s))).
    + left. destruct Hstep as (_ & A & B & C). repeat split; assumption.
    + right. destruct Hstep as (_ & A & _). rewrite A.
      apply in_or_app. right. now left.
  - intros k Hk. rewrite Hs. now apply Hcov.
Qed.

(** X21.  The first buffer of a context is not queued behind a stale play
    head: with no context (at the start of a call and after every
    teardown) a chunk is scheduled at the current time, and the play head
    then stands one buffer length after it. *)
Theorem first_buffer_starts_now
  (s : State) (x : Z) (l : list Z) (now0 now1 : Q) :
  audioContextRef (refs (step s EndCall)) = false
  /\ (audioContextRef (refs s) = false -> now0 <= now1 ->
      let s' := step s (WsBinary (x :: l) now0 now1) in
      let d := Z.of_nat (length (x :: l)) # 16000 in
      exists t,
        intervals (trace (rt s'))
        = intervals (trace (rt s)) ++ [(t, t + d)]
        /\ t == now1
        /\ playHeadRef (refs s') == now1 + d).
Proof.
  assert (Hv : forall s0, view (run_microtasks s0) = view s0)
    by apply view_run_microtasks.
  assert (Hc : forall s0, audioContextRef (refs (run_microtasks s0))
                          = audioContextRef (refs s0))
    by (intros s0; exact (f_equal (fun v => fst (fst v)) (Hv s0))).
  assert (Hp : forall s0, playHeadRef (refs (run_microtasks s0))
                          = playHeadRef (refs s0))
    by (intros s0; exact (f_equal (fun v => snd (fst v)) (Hv s0))).
  assert (Hi : forall s0, intervals (trace (rt (run_microtasks s0)))
                          = intervals (trace (rt s0)))
    by (intros s0; exact (f_equal snd (Hv s0))).
  split.
  - unfold step. rewrite Hc. reflexivity.
  - intros Hctx Hle. cbv zeta. unfold step. rewrite Hp, Hi.
    cbn [handler]. unfold processBinaryChunk. cbn [map].
    set (s0 := setCallPhase speaking _).
    set (b := {| channelData := decode_sample x :: map decode_sample l;
                 bufferSampleRate := 16000 |}).
    destruct (scheduleBuffer_step now1 b (getAudioContext now0 s0))
      as (Htr & _ & Hhead & _). cbv zeta in *.
    assert (Eg : getAudioContext now1 (getAudioContext now0 s0)
                 = getAudioContext now0 s0).
    { unfold getAudioContext at 1.
      assert (Hc0 : audioContextRef (refs (getAudioContext now0 s0)) = true).
      { unfold getAudioContext. subst s0. cbn. rewrite Hctx. reflexivity. }
      now rewrite Hc0. }
    rewrite Eg in *.
    assert (Eh0 : playHeadRef (refs (getAudioContext now0 s0)) = now0).
    { unfold getAudioContext. subst s0. cbn. rewrite Hctx. reflexivity. }
    assert (Et0 : trace (rt (getAudioContext now0 s0)) = trace (rt s)).
    { unfold getAudioContext. subst s0. cbn. rewrite Hctx. reflexivity. }
    rewrite Eh0, Et0 in *.
    assert (Ed : duration b = Z.of_nat (length (x :: l)) # 16000).
    { unfold duration, b. cbn [channelData bufferSampleRate length].
      now rewrite length_map. }
    rewrite Htr, Hhead, intervals_app, Ed. cbn [intervals]. rewrite Ed.
    exists (if ltb now0 now1 then now1 else now0).
    assert (Et : (if ltb now0 now1 then now1 else now0) == now1).
    { destruct (ltb now0 now1) eqn:L; [reflexivity|].
      apply ltb_false in L. lra. }
    split; [reflexivity|]. split; [exact Et|]. now rewrite Et.
Qed.

End MorePageFacts.

Import Page PageFacts CoordinatorFacts MorePageFacts CallScenario.

Lemma speaking_phase_has_one_source_witness :
  callPhase (ui (run Page.initial [WsOpen])) <> speaking
  /\ callPhase (ui (step (run Page.initial [WsOpen])
                         (WsControl (Some tts_start)))) = speaking
  /\ callPhase (ui (run Page.initial utterance)) = speaking
  /\ Page.isSpeaking (ui (run Page.initial utterance)) = true.
Proof.
  assert (A : callPhase (ui (run Page.initial [WsOpen])) <> speaking)
    by discriminate.
  assert (B : callPhase (ui (step (run Page.initial [WsOpen])
                               (WsControl (Some tts_start)))) = speaking)
    by reflexivity.
  assert (C : callPhase (ui (run Page.initial utterance)) = speaking)
    by (vm_compute; reflexivity).
  split; [exact A|]. split; [exact B|]. split; [exact C|].
  exact (proj1 (speaking_phase_has_one_source utterance WsOpen) C).
Defined.

Lemma teardown_stops_only_unfinished_nodes_witness :
  In 1%nat (sourceNodesRef (refs (run Page.initial draining)))
  /\ ~ In (Completed 1) (trace (rt (run Page.initial draining))).
Proof.
  assert (A : In 1%nat (sourceNodesRef (refs (run Page.initial draining))))
    by (vm_compute; tauto).
  split; [exact A|].
  exact (proj2 (teardown_stops_only_unfinished_nodes draining) 1%nat A).
Defined.

Lemma playback_drains_to_listening_witness :
  (forall k, In k (sourceEndPromisesRef (refs (run Page.initial utterance))) ->
     In k [1; 0]%nat \/ In k (settled (rt (run Page.initial utterance))))
  /\ is_idle (run (step (run Page.initial utterance)
                        (WsControl (Some tts_end)))
                  (map SourceEnded [1; 0]%nat)).
Proof.
  assert (H : forall k,
             In k (sourceEndPromisesRef (refs (run Page.initial utterance))) ->
             In k [1; 0]%nat \/ In k (settled (rt (run Page.initial utterance)))).
  { intros k Hk. left. vm_compute in Hk. vm_compute. tauto. }
  split; [exact H|].
  exact (playback_drains_to_listening utterance [1; 0]%nat H).
Defined.

Lemma first_buffer_starts_now_witness :
  audioContextRef (refs (step (run Page.initial utterance) EndCall)) = false
  /\ 5 <= 7
  /\ exists t,
       intervals (trace (rt (step (step (run Page.initial utterance) EndCall)
                                  (WsBinary chunk 5 7))))
       = intervals (trace (rt (step (run Page.initial utterance) EndCall)))
         ++ [(t, t + (4 # 16000))]
       /\ t == 7.
Proof.
  destruct (first_buffer_starts_now (run Page.initial utterance)
              0%Z [] 0 0) as [A _].
  assert (B : 5 <= 7) by discriminate.
  split; [exact A|]. split; [exact B|].
  destruct (first_buffer_starts_now
              (step (run Page.initial utterance) EndCall)
              16384%Z [-16384; 0; 8192]%Z 5 7) as [_ H].
  destruct (H A B) as (t & Ht & Et & _).
  exists t. split; [exact Ht | exact Et].
Defined.

(* ===================================================================== *)
(** * Purchase flow and countdown *)
(* ===================================================================== *)

Module FlowFacts.
Import Flow.

Lemma step_EndCall_torn_down (c : Page.State) :
  torn_down (Page.step c Page.EndCall).
Proof.
  unfold Page.step.
  pose proof (PageFacts.view_run_microtasks (Page.handler Page.EndCall c)) as Hv.
  unfold torn_down.
  rewrite (f_equal (fun v => fst (fst v)) Hv : Page.audioContextRef _ = _).
  rewrite (f_equal (fun v => snd (fst v)) Hv : Page.playHeadRef _ = _).
  split; [reflexivity|]. split; [reflexivity|].
  destruct (MorePageFacts.ui_run_microtasks (Page.handler Page.EndCall c))
    as [[_ E] | (E & _)]; [rewrite E; reflexivity | exact E].
Qed.

Lemma active_is_active (a : App) :
  flowState a = active <-> is_active a = true.
Proof. unfold is_active. destruct (flowState a); split; congruence. Qed.

Lemma tick_counts (a : App) (n : nat) :
  flowState a = active ->
  timeLeft a == inject_Z (Z.of_nat (S (S n))) ->
  flowState (timer_tick a) = active
  /\ timeLeft (timer_tick a) == inject_Z (Z.of_nat (S n))
  /\ selectedMinutes (timer_tick a) = selectedMinutes a
  /\ call (timer_tick a) = call a.
Proof.
  intros Ha Ht. unfold timer_tick.
  rewrite (proj1 (active_is_active a) Ha). cbn [andb].
  assert (H2 : 2 <= timeLeft a).
  { rewrite Ht. change 2 with (inject_Z 2). rewrite <- Zle_Qle. lia. }
  assert (L : ltb 0 (timeLeft a) = true) by (apply ltb_true; lra).
  rewrite L.
  assert (Q1 : Qle_bool (timeLeft a) 1 = false).
  { destruct (Qle_bool (timeLeft a) 1) eqn:E; [|reflexivity].
    apply Qle_bool_iff in E. lra. }
  rewrite Q1. cbn [setTimeLeft flowState timeLeft selectedMinutes call].
  split; [exact Ha|]. split; [|split; reflexivity].
  rewrite Ht.
  replace (Z.of_nat (S (S n))) with (Z.of_nat (S n) + 1)%Z by lia.
  rewrite inject_Z_plus. change (inject_Z 1) with 1. ring.
Qed.

Lemma tick_last (a : App) :
  flowState a = active -> timeLeft a == 1 ->
  timer_tick a = setTimeLeft 0 (handleEndCall a).
Proof.
  intros Ha Ht. unfold timer_tick.
  rewrite (proj1 (active_is_active a) Ha). cbn [andb].
  assert (L : ltb 0 (timeLeft a) = true) by (apply ltb_true; lra).
  assert (Q1 : Qle_bool (timeLeft a) 1 = true) by (apply Qle_bool_iff; lra).
  now rewrite L, Q1.
Qed.

Lemma tick_idle (a : App) : flowState a <> active -> timer_tick a = a.
Proof.
  intros Ha. unfold timer_tick, is_active.
  destruct (flowState a); try reflexivity. now elim Ha.
Qed.

Lemma iter_tick_idle (j : nat) (a : App) :
  flowState a <> active -> Nat.iter j timer_tick a = a.
Proof.
  intros Ha. induction j as [|j IH]; [reflexivity|].
  rewrite Nat.iter_succ, IH. now apply tick_idle.
Qed.

Lemma countdown (n : nat) (a : App) :
  flowState a = active ->
  timeLeft a == inject_Z (Z.of_nat (S n)) ->
  (forall k : nat, (k <= n)%nat ->
     flowState (Nat.iter k timer_tick a) = active
     /\ timeLeft (Nat.iter k timer_tick a) == inject_Z (Z.of_nat (S n - k))
     /\ call (Nat.iter k timer_tick a) = call a)
  /\ Nat.iter (S n) timer_tick a
     = setTimeLeft 0 (handleEndCall (Nat.iter n timer_tick a)).
Proof.
  intros Ha Ht.
  assert (Hk : forall k : nat, (k <= n)%nat ->
             flowState (Nat.iter k timer_tick a) = active
             /\ timeLeft (Nat.iter k timer_tick a)
                == inject_Z (Z.of_nat (S n - k))
             /\ call (Nat.iter k timer_tick a) = call a).
  { induction k as [|k IH]; intros Hle.
    - change (Nat.iter 0 timer_tick a) with a. rewrite Nat.sub_0_r.
      repeat split; assumption.
    - destruct IH as (A & B & C); [lia|].
      rewrite Nat.iter_succ.
      replace (S n - k)%nat with (S (S (n - S k))) in B by lia.
      destruct (tick_counts _ _ A B) as (A' & B' & _ & C').
      replace (S n - S k)%nat with (S (n - S k)) by lia.
      split; [exact A'|]. split; [exact B'|]. now rewrite C'. }
  split; [exact Hk|].
  destruct (Hk n (Nat.le_refl n)) as (A & B & _).
  rewrite Nat.iter_succ. apply tick_last; [exact A|].
  rewrite B. replace (S n - n)%nat with 1%nat by lia. reflexivity.
Qed.

(** X22.  The countdown is exact: an active call with [n] whole seconds
    left stays active through the first [n - 1] ticks of the interval,
    losing one second per tick and leaving the call alone; the [n]-th tick
    ends the call through [handleEndCall], once, with the flow back at
    idle, no time left, no selection, and the playback torn down; later
    ticks do nothing. *)
Theorem countdown_ends_the_call (n : nat) (a : App) :
  flowState a = active ->
  timeLeft a == inject_Z (Z.of_nat (S n)) ->
  (forall k : nat, (k <= n)%nat ->
     flowState (Nat.iter k timer_tick a) = active
     /\ timeLeft (Nat.iter k timer_tick a) == inject_Z (Z.of_nat (S n - k))
     /\ call (Nat.iter k timer_tick a) = call a)
  /\ (let z := Nat.iter (S n) timer_tick a in
      flowState z = idle /\ timeLeft z = 0 /\ selectedMinutes z = None
      /\ call z = Page.step (call a) Page.EndCall
      /\ torn_down (call z)
      /\ forall j : nat, Nat.iter j timer_tick z = z).
Proof.
  intros Ha Ht. destruct (countdown n a Ha Ht) as [Hk Hend].
  split; [exact Hk|]. cbv zeta. rewrite Hend.
  destruct (Hk n (Nat.le_refl n)) as (_ & _ & Hc).
  cbn [setTimeLeft handleEndCall setSelectedMinutes setFlowState with_call
         flowState timeLeft selectedMinutes call].
  rewrite Hc.
  split; [reflexivity|]. split; [reflexivity|]. split; [reflexivity|].
  split; [reflexivity|]. split; [apply step_EndCall_torn_down|].
  intros j. apply iter_tick_idle. cbn. discriminate.
Qed.

Lemma countdown_ends_the_call_witness :
  flowState (purchase (1 # 2) initial) = active
  /\ timeLeft (purchase (1 # 2) initial) == inject_Z (Z.of_nat 30)
  /\ flowState (Nat.iter 29 timer_tick (purchase (1 # 2) initial)) = active
  /\ flowState (Nat.iter 30 timer_tick (purchase (1 # 2) initial)) = idle.
Proof.
  assert (A : flowState (purchase (1 # 2) initial) = active) by reflexivity.
  assert (B : timeLeft (purchase (1 # 2) initial) == inject_Z (Z.of_nat 30))
    by reflexivity.
  destruct (countdown_ends_the_call 29 (purchase (1 # 2) initial) A B)
    as [Hk Hend].
  split; [exact A|]. split; [exact B|].
  split; [exact (proj1 (Hk 29%nat (Nat.le_refl 29)))|].
  exact (proj1 Hend).
Defined.

(** X23.  Every entry of [TIME_OPTIONS] buys a whole number of seconds,
    minutes * 60, and that is what the call gets: selected and paid from
    a flow that is not active, the call becomes active with that time
    left, is still active one tick before the time is up and is ended by
    the tick at which it is up.  Without a selection, or with 0 minutes,
    paying does nothing. *)
Theorem paid_time_is_delivered (a : App) (minutes : Q) (price : Z)
  (label : String.string) :
  (selectedMinutes a = None -> payAndStart a = a)
  /\ (payAndStart (handleSelectTime 0 a) = handleSelectTime 0 a)
  /\ (In (minutes, price, label) TIME_OPTIONS -> flowState a <> active ->
      let b := purchase minutes a in
      flowState b = active /\ timeLeft b == minutes * 60
      /\ call b = Page.step (call a) Page.Activate
      /\ exists n : nat,
           timeLeft b == inject_Z (Z.of_nat (S n))
           /\ flowState (Nat.iter n timer_tick b) = active
           /\ flowState (Nat.iter (S n) timer_tick b) = idle).
Proof.
  split; [|split].
  - intros H. unfold payAndStart, handlePayAndStart. rewrite H.
    destruct (is_active a); reflexivity.
  - unfold payAndStart, handlePayAndStart. cbn.
    now rewrite andb_negb_r.
  - intros Hin Ha. cbv zeta.
    assert (Hna : is_active a = false).
    { unfold is_active. destruct (flowState a); try reflexivity. now elim Ha. }
    assert (Hgen : forall m (n : nat),
               Qeq_bool m 0 = false ->
               m * 60 == inject_Z (Z.of_nat (S n)) ->
               flowState (purchase m a) = active
               /\ timeLeft (purchase m a) == m * 60
               /\ call (purchase m a) = Page.step (call a) Page.Activate
               /\ exists n : nat,
                    timeLeft (purchase m a) == inject_Z (Z.of_nat (S n))
                    /\ flowState (Nat.iter n timer_tick (purchase m a)) = active
                    /\ flowState (Nat.iter (S n) timer_tick (purchase m a)) = idle).
    { intros m n Hm Hs.
      assert (E : purchase m a
                  = with_call (Page.step (call a) Page.Activate)
                      (setFlowState active
                         (setTimeLeft (m * 60) (handleSelectTime m a)))).
      { unfold purchase, payAndStart, handlePayAndStart, is_active.
        cbn [handleSelectTime setSelectedMinutes selectedMinutes flowState].
        rewrite Hm. cbn [setFlowState setTimeLeft flowState].
        destruct (flowState a); try reflexivity. now elim Ha. }
      rewrite E.
      set (b := with_call _ _).
      assert (Ab : flowState b = active) by reflexivity.
      assert (Tb : timeLeft b == inject_Z (Z.of_nat (S n))) by exact Hs.
      split; [reflexivity|]. split; [reflexivity|]. split; [reflexivity|].
      exists n. destruct (countdown n b Ab Tb) as [Hk Hend].
      split; [exact Tb|].
      split; [exact (proj1 (Hk n (Nat.le_refl n)))|].
      rewrite Hend. reflexivity. }
    cbn [TIME_OPTIONS In] in Hin.
    destruct Hin as [E | [E | [E | [E | [E | []]]]]]; injection E as <- _ _.
    + apply (Hgen (1 # 2) 29%nat); reflexivity.
    + apply (Hgen 15 899%nat); reflexivity.
    + apply (Hgen 20 1199%nat); reflexivity.
    + apply (Hgen 30 1799%nat); reflexivity.
    + apply (Hgen 60 3599%nat); reflexivity.
Qed.

Lemma paid_time_is_delivered_witness :
  selectedMinutes initial = None
  /\ payAndStart initial = initial
  /\ In quarter_hour TIME_OPTIONS
  /\ flowState (handleStartTalking initial) <> active
  /\ flowState (purchase 15 (handleStartTalking initial)) = active
  /\ timeLeft (purchase 15 (handleStartTalking initial)) == 900.
Proof.
  assert (A : selectedMinutes initial = None) by reflexivity.
  assert (B : In quarter_hour TIME_OPTIONS) by (right; left; reflexivity).
  assert (C : flowState (handleStartTalking initial) <> active)
    by discriminate.
  split; [exact A|].
  split; [exact (proj1 (paid_time_is_delivered initial 15 299
                          (snd quarter_hour)) A)|].
  split; [exact B|]. split; [exact C|].
  destruct (paid_time_is_delivered (handleStartTalking initial)
              15 299 (snd quarter_hour)) as (_ & _ & H).
  destruct (H B C) as (H1 & H2 & _).
  split; [exact H1|]. rewrite H2. reflexivity.
Defined.

(** X24.  The timer shows the time left split into minutes and seconds:
    for a whole number [n] of seconds, [timerMinutes] is [n / 60],
    [timerSeconds] is [n mod 60], below 60, and together they give back
    the time left. *)
Theorem timer_splits_minutes_and_seconds (a : App) (n : nat) :
  timeLeft a == inject_Z (Z.of_nat n) ->
  timerMinutes a = (Z.of_nat n / 60)%Z
  /\ timerSeconds a == inject_Z (Z.of_nat n mod 60)
  /\ 0 <= timerSeconds a /\ timerSeconds a < 60
  /\ inject_Z (timerMinutes a) * 60 + timerSeconds a == timeLeft a.
Proof.
  intros Ht.
  assert (Hm : timerMinutes a = (Z.of_nat n / 60)%Z).
  { unfold timerMinutes, Math_floor. rewrite Zdiv_Qdiv.
    apply Qfloor_comp. now rewrite Ht. }
  assert (Hq : trunc (timeLeft a / 60) = (Z.of_nat n / 60)%Z).
  { rewrite (trunc_comp (timeLeft a / 60) (inject_Z (Z.of_nat n) / inject_Z 60))
      by (now rewrite Ht).
    rewrite trunc_nonneg.
    - symmetry. apply Zdiv_Qdiv.
    - apply Qle_shift_div_l; [reflexivity|]. rewrite Qmult_0_l.
      change 0 with (inject_Z 0). rewrite <- Zle_Qle. lia. }
  assert (Hs : timerSeconds a == inject_Z (Z.of_nat n mod 60)).
  { unfold timerSeconds, Math_rem. rewrite Hq, Ht.
    rewrite Z.mod_eq by lia. unfold Z.sub.
    rewrite inject_Z_plus, inject_Z_opp, inject_Z_mult.
    change (inject_Z 60) with 60. ring. }
  pose proof (Z.mod_pos_bound (Z.of_nat n) 60 eq_refl) as [Hlo Hhi].
  split; [exact Hm|]. split; [exact Hs|].
  split; [|split].
  - rewrite Hs. change 0 with (inject_Z 0). now rewrite <- Zle_Qle.
  - rewrite Hs. change 60 with (inject_Z 60). now rewrite <- Zlt_Qlt.
  - rewrite Hs, Hm, Ht. change 60 with (inject_Z 60).
    rewrite <- inject_Z_mult, <- inject_Z_plus.
    apply inject_Z_injective.
    pose proof (Z.div_mod (Z.of_nat n) 60). lia.
Qed.

Lemma timer_splits_minutes_and_seconds_witness :
  timeLeft (setTimeLeft 754 initial) == inject_Z (Z.of_nat 754)
  /\ timerMinutes (setTimeLeft 754 initial) = 12%Z
  /\ timerSeconds (setTimeLeft 754 initial) == 34.
Proof.
  assert (A : timeLeft (setTimeLeft 754 initial) == inject_Z (Z.of_nat 754))
    by reflexivity.
  destruct (timer_splits_minutes_and_seconds (setTimeLeft 754 initial) 754 A)
    as (H1 & H2 & _).
  split; [exact A|]. split; [exact H1|]. rewrite H2. reflexivity.
Defined.

End FlowFacts.
